(** * NegoPlatform: a shallow embedding of the negotiation core

    The development follows the Python sources of [negoplatform]:
    - [domain/models.py]      (module [Models]),
    - [core/events.py]        (module [Events]),
    - [core/session.py]       (module [Session]),
    - [agents/negochat/negochat_core.py] (module [NegoChat]),
    - [core/bus.py]           (module [Bus]),
    - [domain/games/multi_issue.py] (module [Games]),
    - [core/scheduler.py]     (module [Scheduler]),
    - [agent_api/actions.py]  (module [Actions]),
    - [agent_api/context.py]  (module [Context]);
    [Examples] holds sample sessions and [Notions] the predicates the
    statements are phrased with.

    Python [int] is [Z]; Python [float] is modelled by exact rationals [Q]
    (the code only stores, adds and compares floats); [dict]s with string
    keys are [gmap string _] where only lookups matter and association lists
    where the dictionary is an untyped payload.  Exceptions are values of
    the error monad [result]. *)

From Stdlib Require Import ZArith QArith Lia.
From stdpp Require Import base option list strings gmap pretty sorting.

Set Warnings "-register-all".

#[local] Open Scope Z_scope.

(** ** Exceptions *)

Inductive exn : Type :=
| ValueError (msg : string)
| TypeError (msg : string)
| KeyError (key : string)
| IndexError (msg : string)
| RuntimeError (msg : string)
| AttributeError (msg : string)
| QueueEmpty.

Inductive result (A : Type) : Type :=
| Ok (a : A)
| Raise (e : exn).
Arguments Ok {A} a.
Arguments Raise {A} e.

Definition rbind {A B} (m : result A) (f : A -> result B) : result B :=
  match m with
  | Ok a => f a
  | Raise e => Raise e
  end.

Notation "x <-- m ;; k" := (rbind m (fun x => k))
  (at level 100, m at next level, right associativity).

(** [str(e)] *)
Definition exn_str (e : exn) : string :=
  match e with
  | ValueError m | TypeError m | RuntimeError m | AttributeError m
  | IndexError m => m
  | KeyError k => "'" +:+ k +:+ "'"
  | QueueEmpty => ""
  end.

(** [x < y] on floats. *)
Definition Qltb (x y : Q) : bool := negb (Qle_bool y x).

(** ** Python values *)

(** Untyped Python values as they occur in event payloads and in the
    dictionaries produced by [to_dict]. Dictionaries have string keys and
    keep insertion order. *)
Inductive pyval : Type :=
| PNone
| PBool (b : bool)
| PInt (z : Z)
| PFloat (q : Q)
| PStr (s : string)
| PList (l : list pyval)
| PTuple (l : list pyval)
| PDict (d : list (string * pyval)).

Definition pydict : Type := list (string * pyval).

(** Truth value of a Python object ([if val]). *)
Definition truthy (v : pyval) : bool :=
  match v with
  | PNone => false
  | PBool b => b
  | PInt z => negb (z =? 0)
  | PFloat q => negb (Qeq_bool q 0)
  | PStr s => negb (String.eqb s "")
  | PList l | PTuple l => match l with [] => false | _ => true end
  | PDict d => match d with [] => false | _ => true end
  end.

(** [d.get(k)] as an option, [d[k]] with its [KeyError], and
    [d.get(k, dflt)]. *)
Fixpoint dict_lookup (d : pydict) (k : string) : option pyval :=
  match d with
  | [] => None
  | (k', v) :: rest => if String.eqb k' k then Some v else dict_lookup rest k
  end.

Definition dict_get (d : pydict) (k : string) : pyval :=
  default PNone (dict_lookup d k).

Definition dict_get_default (d : pydict) (k : string) (dflt : pyval) : pyval :=
  default dflt (dict_lookup d k).

Definition dict_index (d : pydict) (k : string) : result pyval :=
  match dict_lookup d k with
  | Some v => Ok v
  | None => Raise (KeyError k)
  end.

(** [d[k] = v] *)
Fixpoint dict_set (d : pydict) (k : string) (v : pyval) : pydict :=
  match d with
  | [] => [(k, v)]
  | (k', v') :: rest =>
      if String.eqb k' k then (k', v) :: rest else (k', v') :: dict_set rest k v
  end.

(** ** domain/models.py *)
Module Models.

Inductive Party : Type := AGENT | HUMAN.

Record Issue : Type := mkIssue {
  name : string;
  display_name : string;
  quantity : Z;
  divisible : bool
}.

(** [Issue.__post_init__] *)
Definition Issue_new (n d : string) (q : Z) (dv : bool) : result Issue :=
  if q <? 1
  then Raise (ValueError ("Issue quantity must be at least 1, got " +:+ pretty q))
  else Ok (mkIssue n d q dv).

Record Allocation : Type := mkAllocation {
  agent : Z;
  middle : Z;
  human : Z
}.

(** [Allocation.__post_init__]: the constructor refuses negative counts. *)
Definition Allocation_new (a m h : Z) : result Allocation :=
  if existsb (fun x => x <? 0) [a; m; h]
  then Raise (ValueError "Allocation values cannot be negative")
  else Ok (mkAllocation a m h).

Definition total (a : Allocation) : Z := agent a + middle a + human a.

Definition Allocation_is_complete (a : Allocation) : bool := middle a =? 0.

Definition all_to_agent (q : Z) : result Allocation := Allocation_new q 0 0.
Definition all_to_human (q : Z) : result Allocation := Allocation_new 0 0 q.
Definition all_in_middle (q : Z) : result Allocation := Allocation_new 0 q 0.

(** Python's [//] is floor division, as is [Z.div] for a positive divisor. *)
Definition split_even (q : Z) : result Allocation :=
  let each := q / 2 in
  let remainder := q - each * 2 in
  Allocation_new each remainder each.

(** An offer maps issue names to optional allocations. *)
Record Offer : Type := mkOffer {
  allocations : gmap string (option Allocation)
}.

Definition Offer_empty_dict : Offer := mkOffer ∅.

(** [Offer.__getitem__]: [self.allocations.get(issue_name)]. *)
Definition Offer_getitem (o : Offer) (issue_name : string) : option Allocation :=
  match allocations o !! issue_name with
  | Some v => v
  | None => None
  end.

(** [Offer.__setitem__] *)
Definition Offer_setitem (o : Offer) (issue_name : string)
    (a : option Allocation) : Offer :=
  mkOffer (<[issue_name := a]> (allocations o)).

(** [Offer.is_complete] *)
Definition Offer_is_complete (o : Offer) : bool :=
  if bool_decide (allocations o = ∅) then false
  else forallb (fun kv : string * option Allocation =>
                  match kv.2 with
                  | Some alloc => Allocation_is_complete alloc
                  | None => false
                  end)
               (map_to_list (allocations o)).

(** [Offer.copy]: a fresh allocation is constructed for every entry. *)
Definition copy_entry (v : option Allocation) : result (option Allocation) :=
  match v with
  | Some alloc =>
      a <-- Allocation_new (agent alloc) (middle alloc) (human alloc) ;;
      Ok (Some a)
  | None => Ok None
  end.

Fixpoint copy_items (l : list (string * option Allocation))
    : result (gmap string (option Allocation)) :=
  match l with
  | [] => Ok ∅
  | (k, v) :: rest =>
      v' <-- copy_entry v ;;
      m <-- copy_items rest ;;
      Ok (<[k := v']> m)
  end.

Definition Offer_copy (o : Offer) : result Offer :=
  m <-- copy_items (map_to_list (allocations o)) ;;
  Ok (mkOffer m).

(** [tuple(val)]: lists and tuples give their items, a string its
    characters, a dictionary its keys; anything else is not iterable. *)
Definition py_tuple (v : pyval) : result (list pyval) :=
  match v with
  | PList l | PTuple l => Ok l
  | PStr s => Ok (map (fun c => PStr (String c "")) (String.list_ascii_of_string s))
  | PDict d => Ok (map (fun kv : string * pyval => PStr kv.1) d)
  | _ => Raise (TypeError "object is not iterable")
  end.

Definition py_item (t : list pyval) (i : nat) : result pyval :=
  match t !! i with
  | Some v => Ok v
  | None => Raise (IndexError "tuple index out of range")
  end.

(** A count read from a payload. [bool] is a subclass of [int]; comparing
    any other non-number with [0] in [__post_init__] raises [TypeError].
    A [float] count lies outside the declared [tuple[int, int, int]] and
    is refused by the model as well. *)
Definition as_count (v : pyval) : result Z :=
  match v with
  | PInt z => Ok z
  | PBool b => Ok (if b then 1 else 0)
  | _ => Raise (TypeError "'<' not supported")
  end.

Definition check_count (v : pyval) : result Z :=
  c <-- as_count v ;;
  if c <? 0 then Raise (ValueError "Allocation values cannot be negative")
  else Ok c.

(** [Allocation.from_tuple]: [cls(agent=t[0], middle=t[1], human=t[2])],
    the constructor testing the counts in that order. *)
Definition Allocation_from_tuple (t : list pyval) : result Allocation :=
  x0 <-- py_item t 0 ;;
  x1 <-- py_item t 1 ;;
  x2 <-- py_item t 2 ;;
  a <-- check_count x0 ;;
  m <-- check_count x1 ;;
  h <-- check_count x2 ;;
  Ok (mkAllocation a m h).

Definition Allocation_to_tuple (a : Allocation) : pyval :=
  PTuple [PInt (agent a); PInt (middle a); PInt (human a)].

(** [Offer.from_dict] *)
Definition entry_from_dict (val : pyval) : result (option Allocation) :=
  if truthy val
  then t <-- py_tuple val ;;
       a <-- Allocation_from_tuple t ;;
       Ok (Some a)
  else Ok None.

Fixpoint from_dict_items (data : pydict)
    (acc : gmap string (option Allocation))
    : result (gmap string (option Allocation)) :=
  match data with
  | [] => Ok acc
  | (k, val) :: rest =>
      v <-- entry_from_dict val ;;
      from_dict_items rest (<[k := v]> acc)
  end.

Definition Offer_from_dict (data : pydict) : result Offer :=
  m <-- from_dict_items data ∅ ;;
  Ok (mkOffer m).

(** [Offer.to_dict] *)
Definition Offer_to_dict (o : Offer) : pydict :=
  map (fun kv : string * option Allocation =>
         (kv.1, match kv.2 with
                | Some alloc => Allocation_to_tuple alloc
                | None => PNone
                end))
      (map_to_list (allocations o)).

Record UtilityFunction : Type := mkUtilityFunction {
  party : Party;
  values : gmap string Q
}.

(** [self.values.get(name, 0)] *)
Definition values_get (u : UtilityFunction) (n : string) : Q :=
  default 0%Q (values u !! n).

Record ProtocolRules : Type := mkProtocolRules {
  deadline_seconds : option Z;
  allow_partial_agreements : bool;
  require_formal_accept : bool;
  time_tick_interval_ms : Z
}.

Definition default_rules : ProtocolRules :=
  mkProtocolRules (Some 300) true true 5000.

Record GameSpec : Type := mkGameSpec {
  game_name : string;
  description : string;
  issues : list Issue;
  agent_utility : UtilityFunction;
  human_utility : UtilityFunction;
  rules : ProtocolRules
}.

(** [GameSpec.__post_init__]: both value maps must cover exactly the
    issue names. (The display-name maps, which the constructor then fills
    in, are not part of the model.) *)
Definition issue_name_set (l : list Issue) : gset string :=
  list_to_set (map name l).

Definition GameSpec_new (n d : string) (iss : list Issue)
    (au hu : UtilityFunction) (r : ProtocolRules) : result GameSpec :=
  if negb (bool_decide (issue_name_set iss = dom (values au)))
  then Raise (ValueError "Agent utility mismatch")
  else if negb (bool_decide (issue_name_set iss = dom (values hu)))
  then Raise (ValueError "Human utility mismatch")
  else Ok (mkGameSpec n d iss au hu r).

(** [GameSpec.get_issue] *)
Fixpoint find_issue (l : list Issue) (n : string) : option Issue :=
  match l with
  | [] => None
  | issue :: rest => if String.eqb (name issue) n then Some issue
                     else find_issue rest n
  end.

Definition get_issue (g : GameSpec) (n : string) : option Issue :=
  find_issue (issues g) n.

(** [Offer.all_in_middle] and [GameSpec.create_initial_offer] *)
Fixpoint all_in_middle_items (l : list Issue)
    (acc : gmap string (option Allocation))
    : result (gmap string (option Allocation)) :=
  match l with
  | [] => Ok acc
  | issue :: rest =>
      a <-- all_in_middle (quantity issue) ;;
      all_in_middle_items rest (<[name issue := Some a]> acc)
  end.

Definition Offer_all_in_middle (l : list Issue) : result Offer :=
  m <-- all_in_middle_items l ∅ ;;
  Ok (mkOffer m).

Definition create_initial_offer (g : GameSpec) : result Offer :=
  Offer_all_in_middle (issues g).

(** [GameSpec.validate_offer]: the loop over [self.issues] with its early
    return. *)
Fixpoint validate_issues (l : list Issue) (o : Offer) : bool * string :=
  match l with
  | [] => (true, "")
  | issue :: rest =>
      match Offer_getitem o (name issue) with
      | None => validate_issues rest o
      | Some alloc =>
          if negb (total alloc =? quantity issue)
          then (false,
                "Issue '" +:+ name issue +:+ "' has " +:+ pretty (total alloc)
                +:+ " items, expected " +:+ pretty (quantity issue))
          else validate_issues rest o
      end
  end.

Definition validate_offer (g : GameSpec) (o : Offer) : bool * string :=
  validate_issues (issues g) o.

(** [Offer.is_partial] *)
Definition Offer_is_partial (o : Offer) : bool := negb (Offer_is_complete o).

(** [UtilityFunction.calculate]: the loop over [offer.allocations.items()],
    adding [allocation.<side> * value_per_unit] to [total]. *)
Definition side (p : Party) (a : Allocation) : Z :=
  match p with
  | AGENT => agent a
  | HUMAN => human a
  end.

Definition calculate_step (u : UtilityFunction) (total : Q)
    (kv : string * option Allocation) : Q :=
  match kv.2 with
  | None => total
  | Some allocation =>
      (total + inject_Z (side (party u) allocation) * values_get u kv.1)%Q
  end.

Definition calculate (u : UtilityFunction) (o : Offer) : Q :=
  foldl (calculate_step u) 0%Q (map_to_list (allocations o)).

(** [UtilityFunction.get_max_possible] *)
Definition get_max_possible (u : UtilityFunction) (l : list Issue) : Q :=
  foldl (fun acc issue =>
           (acc + inject_Z (quantity issue) * values_get u (name issue))%Q)
        0%Q l.

(** [GameSpec.get_issue_names], [get_num_issues], [get_total_items] *)
Definition get_issue_names (g : GameSpec) : list string := map name (issues g).

Definition get_num_issues (g : GameSpec) : nat := length (issues g).

Definition get_total_items (g : GameSpec) : Z :=
  foldl (fun acc issue => acc + quantity issue) 0 (issues g).

End Models.

(** ** core/events.py *)
Module Events.

Inductive EventType : Type :=
| SEND_MESSAGE | SEND_OFFER | SEND_EXPRESSION | OFFER_IN_PROGRESS
| TIME | FORMAL_ACCEPT | GAME_START | GAME_END.

Definition EventType_value (t : EventType) : string :=
  match t with
  | SEND_MESSAGE => "send_message"
  | SEND_OFFER => "send_offer"
  | SEND_EXPRESSION => "send_expression"
  | OFFER_IN_PROGRESS => "offer_in_progress"
  | TIME => "time"
  | FORMAL_ACCEPT => "formal_accept"
  | GAME_START => "game_start"
  | GAME_END => "game_end"
  end.

Definition EventType_members : list EventType :=
  [SEND_MESSAGE; SEND_OFFER; SEND_EXPRESSION; OFFER_IN_PROGRESS;
   TIME; FORMAL_ACCEPT; GAME_START; GAME_END].

Inductive MessageSubtype : Type :=
| GENERIC
| OFFER_PROPOSE | OFFER_ACCEPT | OFFER_REJECT
| PREF_INFO | PREF_REQUEST | PREF_SPECIFIC_REQUEST | PREF_WITHHOLD
| TIMING_REQUEST | TIMING_INFO
| GREETING | FAREWELL | THANKS | APOLOGY | THREAT | PROMISE
| CONFIRMATION | CLARIFICATION.

Definition MessageSubtype_value (t : MessageSubtype) : string :=
  match t with
  | GENERIC => "generic"
  | OFFER_PROPOSE => "offer_propose"
  | OFFER_ACCEPT => "offer_accept"
  | OFFER_REJECT => "offer_reject"
  | PREF_INFO => "pref_info"
  | PREF_REQUEST => "pref_request"
  | PREF_SPECIFIC_REQUEST => "pref_specific_request"
  | PREF_WITHHOLD => "pref_withhold"
  | TIMING_REQUEST => "timing_request"
  | TIMING_INFO => "timing_info"
  | GREETING => "greeting"
  | FAREWELL => "farewell"
  | THANKS => "thanks"
  | APOLOGY => "apology"
  | THREAT => "threat"
  | PROMISE => "promise"
  | CONFIRMATION => "confirmation"
  | CLARIFICATION => "clarification"
  end.

Definition MessageSubtype_members : list MessageSubtype :=
  [GENERIC; OFFER_PROPOSE; OFFER_ACCEPT; OFFER_REJECT;
   PREF_INFO; PREF_REQUEST; PREF_SPECIFIC_REQUEST; PREF_WITHHOLD;
   TIMING_REQUEST; TIMING_INFO;
   GREETING; FAREWELL; THANKS; APOLOGY; THREAT; PROMISE;
   CONFIRMATION; CLARIFICATION].

(** Calling an [Enum] class on a value looks the member up by value and
    raises [ValueError] when there is none. *)
Definition enum_by_value {A} (members : list A) (value : A -> string)
    (cls : string) (v : pyval) : result A :=
  match v with
  | PStr s =>
      match find (fun m => String.eqb (value m) s) members with
      | Some m => Ok m
      | None => Raise (ValueError (s +:+ " is not a valid " +:+ cls))
      end
  | _ => Raise (ValueError ("not a valid " +:+ cls))
  end.

Definition EventType_of_value : pyval -> result EventType :=
  enum_by_value EventType_members EventType_value "EventType".

Definition MessageSubtype_of_value : pyval -> result MessageSubtype :=
  enum_by_value MessageSubtype_members MessageSubtype_value "MessageSubtype".

Inductive Expression : Type :=
| NEUTRAL | HAPPY | SAD | ANGRY | SURPRISED | DISGUSTED | SCARED | CONTEMPT.

Definition Expression_value (x : Expression) : string :=
  match x with
  | NEUTRAL => "neutral"
  | HAPPY => "happy"
  | SAD => "sad"
  | ANGRY => "angry"
  | SURPRISED => "surprised"
  | DISGUSTED => "disgusted"
  | SCARED => "scared"
  | CONTEMPT => "contempt"
  end.

Record Preference : Type := mkPreference {
  issue1 : string;
  issue2 : option string;
  relation : string;
  is_query : bool
}.

Definition Preference_to_dict (p : Preference) : pydict :=
  [("issue1", PStr (issue1 p));
   ("issue2", match issue2 p with Some s => PStr s | None => PNone end);
   ("relation", PStr (relation p));
   ("is_query", PBool (is_query p))].

Definition HUMAN_ID : string := "human".
Definition AGENT_ID : string := "agent".
Definition SYSTEM_ID : string := "system".

Record Event : Type := mkEvent {
  event_type : EventType;
  sender_id : string;
  payload : pydict;
  delay_ms : Z;
  event_id : string;
  timestamp : Q;
  subtype : option MessageSubtype
}.

(** The factories take the fresh [event_id] and the clock reading that the
    dataclass defaults draw from [uuid] and [time.time()]. *)
Definition send_message (eid : string) (now : Q) (sender : string)
    (text : string) (st : MessageSubtype) (preference : option Preference)
    (delay : Z) : Event :=
  let payload0 := [("text", PStr text)] in
  let payload1 := match preference with
                  | Some p => dict_set payload0 "preference"
                                (PDict (Preference_to_dict p))
                  | None => payload0
                  end in
  mkEvent SEND_MESSAGE sender payload1 delay eid now (Some st).

Definition send_offer (eid : string) (now : Q) (sender : string)
    (offer_dict : pyval) (delay : Z) : Event :=
  mkEvent SEND_OFFER sender [("offer", offer_dict)] delay eid now None.

Definition send_expression (eid : string) (now : Q) (sender : string)
    (expression : Expression) (duration_ms delay : Z) : Event :=
  mkEvent SEND_EXPRESSION sender
    [("expression", PStr (Expression_value expression));
     ("duration_ms", PInt duration_ms)]
    delay eid now None.

Definition offer_in_progress (eid : string) (now : Q) (sender : string)
    (partial_offer_dict : pyval) : Event :=
  let payload0 := if truthy partial_offer_dict
                  then [("partial_offer", partial_offer_dict)] else [] in
  mkEvent OFFER_IN_PROGRESS sender payload0 0 eid now None.

Definition time_tick (eid : string) (now : Q) (elapsed_seconds : Q)
    (remaining_seconds : option Q) : Event :=
  let payload0 := [("elapsed_seconds", PFloat elapsed_seconds)] in
  let payload1 := match remaining_seconds with
                  | Some r => dict_set payload0 "remaining_seconds" (PFloat r)
                  | None => payload0
                  end in
  mkEvent TIME SYSTEM_ID payload1 0 eid now None.

Definition formal_accept (eid : string) (now : Q) (sender : string)
    (delay : Z) : Event :=
  mkEvent FORMAL_ACCEPT sender [] delay eid now None.

Definition game_start (eid : string) (now : Q) (game_name : string)
    (game_index : Z) : Event :=
  mkEvent GAME_START SYSTEM_ID
    [("game_name", PStr game_name); ("game_index", PInt game_index)]
    0 eid now None.

Definition game_end (eid : string) (now : Q) (reason : string)
    (final_offer_dict : pyval) : Event :=
  let payload0 := [("reason", PStr reason)] in
  let payload1 := if truthy final_offer_dict
                  then dict_set payload0 "final_offer" final_offer_dict
                  else payload0 in
  mkEvent GAME_END SYSTEM_ID payload1 0 eid now None.

(** [Event.get_offer] *)
Definition get_offer (e : Event) : pyval :=
  match event_type e with
  | SEND_OFFER => dict_get (payload e) "offer"
  | _ => PNone
  end.

(** [Event.to_dict] *)
Definition to_dict (e : Event) : pydict :=
  [("event_id", PStr (event_id e));
   ("event_type", PStr (EventType_value (event_type e)));
   ("sender_id", PStr (sender_id e));
   ("timestamp", PFloat (timestamp e));
   ("payload", PDict (payload e));
   ("subtype", match subtype e with
               | Some st => PStr (MessageSubtype_value st)
               | None => PNone
               end);
   ("delay_ms", PInt (delay_ms e))].

(** Reading a field at its declared type. *)
Definition as_str (v : pyval) : result string :=
  match v with PStr s => Ok s | _ => Raise (TypeError "expected str") end.
Definition as_float (v : pyval) : result Q :=
  match v with
  | PFloat q => Ok q
  | PInt z => Ok (inject_Z z)
  | _ => Raise (TypeError "expected float")
  end.
Definition as_int (v : pyval) : result Z :=
  match v with PInt z => Ok z | _ => Raise (TypeError "expected int") end.
Definition as_dict (v : pyval) : result pydict :=
  match v with PDict d => Ok d | _ => Raise (TypeError "expected dict") end.

(** [Event.from_dict]; the keyword arguments are evaluated in the order
    they are written. *)
Definition from_dict (data : pydict) : result Event :=
  v_id <-- dict_index data "event_id" ;;
  v_ty <-- dict_index data "event_type" ;;
  ty <-- EventType_of_value v_ty ;;
  v_sender <-- dict_index data "sender_id" ;;
  v_ts <-- dict_index data "timestamp" ;;
  let v_payload := dict_get_default data "payload" (PDict []) in
  st <-- (if truthy (dict_get data "subtype")
          then v_st <-- dict_index data "subtype" ;;
               m <-- MessageSubtype_of_value v_st ;;
               Ok (Some m)
          else Ok None) ;;
  let v_delay := dict_get_default data "delay_ms" (PInt 0) in
  eid <-- as_str v_id ;;
  sender <-- as_str v_sender ;;
  ts <-- as_float v_ts ;;
  pl <-- as_dict v_payload ;;
  delay <-- as_int v_delay ;;
  Ok (mkEvent ty sender pl delay eid ts st).

(** [Preference.from_dict] *)
Definition Preference_from_dict (data : pyval) : result Preference :=
  d <-- match data with
        | PDict d => Ok d
        | _ => Raise (TypeError "indices must be integers")
        end ;;
  v1 <-- dict_index d "issue1" ;;
  let v2 := dict_get d "issue2" in
  vr <-- dict_index d "relation" ;;
  let vq := dict_get_default d "is_query" (PBool false) in
  i1 <-- as_str v1 ;;
  i2 <-- match v2 with
         | PNone => Ok None
         | PStr s => Ok (Some s)
         | _ => Raise (TypeError "expected str or None")
         end ;;
  r <-- as_str vr ;;
  q <-- match vq with
        | PBool b => Ok b
        | _ => Raise (TypeError "expected bool")
        end ;;
  Ok (mkPreference i1 i2 r q).

(** [Event.get_text], [get_expression], [get_preference] *)
Definition get_text (e : Event) : pyval :=
  match event_type e with
  | SEND_MESSAGE => dict_get (payload e) "text"
  | _ => PNone
  end.

Definition get_expression (e : Event) : pyval :=
  match event_type e with
  | SEND_EXPRESSION => dict_get (payload e) "expression"
  | _ => PNone
  end.

Definition get_preference (e : Event) : result (option Preference) :=
  match event_type e with
  | SEND_MESSAGE =>
      let pref_data := dict_get (payload e) "preference" in
      if truthy pref_data
      then p <-- Preference_from_dict pref_data ;; Ok (Some p)
      else Ok None
  | _ => Ok None
  end.

End Events.

(** ** core/session.py *)
Module Session.
Import Models Events.

Inductive SessionState : Type :=
| NOT_STARTED | IN_PROGRESS | COMPLETED | TIMED_OUT | CANCELLED.

Record FormalAcceptance : Type := mkFormalAcceptance {
  human_accepted : bool;
  agent_accepted : bool;
  human_accepted_at : option Q;
  agent_accepted_at : option Q
}.

Definition FormalAcceptance_init : FormalAcceptance :=
  mkFormalAcceptance false false None None.

(** [FormalAcceptance.reset] *)
Definition reset (a : FormalAcceptance) : FormalAcceptance :=
  mkFormalAcceptance false false None None.

Definition both_accepted (a : FormalAcceptance) : bool :=
  human_accepted a && agent_accepted a.

Record NegotiationSession : Type := mkSession {
  game : GameSpec;
  session_id : string;
  _state : SessionState;
  _current_offer : Offer;
  _acceptance : FormalAcceptance;
  _history : list Event;
  _start_time : option Q;
  _end_time : option Q;
  _last_human_offer : option Offer;
  _last_agent_offer : option Offer
}.

(** [NegotiationSession.__init__]; [sid] is the optional argument and
    [now] the clock reading its default is drawn from. *)
Definition NegotiationSession_new (g : GameSpec) (sid : option string)
    (now : Q) : result NegotiationSession :=
  let stamp := pretty (Z.quot (Qnum now) (Zpos (Qden now))) in
  let id := match sid with
            | Some s => if String.eqb s "" then stamp else s
            | None => stamp
            end in
  o <-- create_initial_offer g ;;
  Ok (mkSession g id NOT_STARTED o FormalAcceptance_init [] None None None None).

Definition is_active (s : NegotiationSession) : bool :=
  match _state s with IN_PROGRESS => true | _ => false end.

(** Field assignments. *)
Definition set_state (st : SessionState) (s : NegotiationSession) :=
  mkSession (game s) (session_id s) st (_current_offer s) (_acceptance s)
    (_history s) (_start_time s) (_end_time s)
    (_last_human_offer s) (_last_agent_offer s).
Definition set_current_offer (o : Offer) (s : NegotiationSession) :=
  mkSession (game s) (session_id s) (_state s) o (_acceptance s)
    (_history s) (_start_time s) (_end_time s)
    (_last_human_offer s) (_last_agent_offer s).
Definition set_acceptance (a : FormalAcceptance) (s : NegotiationSession) :=
  mkSession (game s) (session_id s) (_state s) (_current_offer s) a
    (_history s) (_start_time s) (_end_time s)
    (_last_human_offer s) (_last_agent_offer s).
Definition set_start_time (t : option Q) (s : NegotiationSession) :=
  mkSession (game s) (session_id s) (_state s) (_current_offer s)
    (_acceptance s) (_history s) t (_end_time s)
    (_last_human_offer s) (_last_agent_offer s).
Definition set_end_time (t : option Q) (s : NegotiationSession) :=
  mkSession (game s) (session_id s) (_state s) (_current_offer s)
    (_acceptance s) (_history s) (_start_time s) t
    (_last_human_offer s) (_last_agent_offer s).
Definition set_last_human_offer (o : option Offer) (s : NegotiationSession) :=
  mkSession (game s) (session_id s) (_state s) (_current_offer s)
    (_acceptance s) (_history s) (_start_time s) (_end_time s)
    o (_last_agent_offer s).
Definition set_last_agent_offer (o : option Offer) (s : NegotiationSession) :=
  mkSession (game s) (session_id s) (_state s) (_current_offer s)
    (_acceptance s) (_history s) (_start_time s) (_end_time s)
    (_last_human_offer s) o.

(** [NegotiationHistory.add] *)
Definition history_add (e : Event) (s : NegotiationSession) :=
  mkSession (game s) (session_id s) (_state s) (_current_offer s)
    (_acceptance s) (_history s ++ [e]) (_start_time s) (_end_time s)
    (_last_human_offer s) (_last_agent_offer s).

(** [NegotiationSession.start]; the clock is read for [_start_time] and
    again for the event's timestamp. *)
Definition start (eid : string) (now now' : Q) (s : NegotiationSession)
    : result (Event * NegotiationSession) :=
  match _state s with
  | NOT_STARTED =>
      let s1 := set_start_time (Some now) (set_state IN_PROGRESS s) in
      let event := game_start eid now' (game_name (game s)) 0 in
      Ok (event, history_add event s1)
  | _ => Raise (RuntimeError "Cannot start session")
  end.

(** [_complete_negotiation]: [reason] is whatever the caller passes. *)
Definition is_str (v : pyval) (s : string) : bool :=
  match v with PStr s' => String.eqb s' s | _ => false end.

Definition _complete_negotiation (now : Q) (reason : pyval)
    (s : NegotiationSession) : NegotiationSession :=
  let st := if is_str reason "timeout" then TIMED_OUT
            else if is_str reason "cancelled" then CANCELLED
            else COMPLETED in
  set_end_time (Some now) (set_state st s).

(** The handlers return the new session together with the lines they
    print. *)
Definition _handle_offer (event : Event) (s : NegotiationSession)
    : result (NegotiationSession * list string) :=
  let offer_dict := get_offer event in
  if truthy offer_dict then
    data <-- match offer_dict with
             | PDict d => Ok d
             | _ => Raise (AttributeError "object has no attribute 'items'")
             end ;;
    offer <-- Offer_from_dict data ;;
    let '(is_valid, error) := validate_offer (game s) offer in
    if negb is_valid then Ok (s, ["Invalid offer: " +:+ error])
    else
      let s1 := set_current_offer offer s in
      let s2 := if String.eqb (sender_id event) HUMAN_ID
                then set_last_human_offer (Some offer) s1
                else set_last_agent_offer (Some offer) s1 in
      Ok (set_acceptance (reset (_acceptance s2)) s2, [])
  else Ok (s, []).

Definition _handle_formal_accept (now : Q) (event : Event)
    (s : NegotiationSession) : NegotiationSession * list string :=
  if negb (Offer_is_complete (_current_offer s))
  then (s, ["Cannot formally accept incomplete offer"])
  else
    let a := _acceptance s in
    let a1 := if String.eqb (sender_id event) HUMAN_ID
              then mkFormalAcceptance true (agent_accepted a)
                     (Some (timestamp event)) (agent_accepted_at a)
              else mkFormalAcceptance (human_accepted a) true
                     (human_accepted_at a) (Some (timestamp event)) in
    let s1 := set_acceptance a1 s in
    if both_accepted (_acceptance s1)
    then (_complete_negotiation now (PStr "mutual_agreement") s1, [])
    else (s1, []).

Definition _handle_game_end (now : Q) (event : Event)
    (s : NegotiationSession) : NegotiationSession :=
  let reason := dict_get_default (payload event) "reason" (PStr "unknown") in
  _complete_negotiation now reason s.

(** What one call of [apply_event] leaves behind: the session, the lines
    printed, and the exception if one escaped. *)
Record outcome : Type := mkOutcome {
  session : NegotiationSession;
  printed : list string;
  raised : option exn
}.

(** [NegotiationSession.apply_event]; [now] is the clock reading used if
    the event completes the negotiation. *)
Definition apply_event (now : Q) (event : Event) (s : NegotiationSession)
    : outcome :=
  if negb (is_active s)
     && negb (match event_type event with
              | GAME_START | TIME => true
              | _ => false
              end)
  then mkOutcome s [] None
  else
    let s1 := history_add event s in
    match event_type event with
    | SEND_OFFER =>
        match _handle_offer event s1 with
        | Ok (s2, out) => mkOutcome s2 out None
        | Raise e => mkOutcome s1 [] (Some e)
        end
    | FORMAL_ACCEPT =>
        let '(s2, out) := _handle_formal_accept now event s1 in
        mkOutcome s2 out None
    | GAME_END => mkOutcome (_handle_game_end now event s1) [] None
    | _ => mkOutcome s1 [] None
    end.

(** Feeding a sequence of events, each with the clock reading at its
    arrival; an escaping exception does not stop later calls. *)
Fixpoint apply_events (evs : list (Q * Event)) (s : NegotiationSession)
    : NegotiationSession :=
  match evs with
  | [] => s
  | (now, e) :: rest => apply_events rest (session (apply_event now e s))
  end.

(** [can_formally_accept] *)
Definition can_formally_accept (s : NegotiationSession) : bool :=
  is_active s && Offer_is_complete (_current_offer s).

(** [NegotiationHistory] queries, on the list of events. *)
Definition EventType_is (t : EventType) (e : Event) : bool :=
  String.eqb (EventType_value (event_type e)) (EventType_value t).

Definition get_by_type (t : EventType) (events : list Event) : list Event :=
  List.filter (EventType_is t) events.

Definition get_by_sender (sender : string) (events : list Event)
    : list Event :=
  List.filter (fun e => String.eqb (sender_id e) sender) events.

Definition get_last_offer (events : list Event) : option Event :=
  last (get_by_type SEND_OFFER events).

Definition get_last_human_offer (events : list Event) : option Event :=
  last (List.filter (fun e => EventType_is SEND_OFFER e
                              && String.eqb (sender_id e) HUMAN_ID) events).

Definition get_last_agent_offer (events : list Event) : option Event :=
  last (List.filter (fun e => EventType_is SEND_OFFER e
                              && String.eqb (sender_id e) AGENT_ID) events).

Definition get_offer_count (events : list Event) : nat :=
  length (get_by_type SEND_OFFER events).

(** [get_elapsed_time]; [now] is the clock reading. A stored end time of
    [0.0] is falsy, so [self._end_time or time.time()] reads the clock. *)
Definition get_elapsed_time (now : Q) (s : NegotiationSession) : Q :=
  match _start_time s with
  | None => 0%Q
  | Some started =>
      let finish := match _end_time s with
                    | Some t => if Qeq_bool t 0 then now else t
                    | None => now
                    end in
      (finish - started)%Q
  end.

(** [get_remaining_time]: [max(0, deadline - elapsed)] *)
Definition get_remaining_time (now : Q) (s : NegotiationSession) : option Q :=
  match deadline_seconds (rules (game s)) with
  | None => None
  | Some deadline =>
      let left := (inject_Z deadline - get_elapsed_time now s)%Q in
      Some (if Qltb 0 left then left else 0%Q)
  end.

(** [is_timed_out] *)
Definition is_timed_out (now : Q) (s : NegotiationSession) : bool :=
  match get_remaining_time now s with
  | Some remaining => Qle_bool remaining 0
  | None => false
  end.

End Session.

(** ** agents/negochat/negochat_core.py *)
Module NegoChat.
Import Models.

Inductive StackStrategy : Type := AGGRESSIVE | BALANCED | COOPERATIVE.

Record IssueAnalysis : Type := mkIssueAnalysis {
  issue_name : string;
  agent_value : Q;
  opponent_value : Q;
  quantity : Z
}.

Definition value_difference (a : IssueAnalysis) : Q :=
  (agent_value a - opponent_value a)%Q.

Record NegotiationStacks : Type := mkStacks {
  stack_a : list string;
  stack_b : list string;
  neutral : list string;
  a_index : Z;
  b_index : Z
}.

Record NegoChatCore : Type := mkCore {
  game : GameSpec;
  agent_utility : UtilityFunction;
  opponent_utility : UtilityFunction;
  strategy : StackStrategy;
  min_acceptable_utility : Q;
  concession_rate : Q;
  stacks : NegotiationStacks;
  _current_proposal : option Offer;
  _last_opponent_offer : option Offer;
  _concession_count : Z;
  _offers_made : Z
}.

(** [list.sort(key=..., reverse=...)] is a stable sort: elements with
    equal keys keep their order, also under [reverse=True]. The result of
    a stable sort is unique, so insertion sort stands for it. *)
Section Sort.
Context {A : Type} (key : A -> Q) (reverse : bool).

(** [x] stood left of all of [l]; it moves right past the elements that
    must come strictly before it. *)
Fixpoint sort_insert (x : A) (l : list A) : list A :=
  match l with
  | [] => [x]
  | y :: rest =>
      if (if reverse then Qltb (key x) (key y) else Qltb (key y) (key x))
      then y :: sort_insert x rest
      else x :: l
  end.

Definition list_sort (l : list A) : list A := foldr sort_insert [] l.
End Sort.

(** The loop of [_build_stacks] that distributes the sorted analyses. *)
Fixpoint distribute (analyses : list IssueAnalysis) (st : NegotiationStacks)
    : NegotiationStacks :=
  match analyses with
  | [] => st
  | analysis :: rest =>
      let st' :=
        if Qltb 0 (value_difference analysis)
        then mkStacks (stack_a st ++ [issue_name analysis]) (stack_b st)
               (neutral st) (a_index st) (b_index st)
        else if Qltb (value_difference analysis) 0
        then mkStacks (stack_a st) (stack_b st ++ [issue_name analysis])
               (neutral st) (a_index st) (b_index st)
        else mkStacks (stack_a st) (stack_b st)
               (neutral st ++ [issue_name analysis]) (a_index st) (b_index st)
      in distribute rest st'
  end.

Definition analyse (au ou : UtilityFunction) (issue : Issue) : IssueAnalysis :=
  mkIssueAnalysis (name issue) (values_get au (name issue))
    (values_get ou (name issue)) (Models.quantity issue).

(** [NegoChatCore._build_stacks] *)
Definition _build_stacks (g : GameSpec) (au ou : UtilityFunction)
    (strat : StackStrategy) : NegotiationStacks :=
  let analyses := map (analyse au ou) (issues g) in
  let analyses := list_sort value_difference true analyses in
  let st := distribute analyses (mkStacks [] [] [] 0 0) in
  match strat with
  | AGGRESSIVE =>
      mkStacks (list_sort (values_get au) true (stack_a st))
               (list_sort (values_get au) true (stack_b st))
               (neutral st) (a_index st) (b_index st)
  | COOPERATIVE =>
      mkStacks (stack_a st)
               (list_sort (values_get ou) false (stack_b st))
               (neutral st) (a_index st) (b_index st)
  | BALANCED => st
  end.

(** [NegoChatCore.__init__] *)
Definition NegoChatCore_new (g : GameSpec) (au ou : UtilityFunction)
    (strat : StackStrategy) (min_acceptable rate : Q) : NegoChatCore :=
  mkCore g au ou strat min_acceptable rate (_build_stacks g au ou strat)
    None None 0 0.

Definition set_proposal (o : Offer) (concessions offers : Z)
    (c : NegoChatCore) : NegoChatCore :=
  mkCore (game c) (agent_utility c) (opponent_utility c) (strategy c)
    (min_acceptable_utility c) (concession_rate c) (stacks c)
    (Some o) (_last_opponent_offer c)
    (_concession_count c + concessions) (_offers_made c + offers).

(** The loop of [get_opening_offer] over [self.game.issues]. *)
Fixpoint opening_allocations (c : NegoChatCore) (l : list Issue)
    (offer : Offer) : result Offer :=
  match l with
  | [] => Ok offer
  | issue :: rest =>
      a <-- (if bool_decide (name issue ∈ stack_a (stacks c))
             then all_to_agent (Models.quantity issue)
             else if bool_decide (name issue ∈ stack_b (stacks c))
             then match strategy c with
                  | COOPERATIVE => all_to_human (Models.quantity issue)
                  | _ => split_even (Models.quantity issue)
                  end
             else split_even (Models.quantity issue)) ;;
      opening_allocations c rest (Offer_setitem offer (name issue) (Some a))
  end.

(** [NegoChatCore.get_opening_offer] *)
Definition get_opening_offer (c : NegoChatCore)
    : result (Offer * NegoChatCore) :=
  offer <-- opening_allocations c (issues (game c)) Offer_empty_dict ;;
  Ok (offer, set_proposal offer 0 1 c).

Definition give_from_agent (current : Allocation) : result Allocation :=
  Allocation_new (agent current - 1) (middle current) (human current + 1).

Definition give_from_middle (current : Allocation) : result Allocation :=
  Allocation_new (agent current) (middle current - 1) (human current + 1).

(** First loop of [_make_concession], over [stack_b]: [Some] is the offer
    after the change that ended the loop with [break], [None] means the
    loop ran to its end with [made_change] still false. *)
Fixpoint concede_stack_b (g : GameSpec) (names : list string) (offer : Offer)
    : result (option Offer) :=
  match names with
  | [] => Ok None
  | issue_name :: rest =>
      match get_issue g issue_name with
      | None => concede_stack_b g rest offer
      | Some _ =>
          match Offer_getitem offer issue_name with
          | None => concede_stack_b g rest offer
          | Some current =>
              if 0 <? agent current then
                a <-- give_from_agent current ;;
                Ok (Some (Offer_setitem offer issue_name (Some a)))
              else if 0 <? middle current then
                a <-- give_from_middle current ;;
                Ok (Some (Offer_setitem offer issue_name (Some a)))
              else concede_stack_b g rest offer
          end
      end
  end.

(** Second and third loop (their bodies are the same), over [neutral] and
    over [reversed(stack_a)]: only a unit on the agent's side is given. *)
Fixpoint concede_agent_unit (g : GameSpec) (names : list string)
    (offer : Offer) : result (option Offer) :=
  match names with
  | [] => Ok None
  | issue_name :: rest =>
      match get_issue g issue_name with
      | None => concede_agent_unit g rest offer
      | Some _ =>
          match Offer_getitem offer issue_name with
          | None => concede_agent_unit g rest offer
          | Some current =>
              if 0 <? agent current then
                a <-- give_from_agent current ;;
                Ok (Some (Offer_setitem offer issue_name (Some a)))
              else concede_agent_unit g rest offer
          end
      end
  end.

(** [NegoChatCore._make_concession] *)
Definition _make_concession (c : NegoChatCore)
    : result (option Offer * NegoChatCore) :=
  match _current_proposal c with
  | None =>
      r <-- get_opening_offer c ;;
      Ok (Some r.1, r.2)
  | Some proposal =>
      offer <-- Offer_copy proposal ;;
      from_b <-- concede_stack_b (game c) (stack_b (stacks c)) offer ;;
      from_neutral <-- match from_b with
                       | Some o => Ok (Some o)
                       | None => concede_agent_unit (game c)
                                   (neutral (stacks c)) offer
                       end ;;
      from_a <-- match from_neutral with
                 | Some o => Ok (Some o)
                 | None => concede_agent_unit (game c)
                             (rev (stack_a (stacks c))) offer
                 end ;;
      match from_a with
      | Some o => Ok (Some o, set_proposal o 1 1 c)
      | None => Ok (None, c)
      end
  end.

(** [NegoChatCore.get_next_offer] (the context argument is not read). *)
Definition get_next_offer (c : NegoChatCore)
    : result (option Offer * NegoChatCore) :=
  if _offers_made c =? 0
  then r <-- get_opening_offer c ;; Ok (Some r.1, r.2)
  else _make_concession c.





(** [NegoChatCore.reset] *)
Definition reset (c : NegoChatCore) : NegoChatCore :=
  mkCore (game c) (agent_utility c) (opponent_utility c) (strategy c)
    (min_acceptable_utility c) (concession_rate c)
    (_build_stacks (game c) (agent_utility c) (opponent_utility c)
       (strategy c))
    None None 0 0.

End NegoChat.

(** ** core/bus.py *)
Module Bus.
Import Events.

(** *** Equality of Python values ([==]) *)

Definition as_number (v : pyval) : option Q :=
  match v with
  | PBool b => Some (if b then 1%Q else 0%Q)
  | PInt z => Some (inject_Z z)
  | PFloat q => Some q
  | _ => None
  end.

Fixpoint pyval_eqb (a b : pyval) {struct a} : bool :=
  let fix items_eqb (l m : list pyval) {struct l} : bool :=
    match l, m with
    | [], [] => true
    | x :: l', y :: m' => pyval_eqb x y && items_eqb l' m'
    | _, _ => false
    end in
  let fix entries_in (d : list (string * pyval)) (d2 : pydict) {struct d}
      : bool :=
    match d with
    | [] => true
    | (k, v) :: d' =>
        match dict_lookup d2 k with
        | Some v' => pyval_eqb v v'
        | None => false
        end && entries_in d' d2
    end in
  match a, b with
  | PNone, PNone => true
  | PStr s, PStr t => String.eqb s t
  | PList l, PList m => items_eqb l m
  | PTuple l, PTuple m => items_eqb l m
  | PDict d, PDict d2 =>
      Nat.eqb (length d) (length d2) && entries_in d d2
  | (PBool _ | PInt _ | PFloat _), (PBool _ | PInt _ | PFloat _) =>
      match as_number a, as_number b with
      | Some x, Some y => Qeq_bool x y
      | _, _ => false
      end
  | _, _ => false
  end.

Definition EventType_eqb (x y : EventType) : bool :=
  String.eqb (EventType_value x) (EventType_value y).

Definition subtype_eqb (x y : option MessageSubtype) : bool :=
  match x, y with
  | Some a, Some b =>
      String.eqb (MessageSubtype_value a) (MessageSubtype_value b)
  | None, None => true
  | _, _ => false
  end.

(** The [__eq__] that [@dataclass] generates for [Event]: the tuples of
    fields are compared. No ordering method is generated. *)
Definition Event_eqb (x y : Event) : bool :=
  EventType_eqb (event_type x) (event_type y)
  && String.eqb (sender_id x) (sender_id y)
  && pyval_eqb (PDict (payload x)) (PDict (payload y))
  && (delay_ms x =? delay_ms y)
  && String.eqb (event_id x) (event_id y)
  && Qeq_bool (timestamp x) (timestamp y)
  && subtype_eqb (subtype x) (subtype y).

(** *** The delay queue

    [queue.PriorityQueue] keeps its items in a list ordered as a binary
    heap by the standard library's [heapq]; the items here are the tuples
    [(execute_at, event)]. *)
Definition item : Type := Q * Event.

(** [x < y] on such tuples: the first components that differ decide; for
    two events that are not equal, [<] is not defined. *)
Definition item_lt (x y : item) : result bool :=
  if negb (Qeq_bool x.1 y.1) then Ok (Qltb x.1 y.1)
  else if negb (Event_eqb x.2 y.2)
  then Raise (TypeError
         "'<' not supported between instances of 'Event' and 'Event'")
  else Ok false.

Definition heap_index (heap : list item) (i : nat) : result item :=
  match heap !! i with
  | Some x => Ok x
  | None => Raise (IndexError "list index out of range")
  end.

(** [heapq._siftdown(heap, startpos, pos)]; [pos] halves in every turn of
    the loop, so [pos] turns are enough. *)
Fixpoint _siftdown_loop (fuel : nat) (heap : list item) (startpos pos : nat)
    (newitem : item) : result (list item) :=
  match fuel with
  | O => Ok (<[pos := newitem]> heap)
  | S fuel' =>
      if (startpos <? pos)%nat then
        let parentpos := ((pos - 1) / 2)%nat in
        parent <-- heap_index heap parentpos ;;
        lt <-- item_lt newitem parent ;;
        if lt
        then _siftdown_loop fuel' (<[pos := parent]> heap) startpos
               parentpos newitem
        else Ok (<[pos := newitem]> heap)
      else Ok (<[pos := newitem]> heap)
  end.

Definition _siftdown (heap : list item) (startpos pos : nat)
    : result (list item) :=
  newitem <-- heap_index heap pos ;;
  _siftdown_loop pos heap startpos pos newitem.

(** [heapq.heappush] *)
Definition heappush (heap : list item) (x : item) : result (list item) :=
  let heap := heap ++ [x] in
  _siftdown heap 0 (length heap - 1).

(** [heapq._siftup(heap, pos)]: the smaller child is moved up until a leaf
    is reached; [childpos] grows in every turn and stays below
    [endpos]. *)
Fixpoint _siftup_loop (fuel : nat) (heap : list item) (endpos pos : nat)
    : result (list item * nat) :=
  let childpos := (2 * pos + 1)%nat in
  match fuel with
  | O => Ok (heap, pos)
  | S fuel' =>
      if (childpos <? endpos)%nat then
        let rightpos := (childpos + 1)%nat in
        childpos <-- (if (rightpos <? endpos)%nat
                      then l <-- heap_index heap childpos ;;
                           r <-- heap_index heap rightpos ;;
                           lt <-- item_lt l r ;;
                           Ok (if negb lt then rightpos else childpos)
                      else Ok childpos) ;;
        child <-- heap_index heap childpos ;;
        _siftup_loop fuel' (<[pos := child]> heap) endpos childpos
      else Ok (heap, pos)
  end.

Definition _siftup (heap : list item) (pos : nat) : result (list item) :=
  let endpos := length heap in
  let startpos := pos in
  newitem <-- heap_index heap pos ;;
  r <-- _siftup_loop endpos heap endpos pos ;;
  let heap := <[r.2 := newitem]> r.1 in
  _siftdown heap startpos r.2.

(** [heapq.heappop] *)
Definition heappop (heap : list item) : result (item * list item) :=
  match last heap with
  | None => Raise (IndexError "pop from empty list")
  | Some lastelt =>
      let heap := removelast heap in
      match heap with
      | returnitem :: _ =>
          heap <-- _siftup (<[0%nat := lastelt]> heap) 0 ;;
          Ok (returnitem, heap)
      | [] => Ok (lastelt, heap)
      end
  end.

(** [PriorityQueue.put], [get_nowait] and [empty] (the queue is
    unbounded, so [put] never blocks). *)
Definition put (queue : list item) (x : item) : result (list item) :=
  heappush queue x.

Definition get_nowait (queue : list item) : result (item * list item) :=
  match queue with
  | [] => Raise QueueEmpty
  | _ => heappop queue
  end.

Definition empty (queue : list item) : bool :=
  match queue with [] => true | _ => false end.

Section EventBus.
(** Whatever the subscribers act on. A handler returns the state it
    leaves and the exception it raised, if any. *)
Context {World : Type}.

Definition EventHandler : Type := Event -> World -> World * option exn.

Record Subscription : Type := mkSubscription {
  handler : EventHandler;
  event_types : option (list EventType);
  subscriber_id : string
}.

(** The bus, together with the world of its subscribers and the lines
    printed so far. *)
Record EventBus : Type := mkEventBus {
  _subscriptions : list Subscription;
  _delayed_queue : list item;
  world : World;
  stdout : list string
}.

Definition EventBus_new (w : World) : EventBus := mkEventBus [] [] w [].

Definition without (id : string) (subs : list Subscription)
    : list Subscription :=
  List.filter (fun s => negb (String.eqb (subscriber_id s) id)) subs.

Definition subscribe (h : EventHandler) (id : string)
    (types : option (list EventType)) (bus : EventBus) : EventBus :=
  mkEventBus (without id (_subscriptions bus) ++ [mkSubscription h types id])
             (_delayed_queue bus) (world bus) (stdout bus).

Definition unsubscribe (id : string) (bus : EventBus) : EventBus :=
  mkEventBus (without id (_subscriptions bus)) (_delayed_queue bus)
             (world bus) (stdout bus).

Definition wants (sub : Subscription) (event : Event) : bool :=
  match event_types sub with
  | None => true
  | Some types => existsb (EventType_eqb (event_type event)) types
  end.

(** The loop of [_dispatch]: every matching handler runs; a handler's
    exception is printed and swallowed. *)
Fixpoint dispatch_to (subs : list Subscription) (event : Event)
    (w : World) (out : list string) : World * list string :=
  match subs with
  | [] => (w, out)
  | sub :: rest =>
      if wants sub event then
        match handler sub event w with
        | (w', None) => dispatch_to rest event w' out
        | (w', Some e) =>
            dispatch_to rest event w'
              (out ++ ["Error in event handler " +:+ subscriber_id sub
                       +:+ ": " +:+ exn_str e])
        end
      else dispatch_to rest event w out
  end.

Definition _dispatch (event : Event) (bus : EventBus) : EventBus :=
  let r := dispatch_to (_subscriptions bus) event (world bus) (stdout bus) in
  mkEventBus (_subscriptions bus) (_delayed_queue bus) r.1 r.2.

Definition set_queue (q : list item) (bus : EventBus) : EventBus :=
  mkEventBus (_subscriptions bus) q (world bus) (stdout bus).

(** [_queue_delayed]; [now] is the reading of [time.time()]. *)
Definition _queue_delayed (now : Q) (event : Event) (bus : EventBus)
    : result EventBus :=
  let execute_at := (now + inject_Z (delay_ms event) / 1000)%Q in
  q <-- put (_delayed_queue bus) (execute_at, event) ;;
  Ok (set_queue q bus).

(** [publish] *)
Definition publish (now : Q) (event : Event) (bus : EventBus)
    : result EventBus :=
  if 0 <? delay_ms event
  then _queue_delayed now event bus
  else Ok (_dispatch event bus).

(** [publish_all]; each call reads the clock anew. *)
Fixpoint publish_all (events : list (Q * Event)) (bus : EventBus)
    : result EventBus :=
  match events with
  | [] => Ok bus
  | (now, event) :: rest =>
      bus' <-- publish now event bus ;;
      publish_all rest bus'
  end.

(** The [while] loop of [process_delayed_events]: every turn takes one
    item off the queue, so the length of the queue bounds the turns. *)
Fixpoint process_loop (fuel : nat) (now : Q) (bus : EventBus)
    (dispatched : list Event) : result (list Event * EventBus) :=
  match fuel with
  | O => Ok (dispatched, bus)
  | S fuel' =>
      if empty (_delayed_queue bus) then Ok (dispatched, bus)
      else
        match get_nowait (_delayed_queue bus) with
        | Raise QueueEmpty => Ok (dispatched, bus)
        | Raise e => Raise e
        | Ok ((execute_at, event), q) =>
            let bus' := set_queue q bus in
            if Qle_bool execute_at now then
              process_loop fuel' now (_dispatch event bus')
                (dispatched ++ [event])
            else
              q' <-- put q (execute_at, event) ;;
              Ok (dispatched, set_queue q' bus')
        end
  end.

(** [process_delayed_events]; [now] is read once, before the loop. The
    result is the list of events dispatched, with the bus as it is left. *)
Definition process_delayed_events (now : Q) (bus : EventBus)
    : result (list Event * EventBus) :=
  process_loop (length (_delayed_queue bus)) now bus [].

End EventBus.
Arguments EventHandler : clear implicits.
Arguments Subscription : clear implicits.
Arguments EventBus : clear implicits.

End Bus.

(** ** domain/games/multi_issue.py *)
Module Games.
Import Models.

(** [MultiIssueBargainingGame.create_classic_resource_game] *)
Definition classic_issues : list Issue :=
  [mkIssue "apples" "Apples" 4 false;
   mkIssue "oranges" "Oranges" 3 false;
   mkIssue "bananas" "Bananas" 2 false].

Definition classic_agent_utility : UtilityFunction :=
  mkUtilityFunction AGENT
    (list_to_map [("apples", 10%Q); ("oranges", 6%Q); ("bananas", 2%Q)]).

Definition classic_human_utility : UtilityFunction :=
  mkUtilityFunction HUMAN
    (list_to_map [("apples", 2%Q); ("oranges", 6%Q); ("bananas", 10%Q)]).

Definition classic_resource_game : GameSpec :=
  mkGameSpec "classic_resource"
    "Divide fruits between two parties. Each party values items differently."
    classic_issues classic_agent_utility classic_human_utility
    (mkProtocolRules (Some 300) true true 5000).

End Games.

(** ** core/scheduler.py *)
Module Scheduler.

Section Scheduler.
(** Whatever the scheduled callables act on. A callable takes no argument;
    it returns the state it leaves and the exception it raised, if any. *)
Context {World : Type}.

Definition Callback : Type := World -> World * option exn.

Record ScheduledAction : Type := mkScheduledAction {
  execute_at : Q;
  action : Callback;
  action_id : string;
  repeat_interval : option Q
}.

(** The scheduler's deadline, start time and action list, together with
    the world of the callables and the lines printed so far. (The thread,
    the tick interval and the two callbacks play no part in the functions
    below.) *)
Record Scheduler : Type := mkScheduler {
  _deadline : option Z;
  _start_time : option Q;
  _actions : list ScheduledAction;
  world : World;
  stdout : list string
}.

Definition Scheduler_new (deadline_seconds : option Z) (w : World)
    : Scheduler :=
  mkScheduler deadline_seconds None [] w [].

Definition set_actions (l : list ScheduledAction) (s : Scheduler)
    : Scheduler :=
  mkScheduler (_deadline s) (_start_time s) l (world s) (stdout s).

(** [reset]; [now] is the reading of [time.time()]. *)
Definition reset (now : Q) (s : Scheduler) : Scheduler :=
  mkScheduler (_deadline s) (Some now) [] (world s) (stdout s).

Definition set_deadline (seconds : option Z) (s : Scheduler) : Scheduler :=
  mkScheduler seconds (_start_time s) (_actions s) (world s) (stdout s).

(** [get_elapsed], [get_remaining] and [is_timed_out] *)
Definition get_elapsed (now : Q) (s : Scheduler) : Q :=
  match _start_time s with
  | None => 0%Q
  | Some start => (now - start)%Q
  end.

Definition get_remaining (now : Q) (s : Scheduler) : option Q :=
  match _deadline s with
  | None => None
  | Some deadline =>
      let left := (inject_Z deadline - get_elapsed now s)%Q in
      Some (if Qltb 0 left then left else 0%Q)
  end.

Definition is_timed_out (now : Q) (s : Scheduler) : bool :=
  match get_remaining now s with
  | Some remaining => Qle_bool remaining 0
  | None => false
  end.

(** [schedule_action]. The clock is read twice: [stamp] is the first
    reading as the f-string prints it, used only when no identifier (or an
    empty one) is given; [now] is the second reading. The new action is
    appended and the list sorted by [execute_at] alone. *)
Definition schedule_action (stamp : string) (now : Q) (delay_ms : Z)
    (act : Callback) (id : option string) (s : Scheduler)
    : string * Scheduler :=
  let scheduled :=
    mkScheduledAction
      (now + inject_Z delay_ms / 1000)%Q
      act
      match id with
      | Some i => if String.eqb i "" then "action_" +:+ stamp else i
      | None => "action_" +:+ stamp
      end
      None in
  (action_id scheduled,
   set_actions (NegoChat.list_sort execute_at false (_actions s ++ [scheduled]))
               s).

(** [cancel_action] *)
Definition cancel_action (id : string) (s : Scheduler) : bool * Scheduler :=
  let original_len := length (_actions s) in
  let kept :=
    List.filter (fun a => negb (String.eqb (action_id a) id)) (_actions s) in
  ((length kept <? original_len)%nat, set_actions kept s).

(** [cancel_all_actions] *)
Definition cancel_all_actions (s : Scheduler) : Z * Scheduler :=
  (Z.of_nat (length (_actions s)), set_actions [] s).

(** The [while] loop of [_process_actions]: actions are popped off the
    front for as long as the first one is due. *)
Fixpoint pop_due (now : Q) (actions : list ScheduledAction)
    : list ScheduledAction * list ScheduledAction :=
  match actions with
  | [] => ([], [])
  | a :: rest =>
      if Qle_bool (execute_at a) now
      then let r := pop_due now rest in (a :: r.1, r.2)
      else ([], actions)
  end.

(** The [for] loop of [_process_actions]: an action's exception is printed
    and swallowed. *)
Fixpoint run_actions (actions_to_run : list ScheduledAction) (w : World)
    (out : list string) : World * list string :=
  match actions_to_run with
  | [] => (w, out)
  | a :: rest =>
      match action a w with
      | (w', None) => run_actions rest w' out
      | (w', Some e) =>
          run_actions rest w'
            (out ++ ["Error executing scheduled action " +:+ action_id a
                     +:+ ": " +:+ exn_str e])
      end
  end.

Definition _process_actions (now : Q) (s : Scheduler) : Scheduler :=
  let r := pop_due now (_actions s) in
  let ran := run_actions r.1 (world s) (stdout s) in
  mkScheduler (_deadline s) (_start_time s) r.2 ran.1 ran.2.

End Scheduler.
Arguments Callback : clear implicits.
Arguments ScheduledAction : clear implicits.
Arguments Scheduler : clear implicits.

End Scheduler.

(** ** agent_api/actions.py *)
Module Actions.
Import Models Events.

Inductive Action : Type :=
| SendMessage (text : string) (subtype : MessageSubtype)
    (preference : option Preference) (delay : Z)
| SendOffer (offer : Offer) (delay : Z)
| SendExpression (expression : Expression) (duration_ms delay : Z)
| Schedule (delay : Z) (action : Action)
| FormalAccept (delay : Z)
| FormalReject (reason : string) (delay : Z)
| ShowTyping (duration_ms : option Z).

(** The loop of [chain_actions], with its running [current_delay]. *)
Fixpoint chain_loop (actions : list Action) (current_delay gap_ms : Z)
    (result : list Action) : list Action :=
  match actions with
  | [] => result
  | action :: rest =>
      let result :=
        if 0 <? current_delay
        then result ++ [Schedule current_delay action]
        else result ++ [action] in
      chain_loop rest (current_delay + gap_ms) gap_ms result
  end.

Definition chain_actions (actions : list Action) (base_delay_ms gap_ms : Z)
    : list Action :=
  chain_loop actions base_delay_ms gap_ms [].

End Actions.

(** ** agent_api/context.py *)
Module Context.
Import Models Events Session.

Record AgentContext : Type := mkAgentContext {
  game : GameSpec;
  agent_utility : UtilityFunction;
  opponent_utility : UtilityFunction;
  current_offer : Offer;
  history : list Event;
  elapsed_seconds : Q;
  remaining_seconds : option Q;
  human_has_accepted : bool;
  agent_has_accepted : bool;
  session_id : string;
  game_index : Z
}.

(** [offer or self.current_offer]: an [Offer] defines neither [__bool__]
    nor [__len__], so only [None] is replaced. *)
Definition offer_or_current (ctx : AgentContext) (offer : option Offer)
    : Offer :=
  default (current_offer ctx) offer.

Definition get_agent_utility (ctx : AgentContext) (offer : option Offer)
    : Q :=
  calculate (agent_utility ctx) (offer_or_current ctx offer).


Definition get_max_agent_utility (ctx : AgentContext) : Q :=
  get_max_possible (agent_utility ctx) (issues (game ctx)).


Definition get_agent_utility_percent (ctx : AgentContext)
    (offer : option Offer) : Q :=
  let max_util := get_max_agent_utility ctx in
  if Qeq_bool max_util 0 then 0%Q
  else (get_agent_utility ctx offer / max_util * 100)%Q.


(** [is_offer_acceptable] *)
Definition is_offer_acceptable (ctx : AgentContext) (offer : option Offer)
    (min_utility_percent : Q) : bool :=
  Qle_bool min_utility_percent (get_agent_utility_percent ctx offer).

(** [is_offer_complete]: the loop over the game's issues with its early
    returns. *)
Fixpoint issues_complete (l : list Issue) (offer : Offer) : bool :=
  match l with
  | [] => true
  | issue :: rest =>
      match Offer_getitem offer (name issue) with
      | None => false
      | Some alloc =>
          if negb (Allocation_is_complete alloc) then false
          else issues_complete rest offer
      end
  end.

Definition is_offer_complete (ctx : AgentContext) (offer : option Offer)
    : bool :=
  issues_complete (issues (game ctx)) (offer_or_current ctx offer).

(** [can_formally_accept] of the context: every issue of the game must be
    addressed; undecided units are allowed. *)
Fixpoint issues_addressed (l : list Issue) (offer : Offer) : bool :=
  match l with
  | [] => true
  | issue :: rest =>
      match Offer_getitem offer (name issue) with
      | None => false
      | Some _ => issues_addressed rest offer
      end
  end.

Definition can_formally_accept (ctx : AgentContext) : bool :=
  issues_addressed (issues (game ctx)) (current_offer ctx).

(** [get_offer_count], [get_human_offer_count], [get_agent_offer_count] *)
Definition get_offer_count (ctx : AgentContext) : nat :=
  Session.get_offer_count (history ctx).

Definition get_human_offer_count (ctx : AgentContext) : nat :=
  length (List.filter (fun e => String.eqb (sender_id e) HUMAN_ID)
            (get_by_type SEND_OFFER (history ctx))).

Definition get_agent_offer_count (ctx : AgentContext) : nat :=
  length (List.filter (fun e => String.eqb (sender_id e) AGENT_ID)
            (get_by_type SEND_OFFER (history ctx))).

End Context.

(** ** Sample sessions *)
Module Examples.
Import Models Events Session Games.

Definition t0 : Q := 1700000000%Q.

(** The classic game's session as [NegotiationSession(game)] builds it and
    as [start()] leaves it. *)
Definition fresh_session : NegotiationSession :=
  mkSession classic_resource_game "1700000000" NOT_STARTED
    (mkOffer (list_to_map [("apples", Some (mkAllocation 0 4 0));
                           ("oranges", Some (mkAllocation 0 3 0));
                           ("bananas", Some (mkAllocation 0 2 0))]))
    FormalAcceptance_init [] None None None None.

Definition start_event : Event :=
  game_start "e0000000" t0 "classic_resource" 0.

Definition started_session : NegotiationSession :=
  history_add start_event
    (set_start_time (Some t0) (set_state IN_PROGRESS fresh_session)).

(** A complete and valid division, and one with a unit of apples missing. *)
Definition fair_offer_dict : pydict :=
  [("apples", PList [PInt 3; PInt 0; PInt 1]);
   ("oranges", PList [PInt 1; PInt 0; PInt 2]);
   ("bananas", PList [PInt 0; PInt 0; PInt 2])].

Definition short_offer_dict : pydict :=
  [("apples", PList [PInt 2; PInt 0; PInt 1])].

Definition human_offers : Event :=
  send_offer "e0000001" (t0 + 5)%Q HUMAN_ID (PDict fair_offer_dict) 0.
Definition human_accepts : Event :=
  formal_accept "e0000002" (t0 + 6)%Q HUMAN_ID 0.
Definition agent_accepts : Event :=
  formal_accept "e0000003" (t0 + 7)%Q AGENT_ID 0.
Definition agent_offers : Event :=
  send_offer "e0000004" (t0 + 8)%Q AGENT_ID (PDict fair_offer_dict) 0.
Definition human_offers_short : Event :=
  send_offer "e0000005" (t0 + 9)%Q HUMAN_ID (PDict short_offer_dict) 0.

Definition agreement_run : list (Q * Event) :=
  [((t0 + 5)%Q, human_offers); ((t0 + 6)%Q, human_accepts); ((t0 + 7)%Q, agent_accepts)].

(** The session after the human's offer and the human's formal accept. *)
Definition half_accepted_session : NegotiationSession :=
  apply_events [((t0 + 5)%Q, human_offers); ((t0 + 6)%Q, human_accepts)]
    started_session.

(** A game without issues: its initial offer has no allocations. *)
Definition no_issue_game : GameSpec :=
  mkGameSpec "nothing" "" [] (mkUtilityFunction AGENT ∅)
    (mkUtilityFunction HUMAN ∅) default_rules.

Definition no_issue_session : NegotiationSession :=
  mkSession no_issue_game "1700000000" IN_PROGRESS Offer_empty_dict
    FormalAcceptance_init [] (Some t0) None None None.

(** The agent's core for the classic game with the constructor's defaults
    (balanced strategy, 40% threshold), and the core after [k] calls of
    [_make_concession]. *)
Definition classic_core : NegoChat.NegoChatCore :=
  NegoChat.NegoChatCore_new classic_resource_game classic_agent_utility
    classic_human_utility NegoChat.BALANCED (4 # 10) (1 # 10).

Fixpoint concede_times (k : nat) (c : NegoChat.NegoChatCore)
    : result NegoChat.NegoChatCore :=
  match k with
  | O => Ok c
  | S k' => r <-- NegoChat._make_concession c ;; concede_times k' r.2
  end.

Definition opening_offer : Offer :=
  mkOffer (list_to_map [("apples", Some (mkAllocation 4 0 0));
                        ("oranges", Some (mkAllocation 1 1 1));
                        ("bananas", Some (mkAllocation 1 0 1))]).

Definition opened_core : NegoChat.NegoChatCore :=
  NegoChat.set_proposal opening_offer 0 1 classic_core.

(** Where the concessions from the opening offer end. *)
Definition last_offer : Offer :=
  mkOffer (list_to_map [("apples", Some (mkAllocation 0 0 4));
                        ("oranges", Some (mkAllocation 0 1 2));
                        ("bananas", Some (mkAllocation 0 0 2))]).

Definition exhausted_core : NegoChat.NegoChatCore :=
  NegoChat.set_proposal last_offer 6 7 classic_core.

(** A bus with one subscriber that notes the id of every event it is
    handed; the world is that list of ids. *)
Definition note_event : Bus.EventHandler (list string) :=
  fun event seen => (seen ++ [event_id event], None).

Definition listening_bus : Bus.EventBus (list string) :=
  Bus.subscribe note_event "log" None (Bus.EventBus_new []).

(** Delayed events: [event_a] is due 1 s after [t0]; [event_b] and
    [event_c] are both due 2 s after [t0], [event_c] being published half
    a second later with a delay half a second shorter; [event_d] is due
    3 s after [t0]. *)
Definition event_a : Event := formal_accept "aaaaaaaa" t0 AGENT_ID 1000.
Definition event_b : Event := formal_accept "bbbbbbbb" t0 AGENT_ID 2000.
Definition event_c : Event :=
  send_message "cccccccc" (t0 + (1 # 2))%Q AGENT_ID "ok" GENERIC None 1500.
Definition event_d : Event := formal_accept "dddddddd" t0 AGENT_ID 3000.

Definition publish_distinct : list (Q * Event) :=
  [(t0, event_d); (t0, event_a); (t0, event_b)].

Definition publish_tied : list (Q * Event) :=
  [(t0, event_a); (t0, event_b); ((t0 + (1 # 2))%Q, event_c)].

(** A handler that always raises, subscribed before the noting one. *)
Definition failing_handler : Bus.EventHandler (list string) :=
  fun event seen => (seen, Some (RuntimeError "boom")).

Definition bus_with_failing_handler : Bus.EventBus (list string) :=
  Bus.subscribe note_event "log" None
    (Bus.subscribe failing_handler "bad" None (Bus.EventBus_new [])).

(** The bus after the three delayed publications of [publish_distinct],
    and what [process_delayed_events] returns on it at a given time. *)
Definition queued_bus : Bus.EventBus (list string) :=
  match Bus.publish_all publish_distinct listening_bus with
  | Ok bus => bus
  | Raise _ => listening_bus
  end.

Definition processed_at (now : Q) : list Event * Bus.EventBus (list string) :=
  match Bus.process_delayed_events now queued_bus with
  | Ok r => r
  | Raise _ => ([], queued_bus)
  end.

Definition one_queued : Bus.EventBus (list string) :=
  match Bus.publish t0 event_a listening_bus with
  | Ok bus => bus
  | Raise _ => listening_bus
  end.

(** Scheduled callables: one notes its name, one raises. Two of them are
    scheduled for the same time, one second after [t0]. *)
Definition tick (n : string) : Scheduler.Callback (list string) :=
  fun seen => (seen ++ [n], None).

Definition raising_action : Scheduler.Callback (list string) :=
  fun seen => (seen, Some (RuntimeError "boom")).

Definition busy_scheduler : Scheduler.Scheduler (list string) :=
  (Scheduler.schedule_action "1700000000.0" t0 1000 (tick "second")
     (Some "second")
     (Scheduler.schedule_action "1700000000.0" t0 3000 (tick "last")
        (Some "last")
        (Scheduler.schedule_action "1700000000.0" t0 1000 raising_action
           (Some "first") (Scheduler.Scheduler_new None [])).2).2).2.

(** The context of the agent in the classic game once the opening offer
    is on the table. *)
Definition sample_context : Context.AgentContext :=
  Context.mkAgentContext classic_resource_game classic_agent_utility
    classic_human_utility opening_offer [] 8 (Some 292%Q) false false
    "1700000000" 0.

End Examples.

(** ** Notions used in the statements *)
Module Notions.
Import Models Events Session NegoChat.

(** Every allocation of the game's issues that the offer holds accounts
    for exactly the issue's quantity. *)
Definition present_sums_match (l : list Issue) (o : Offer) : Prop :=
  forall issue alloc,
    issue ∈ l ->
    Offer_getitem o (name issue) = Some alloc ->
    agent alloc + middle alloc + human alloc = Models.quantity issue.

(** Number of steps of a run in which the session enters [COMPLETED]
    from another state. *)
Definition is_completed (s : NegotiationSession) : bool :=
  match _state s with COMPLETED => true | _ => false end.

Fixpoint completions (evs : list (Q * Event)) (s : NegotiationSession) : nat :=
  match evs with
  | [] => 0
  | (now, e) :: rest =>
      let s' := session (apply_event now e s) in
      ((if negb (is_completed s) && is_completed s' then 1 else 0)
       + completions rest s')%nat
  end.

(** Sessions in which mutual acceptance has led to completion. *)
Definition accepted_is_completed (s : NegotiationSession) : Prop :=
  both_accepted (_acceptance s) = true -> _state s = COMPLETED.

(** [agent_value - opponent_value] of the issue called [n]. *)
Definition difference (au ou : UtilityFunction) (n : string) : Q :=
  (values_get au n - values_get ou n)%Q.

(** Counts as the [Allocation] constructor accepts them. *)
Definition nonneg (a : Allocation) : Prop :=
  0 <= agent a /\ 0 <= middle a /\ 0 <= human a.

Definition offer_counts_nonneg (o : Offer) : Prop :=
  forall n a, Offer_getitem o n = Some a -> nonneg a.

Definition offer_nonneg (o : Offer) : bool :=
  forallb (fun kv : string * option Allocation =>
             match kv.2 with
             | Some a => (0 <=? agent a) && (0 <=? middle a) && (0 <=? human a)
             | None => true
             end)
          (map_to_list (allocations o)).

(** Whether the loop body changes issue [n]: the issue exists, the offer
    addresses it, and the agent holds a unit of it or, in the [stack_b]
    loop only, a unit is undecided. *)
Definition can_give (g : GameSpec) (offer : Offer) (from_middle : bool)
    (n : string) : bool :=
  match get_issue g n, Offer_getitem offer n with
  | Some _, Some current =>
      (0 <? agent current) || (from_middle && (0 <? middle current))
  | _, _ => false
  end.

Definition one_unit_to_human (current : Allocation) : Allocation :=
  if 0 <? agent current
  then mkAllocation (agent current - 1) (middle current) (human current + 1)
  else mkAllocation (agent current) (middle current - 1) (human current + 1).

(** The order in which [_make_concession] visits the issues; the flag
    says whether an undecided unit may be given. *)
Definition search_order (st : NegotiationStacks) : list (string * bool) :=
  map (fun n => (n, true)) (stack_b st)
  ++ map (fun n => (n, false)) (neutral st)
  ++ map (fun n => (n, false)) (rev (stack_a st)).

Definition concede_at (offer : Offer) (n : string) : option Offer :=
  match Offer_getitem offer n with
  | Some current =>
      Some (Offer_setitem offer n (Some (one_unit_to_human current)))
  | None => None
  end.

(** Every unit of every issue of the game is on the human's side. *)
Definition all_with_opponent (g : GameSpec) (o : Offer) : Prop :=
  forall issue, issue ∈ issues g ->
    exists a, Offer_getitem o (name issue) = Some a
              /\ agent a = 0 /\ middle a = 0.

Definition gives (g : GameSpec) (offer : Offer) (x : string * bool) : bool :=
  can_give g offer x.2 x.1.

(** The events that a session not in progress still records. *)
Definition recorded_when_inactive (e : Event) : bool :=
  match event_type e with
  | GAME_START | TIME => true
  | _ => false
  end.

(** The allocation that [get_opening_offer] chooses for an issue. *)
Definition opening_allocation (c : NegoChatCore) (issue : Issue)
    : Allocation :=
  let q := Models.quantity issue in
  let split := mkAllocation (q / 2) (q - q / 2 * 2) (q / 2) in
  if bool_decide (name issue ∈ stack_a (stacks c))
  then mkAllocation q 0 0
  else if bool_decide (name issue ∈ stack_b (stacks c))
  then match strategy c with
       | COOPERATIVE => mkAllocation 0 0 q
       | _ => split
       end
  else split.

(** Units of an offer that are not on the human's side. *)
Definition units_of (kv : string * option Allocation) : Z :=
  match kv.2 with
  | Some a => agent a + middle a
  | None => 0
  end.

Definition units_outstanding (o : Offer) : Z :=
  foldr (fun kv acc => units_of kv + acc) 0 (map_to_list (allocations o)).

(** [k] calls of [_make_concession] in a row that all return an offer. *)
Fixpoint concede_chain (k : nat) (c : NegoChatCore) : option NegoChatCore :=
  match k with
  | O => Some c
  | S k' =>
      match _make_concession c with
      | Ok (Some _, c') => concede_chain k' c'
      | _ => None
      end
  end.

(** The order a sort by [key] establishes. *)
Definition in_order {A} (key : A -> Q) (reverse : bool) (x y : A) : Prop :=
  if reverse then (key y <= key x)%Q else (key x <= key y)%Q.





(** No value per unit is negative. *)
Definition values_nonneg (u : UtilityFunction) : bool :=
  forallb (fun kv : string * Q => Qle_bool 0 kv.2) (map_to_list (values u)).

(** Quantities as the [Issue] constructor accepts them. *)
Definition quantities_positive (l : list Issue) : bool :=
  forallb (fun i => 1 <=? Models.quantity i) l.

(** The heap order of [heapq] on fire times: no item fires before its
    parent, the parent of index [i] being index [(i - 1) / 2]. *)
Definition heap_ok (h : list Bus.item) : Prop :=
  forall i x y, (0 < i)%nat ->
    h !! i = Some x -> h !! ((i - 1) / 2)%nat = Some y -> (y.1 <= x.1)%Q.

(** The heap order on the edges that do not touch index [pos], and from
    the parent of [pos] to the children of [pos]. *)
Definition edges_off (h : list Bus.item) (pos : nat) : Prop :=
  (forall i x y, (0 < i)%nat -> i <> pos -> ((i - 1) / 2)%nat <> pos ->
     h !! i = Some x -> h !! ((i - 1) / 2)%nat = Some y -> (y.1 <= x.1)%Q)
  /\ (forall c x y, (0 < pos)%nat -> (0 < c)%nat -> ((c - 1) / 2)%nat = pos ->
        h !! c = Some x -> h !! ((pos - 1) / 2)%nat = Some y ->
        (y.1 <= x.1)%Q).






End Notions.
Import Notions.

(** * Properties *)

(** ** Offers and their validation *)
Section ModelsFacts.
Import Models.

Lemma validate_issues_ok (l : list Issue) (o : Offer) :
  (validate_issues l o).1 = true <-> present_sums_match l o.
Proof.
  unfold present_sums_match.
  induction l as [|issue rest IH]; simpl.
  - split; [intros _ i a Hin | reflexivity]. by apply elem_of_nil in Hin.
  - destruct (Offer_getitem o (name issue)) as [alloc|] eqn:Hget.
    + destruct (total alloc =? quantity issue) eqn:Hsum; simpl.
      * apply Z.eqb_eq in Hsum. rewrite IH. split.
        -- intros H i a Hin Hi. apply elem_of_cons in Hin as [->|Hin].
           ++ rewrite Hget in Hi. injection Hi as <-. exact Hsum.
           ++ by apply (H i a).
        -- intros H i a Hin. apply H. by apply list_elem_of_further.
      * apply Z.eqb_neq in Hsum. split; [discriminate|].
        intros H. exfalso. apply Hsum.
        apply (H issue alloc); [apply list_elem_of_here | exact Hget].
    + rewrite IH. split.
      * intros H i a Hin Hi. apply elem_of_cons in Hin as [->|Hin].
        -- rewrite Hget in Hi. discriminate.
        -- by apply (H i a).
      * intros H i a Hin. apply H. by apply list_elem_of_further.
Qed.

Lemma validate_issues_message (l : list Issue) (o : Offer) :
  (validate_issues l o).1 = true -> (validate_issues l o).2 = "".
Proof.
  induction l as [|issue rest IH]; simpl; [done|].
  destruct (Offer_getitem o (name issue)) as [alloc|]; [|exact IH].
  destruct (total alloc =? quantity issue); simpl; [exact IH | discriminate].
Qed.

(** C3: [validate_offer] succeeds exactly when every issue of the game
    that is present in the offer has counts [agent + middle + human] equal
    to the issue's quantity; an issue that is absent from the offer (no
    entry, or the entry [None]) puts no condition on the offer. *)
Theorem validate_offer_iff_present_sums (g : GameSpec) (o : Offer) :
  (validate_offer g o).1 = true <->
  (forall issue, issue ∈ issues g ->
     match Offer_getitem o (name issue) with
     | Some alloc => agent alloc + middle alloc + human alloc = quantity issue
     | None => True
     end).
Proof.
  unfold validate_offer. rewrite validate_issues_ok. unfold present_sums_match.
  split.
  - intros H issue Hin. destruct (Offer_getitem o (name issue)) eqn:E; [|done].
    by apply (H issue).
  - intros H issue alloc Hin Hget. specialize (H issue Hin).
    by rewrite Hget in H.
Qed.

Lemma Offer_is_complete_empty : Offer_is_complete Offer_empty_dict = false.
Proof. reflexivity. Qed.

Lemma Offer_is_complete_no_allocations (o : Offer) :
  allocations o = ∅ -> Offer_is_complete o = false.
Proof.
  intros H. unfold Offer_is_complete. by rewrite bool_decide_eq_true_2.
Qed.

End ModelsFacts.

(** ** Serialization of events *)
Section EventsFacts.
Import Events.

Lemma EventType_of_value_value (t : EventType) :
  EventType_of_value (PStr (EventType_value t)) = Ok t.
Proof. by destruct t. Qed.

Lemma MessageSubtype_of_value_value (t : MessageSubtype) :
  MessageSubtype_of_value (PStr (MessageSubtype_value t)) = Ok t.
Proof. by destruct t. Qed.

Lemma MessageSubtype_value_truthy (t : MessageSubtype) :
  truthy (PStr (MessageSubtype_value t)) = true.
Proof. by destruct t. Qed.

(** C8: [Event.from_dict(event.to_dict())] returns an event equal to the
    original in every field, for every event type, every payload, and
    with or without a subtype. *)
Theorem from_dict_to_dict (e : Event) : from_dict (to_dict e) = Ok e.
Proof.
  destruct e as [ty sender pl delay eid ts st].
  unfold from_dict, to_dict; cbn -[EventType_of_value MessageSubtype_of_value truthy].
  rewrite EventType_of_value_value; cbn -[MessageSubtype_of_value truthy].
  destruct st as [st|]; cbn -[MessageSubtype_of_value truthy].
  - rewrite MessageSubtype_value_truthy, MessageSubtype_of_value_value.
    reflexivity.
  - reflexivity.
Qed.

End EventsFacts.

(** ** The session state machine *)
Section SessionFacts.
Import Models Events Session.

Lemma apply_event_inactive (now : Q) (e : Event) (s : NegotiationSession) :
  is_active s = false ->
  apply_event now e s =
    match event_type e with
    | GAME_START | TIME => mkOutcome (history_add e s) [] None
    | _ => mkOutcome s [] None
    end.
Proof.
  intros Hs. unfold apply_event. rewrite Hs. by destruct (event_type e).
Qed.

Lemma apply_event_active (now : Q) (e : Event) (s : NegotiationSession) :
  is_active s = true ->
  apply_event now e s =
    let s1 := history_add e s in
    match event_type e with
    | SEND_OFFER =>
        match _handle_offer e s1 with
        | Ok (s2, out) => mkOutcome s2 out None
        | Raise x => mkOutcome s1 [] (Some x)
        end
    | FORMAL_ACCEPT =>
        let '(s2, out) := _handle_formal_accept now e s1 in
        mkOutcome s2 out None
    | GAME_END => mkOutcome (_handle_game_end now e s1) [] None
    | _ => mkOutcome s1 [] None
    end.
Proof. intros Hs. unfold apply_event. by rewrite Hs. Qed.

Lemma is_active_state (s : NegotiationSession) :
  is_active s = true <-> _state s = IN_PROGRESS.
Proof. unfold is_active. destruct (_state s); split; congruence. Qed.

Lemma completed_inactive (s : NegotiationSession) :
  _state s = COMPLETED -> is_active s = false.
Proof. unfold is_active. by intros ->. Qed.

(** What [_handle_offer] can do to a session. *)
Lemma _handle_offer_cases (e : Event) (s s' : NegotiationSession)
    (out : list string) :
  _handle_offer e s = Ok (s', out) ->
  s' = s \/
  (_state s' = _state s /\ _acceptance s' = FormalAcceptance_init
   /\ _history s' = _history s).
Proof.
  unfold _handle_offer. destruct (truthy (get_offer e)); [|by intros [= <- _]; left].
  destruct (get_offer e) as [| | | | | | |d]; try discriminate. simpl.
  destruct (Offer_from_dict d) as [offer|]; [|discriminate]. simpl.
  destruct (validate_offer (game s) offer) as [valid msg].
  destruct valid; simpl.
  - intros [= <- _]. right. by destruct (String.eqb _ _).
  - intros [= <- _]. by left.
Qed.

Lemma completed_absorbing (now : Q) (e : Event) (s : NegotiationSession) :
  _state s = COMPLETED -> _state (session (apply_event now e s)) = COMPLETED.
Proof.
  intros Hs. rewrite apply_event_inactive by by apply completed_inactive.
  by destruct (event_type e).
Qed.

Lemma accepted_is_completed_step (now : Q) (e : Event)
    (s : NegotiationSession) :
  accepted_is_completed s ->
  accepted_is_completed (session (apply_event now e s)).
Proof.
  unfold accepted_is_completed. intros Hinv.
  destruct (is_active s) eqn:Hact.
  - assert (Hnot : both_accepted (_acceptance s) = false).
    { destruct (both_accepted (_acceptance s)); [|done].
      apply is_active_state in Hact. rewrite Hinv in Hact; done. }
    rewrite apply_event_active by done. cbv zeta.
    destruct (event_type e); simpl; try (intros H; congruence).
    + destruct (_handle_offer e (history_add e s)) as [[s2 out]|x] eqn:Hoff;
        simpl; [|intros H; congruence].
      apply _handle_offer_cases in Hoff as [->|(_ & Ha & _)]; simpl.
      * intros H; congruence.
      * rewrite Ha. discriminate.
    + unfold _handle_formal_accept.
      destruct (Offer_is_complete _); simpl; [|intros H; congruence].
      match goal with |- context [if both_accepted ?a then _ else _] =>
        destruct (both_accepted a) eqn:Hboth end; simpl.
      * reflexivity.
      * rewrite Hboth. discriminate.
  - rewrite apply_event_inactive by done.
    by destruct (event_type e).
Qed.

Lemma accepted_is_completed_run (evs : list (Q * Event))
    (s : NegotiationSession) :
  accepted_is_completed s -> accepted_is_completed (apply_events evs s).
Proof.
  revert s. induction evs as [|[now e] rest IH]; intros s Hs; simpl; [done|].
  apply IH. by apply accepted_is_completed_step.
Qed.

Lemma completions_of_completed (evs : list (Q * Event))
    (s : NegotiationSession) :
  _state s = COMPLETED -> completions evs s = 0%nat.
Proof.
  revert s. induction evs as [|[now e] rest IH]; intros s Hs; simpl; [done|].
  rewrite IH by by apply completed_absorbing.
  unfold is_completed at 1. by rewrite Hs.
Qed.

Lemma completions_at_most_once (evs : list (Q * Event))
    (s : NegotiationSession) :
  (completions evs s <= 1)%nat.
Proof.
  revert s. induction evs as [|[now e] rest IH]; intros s; simpl; [lia|].
  destruct (negb (is_completed s) && is_completed _) eqn:Hstep.
  - apply andb_prop in Hstep as [_ Hc]. unfold is_completed in Hc.
    rewrite completions_of_completed; [lia|].
    by destruct (_state (session (apply_event now e s))).
  - specialize (IH (session (apply_event now e s))). lia.
Qed.

Lemma completions_reaching_completed (evs : list (Q * Event))
    (s : NegotiationSession) :
  _state s <> COMPLETED ->
  _state (apply_events evs s) = COMPLETED ->
  completions evs s = 1%nat.
Proof.
  revert s. induction evs as [|[now e] rest IH]; intros s Hs Hend; simpl in *;
    [done|].
  assert (Hnc : is_completed s = false).
  { unfold is_completed. by destruct (_state s). }
  rewrite Hnc. simpl.
  destruct (is_completed (session (apply_event now e s))) eqn:Hc.
  - rewrite completions_of_completed; [done|].
    unfold is_completed in Hc.
    by destruct (_state (session (apply_event now e s))).
  - apply IH; [|done]. unfold is_completed in Hc. intros Heq.
    by rewrite Heq in Hc.
Qed.

Lemma new_session_fresh (g : GameSpec) (sid : option string) (t0 : Q)
    (s0 : NegotiationSession) :
  NegotiationSession_new g sid t0 = Ok s0 ->
  _state s0 = NOT_STARTED /\ _acceptance s0 = FormalAcceptance_init.
Proof.
  unfold NegotiationSession_new.
  destruct (create_initial_offer g); simpl; [|discriminate].
  by intros [= <-].
Qed.

Lemma start_in_progress (eid : string) (now now' : Q) (ev : Event)
    (s0 s1 : NegotiationSession) :
  start eid now now' s0 = Ok (ev, s1) ->
  _state s1 = IN_PROGRESS /\ _acceptance s1 = _acceptance s0.
Proof.
  unfold start. destruct (_state s0); try discriminate. by intros [= _ <-].
Qed.

(** The step in which the second flag is set. *)
Lemma second_accept_completes (now : Q) (e : Event) (s : NegotiationSession) :
  both_accepted (_acceptance s) = false ->
  both_accepted (_acceptance (session (apply_event now e s))) = true ->
  event_type e = FORMAL_ACCEPT /\
  exists a,
    session (apply_event now e s) =
      _complete_negotiation now (PStr "mutual_agreement")
        (set_acceptance a (history_add e s)).
Proof.
  intros Hnot.
  destruct (is_active s) eqn:Hact.
  - rewrite apply_event_active by done. cbv zeta.
    destruct (event_type e); simpl; try congruence.
    + destruct (_handle_offer e (history_add e s)) as [[s2 out]|x] eqn:Hoff;
        simpl; [|congruence].
      apply _handle_offer_cases in Hoff as [->|(_ & Ha & _)]; simpl;
        [congruence|]. rewrite Ha. discriminate.
    + unfold _handle_formal_accept.
      destruct (Offer_is_complete _); simpl; [|congruence].
      match goal with |- context [if both_accepted ?a then _ else _] =>
        destruct (both_accepted a) eqn:Hboth end; simpl.
      * intros _. split; [done|]. eexists. reflexivity.
      * rewrite Hboth. discriminate.
  - rewrite apply_event_inactive by done.
    destruct (event_type e); simpl; congruence.
Qed.

(** C1: in every session run from a fresh, started session, mutual
    acceptance means the session is [COMPLETED], entered exactly once in
    the run (and never more than once in any run); the step that sets the
    second flag is a [FORMAL_ACCEPT] completing with reason
    ["mutual_agreement"]; and once the session is [COMPLETED],
    [apply_event] on a [SEND_OFFER] returns the session as it was (offer,
    flags, state, history), prints nothing and raises nothing. *)
Theorem mutual_acceptance_completes_once
    (g : GameSpec) (sid : option string) (t0 : Q) (s0 : NegotiationSession)
    (eid : string) (t1 t1' : Q) (ev : Event) (s1 : NegotiationSession)
    (evs : list (Q * Event)) :
  NegotiationSession_new g sid t0 = Ok s0 ->
  start eid t1 t1' s0 = Ok (ev, s1) ->
  let s := apply_events evs s1 in
  (both_accepted (_acceptance s) = true ->
     _state s = COMPLETED /\ completions evs s1 = 1%nat) /\
  (completions evs s1 <= 1)%nat /\
  (forall now e,
     both_accepted (_acceptance s) = false ->
     both_accepted (_acceptance (session (apply_event now e s))) = true ->
     event_type e = FORMAL_ACCEPT /\
     _state (session (apply_event now e s)) = COMPLETED /\
     exists a,
       session (apply_event now e s) =
         _complete_negotiation now (PStr "mutual_agreement")
           (set_acceptance a (history_add e s))) /\
  (forall now e,
     _state s = COMPLETED ->
     event_type e = SEND_OFFER ->
     apply_event now e s = mkOutcome s [] None).
Proof.
  intros Hnew Hstart s.
  apply new_session_fresh in Hnew as [_ Hacc0].
  apply start_in_progress in Hstart as [Hst1 Hacc1].
  assert (Hinv : accepted_is_completed s).
  { apply accepted_is_completed_run. unfold accepted_is_completed.
    rewrite Hacc1, Hacc0. discriminate. }
  repeat split.
  - by apply Hinv.
  - apply completions_reaching_completed; [congruence | by apply Hinv].
  - apply completions_at_most_once.
  - by destruct (second_accept_completes now e s).
  - destruct (second_accept_completes now e s) as [_ [a ->]]; done.
  - by destruct (second_accept_completes now e s).
  - intros now e Hs He.
    rewrite apply_event_inactive by by apply completed_inactive.
    by rewrite He.
Qed.

End SessionFacts.

(** ** Formal acceptance and rejected offers *)
Section AcceptanceFacts.
Import Models Events Session.

Lemma validate_issues_no_allocations (l : list Issue) (o : Offer) :
  allocations o = ∅ -> (validate_issues l o).1 = true.
Proof.
  intros Ho. induction l as [|issue rest IH]; simpl; [done|].
  unfold Offer_getitem. by rewrite Ho, lookup_empty.
Qed.

Lemma _handle_offer_valid (e : Event) (s : NegotiationSession) (d : pydict)
    (offer : Offer) :
  get_offer e = PDict d -> d <> [] ->
  Offer_from_dict d = Ok offer ->
  (validate_offer (game s) offer).1 = true ->
  exists s', _handle_offer e s = Ok (s', [])
    /\ _current_offer s' = offer
    /\ _acceptance s' = mkFormalAcceptance false false None None.
Proof.
  intros Hd Hne Hoff Hval. unfold _handle_offer. rewrite Hd.
  destruct d as [|kv d']; [done|]. simpl truthy. cbv iota. simpl rbind.
  rewrite Hoff. simpl rbind.
  destruct (validate_offer (game s) offer) as [valid msg]. simpl in Hval.
  subst valid. simpl. eexists. split; [reflexivity|].
  by destruct (String.eqb _ _).
Qed.

Lemma _handle_offer_invalid (e : Event) (s : NegotiationSession) (d : pydict)
    (offer : Offer) :
  get_offer e = PDict d ->
  Offer_from_dict d = Ok offer ->
  (validate_offer (game s) offer).1 = false ->
  _handle_offer e s =
    Ok (s, ["Invalid offer: " +:+ (validate_offer (game s) offer).2]).
Proof.
  intros Hd Hoff Hval. unfold _handle_offer. rewrite Hd.
  destruct d as [|kv d'].
  - exfalso. cbn in Hoff. injection Hoff as <-.
    unfold validate_offer in Hval.
    by rewrite validate_issues_no_allocations in Hval.
  - simpl truthy. cbv iota. simpl rbind. rewrite Hoff. simpl rbind.
    destruct (validate_offer (game s) offer) as [valid msg]. simpl in *.
    by subst valid.
Qed.

(** C2: in a session in progress, a [FORMAL_ACCEPT] that arrives while the
    current offer is not complete leaves the acceptance record (flags and
    timestamps) as it was; a [SEND_OFFER] whose offer is valid replaces
    the current offer and sets both flags to false and both timestamps to
    none, whatever they were; and whenever a [SEND_OFFER] changes the
    current offer, the acceptance record is reset in that way. *)
Theorem incomplete_accept_ignored_and_offer_resets
    (now : Q) (e : Event) (s : NegotiationSession) :
  is_active s = true ->
  let s' := session (apply_event now e s) in
  (event_type e = FORMAL_ACCEPT ->
   Offer_is_complete (_current_offer s) = false ->
   _acceptance s' = _acceptance s) /\
  (event_type e = SEND_OFFER ->
   forall d offer,
     get_offer e = PDict d -> d <> [] ->
     Offer_from_dict d = Ok offer ->
     (validate_offer (game s) offer).1 = true ->
     _current_offer s' = offer /\
     _acceptance s' = mkFormalAcceptance false false None None) /\
  (event_type e = SEND_OFFER ->
   _current_offer s' <> _current_offer s ->
   _acceptance s' = mkFormalAcceptance false false None None).
Proof.
  intros Hact s'. subst s'. rewrite apply_event_active by done. cbv zeta.
  split; [|split].
  - intros -> Hinc. unfold _handle_formal_accept. simpl _current_offer.
    by rewrite Hinc.
  - intros -> d offer Hd Hne Hoff Hval.
    destruct (_handle_offer_valid e (history_add e s) d offer)
      as (s2 & -> & Ho & Ha); done.
  - intros -> Hchg.
    destruct (_handle_offer e (history_add e s)) as [[s2 out]|x] eqn:Hoff;
      simpl in *; [|done].
    unfold _handle_offer in Hoff.
    destruct (truthy (get_offer e)); [|by injection Hoff as <- _].
    destruct (get_offer e) as [| | | | | | |d]; try discriminate.
    simpl in Hoff.
    destruct (Offer_from_dict d) as [offer|]; [|discriminate]. simpl in Hoff.
    destruct (validate_offer (game s) offer) as [valid msg].
    destruct valid; simpl in Hoff; injection Hoff as <- _; [|done].
    by destruct (String.eqb _ _).
Qed.

(** C4, as the code has it: in a session in progress, a [SEND_OFFER]
    whose offer fails validation is appended to the history and its error
    is printed; the current offer, the acceptance record, the session
    state and every other field stay as they were, and no exception
    escapes. *)
Theorem invalid_offer_logged_only
    (now : Q) (e : Event) (s : NegotiationSession) (d : pydict)
    (offer : Offer) :
  is_active s = true ->
  event_type e = SEND_OFFER ->
  get_offer e = PDict d ->
  Offer_from_dict d = Ok offer ->
  (validate_offer (game s) offer).1 = false ->
  apply_event now e s =
    mkOutcome
      (mkSession (game s) (session_id s) (_state s) (_current_offer s)
         (_acceptance s) (_history s ++ [e]) (_start_time s) (_end_time s)
         (_last_human_offer s) (_last_agent_offer s))
      ["Invalid offer: " +:+ (validate_offer (game s) offer).2]
      None.
Proof.
  intros Hact He Hd Hoff Hval. rewrite apply_event_active by done.
  cbv zeta. rewrite He.
  by rewrite (_handle_offer_invalid e (history_add e s) d offer).
Qed.

(** C10: an offer without allocations is not complete, although every
    allocation it holds (there is none) is complete; so a [FORMAL_ACCEPT]
    applied while the current offer has no allocations leaves the
    acceptance record as it was. *)
Theorem empty_offer_not_complete_no_accept
    (now : Q) (e : Event) (s : NegotiationSession) :
  allocations (_current_offer s) = ∅ ->
  event_type e = FORMAL_ACCEPT ->
  Offer_is_complete (_current_offer s) = false /\
  (forall n v, allocations (_current_offer s) !! n = Some v ->
     exists a, v = Some a /\ Allocation_is_complete a = true) /\
  _acceptance (session (apply_event now e s)) = _acceptance s.
Proof.
  intros Hempty He.
  pose proof (Offer_is_complete_no_allocations _ Hempty) as Hinc.
  split; [done|]. split.
  { intros n v. by rewrite Hempty, lookup_empty. }
  destruct (is_active s) eqn:Hact.
  - rewrite apply_event_active by done. cbv zeta. rewrite He.
    unfold _handle_formal_accept. simpl _current_offer. by rewrite Hinc.
  - rewrite apply_event_inactive by done. by rewrite He.
Qed.

End AcceptanceFacts.

(** ** The sample sessions as instances *)
Section SessionInstances.
Import Models Events Session Games Examples.

Lemma mutual_acceptance_witness :
  let s := apply_events agreement_run started_session in
  both_accepted (_acceptance s) = true /\
  _state s = COMPLETED /\
  completions agreement_run started_session = 1%nat /\
  apply_event (t0 + 8)%Q agent_offers s = mkOutcome s [] None.
Proof.
  pose proof (mutual_acceptance_completes_once
                classic_resource_game None t0 fresh_session
                "e0000000" t0 t0 start_event started_session agreement_run
                ltac:(vm_compute; reflexivity) ltac:(vm_compute; reflexivity))
    as (Hdone & _ & _ & Hnoop).
  assert (Hboth : both_accepted
            (_acceptance (apply_events agreement_run started_session)) = true)
    by (vm_compute; reflexivity).
  destruct (Hdone Hboth) as [Hst Hn].
  intros s. split; [exact Hboth|]. split; [exact Hst|]. split; [exact Hn|].
  apply Hnoop; [exact Hst | reflexivity].
Defined.

Lemma offer_resets_witness :
  is_active half_accepted_session = true /\
  human_accepted (_acceptance half_accepted_session) = true /\
  _acceptance (session (apply_event (t0 + 8)%Q agent_offers
                          half_accepted_session))
    = mkFormalAcceptance false false None None.
Proof.
  split; [vm_compute; reflexivity|]. split; [vm_compute; reflexivity|].
  pose proof (incomplete_accept_ignored_and_offer_resets (t0 + 8)%Q
                agent_offers half_accepted_session
                ltac:(vm_compute; reflexivity)) as (_ & Hreset & _).
  destruct (Hreset eq_refl fair_offer_dict
              (mkOffer (list_to_map
                 [("apples", Some (mkAllocation 3 0 1));
                  ("oranges", Some (mkAllocation 1 0 2));
                  ("bananas", Some (mkAllocation 0 0 2))]))
              eq_refl ltac:(discriminate)
              ltac:(vm_compute; reflexivity) ltac:(vm_compute; reflexivity))
    as [_ Ha].
  exact Ha.
Defined.

(** C4 as stated fails: the rejected offer's event enters the history, so
    the session after [apply_event] is not the session before. *)
Lemma invalid_offer_changes_history :
  is_active started_session = true /\
  event_type human_offers_short = SEND_OFFER /\
  (exists offer,
     Offer_from_dict short_offer_dict = Ok offer /\
     (validate_offer (game started_session) offer).1 = false) /\
  _history (session (apply_event (t0 + 9)%Q human_offers_short started_session))
    = _history started_session ++ [human_offers_short] /\
  session (apply_event (t0 + 9)%Q human_offers_short started_session)
    <> started_session.
Proof.
  split; [reflexivity|]. split; [reflexivity|]. split.
  - eexists. split; vm_compute; reflexivity.
  - split; [vm_compute; reflexivity|].
    intros H. apply (f_equal (fun s => length (_history s))) in H.
    vm_compute in H. discriminate.
Defined.

Lemma invalid_offer_logged_only_witness :
  apply_event (t0 + 9)%Q human_offers_short started_session =
    mkOutcome (history_add human_offers_short started_session)
      ["Invalid offer: Issue 'apples' has 3 items, expected 4"] None.
Proof.
  rewrite (invalid_offer_logged_only (t0 + 9)%Q human_offers_short
             started_session short_offer_dict
             (mkOffer (list_to_map [("apples", Some (mkAllocation 2 0 1))]))
             ltac:(vm_compute; reflexivity) eq_refl eq_refl
             ltac:(vm_compute; reflexivity) ltac:(vm_compute; reflexivity)).
  vm_compute. reflexivity.
Defined.

Lemma empty_offer_witness :
  Offer_is_complete (_current_offer no_issue_session) = false /\
  _acceptance (session (apply_event (t0 + 6)%Q human_accepts no_issue_session))
    = _acceptance no_issue_session.
Proof.
  destruct (empty_offer_not_complete_no_accept (t0 + 6)%Q human_accepts
              no_issue_session eq_refl eq_refl) as (Hinc & _ & Hacc).
  exact (conj Hinc Hacc).
Defined.

End SessionInstances.

(** ** The stacks of NegoChatCore *)
Section StackFacts.
Import Models NegoChat.

Lemma Qltb_lt (x y : Q) : Qltb x y = true <-> (x < y)%Q.
Proof.
  unfold Qltb. rewrite negb_true_iff, <- not_true_iff_false, Qle_bool_iff.
  split; [apply Qnot_le_lt | apply Qlt_not_le].
Qed.

Lemma sort_insert_perm {A} (key : A -> Q) (reverse : bool) (x : A)
    (l : list A) :
  sort_insert key reverse x l ≡ₚ x :: l.
Proof.
  induction l as [|y rest IH]; simpl; [done|].
  destruct (if reverse then _ else _); [|done].
  rewrite IH. apply Permutation_swap.
Qed.

Lemma list_sort_perm {A} (key : A -> Q) (reverse : bool) (l : list A) :
  list_sort key reverse l ≡ₚ l.
Proof.
  induction l as [|x rest IH]; simpl; [done|].
  unfold list_sort in *. simpl. by rewrite sort_insert_perm, IH.
Qed.

Lemma distribute_perm (l : list IssueAnalysis) (st : NegotiationStacks) :
  stack_a (distribute l st) ++ stack_b (distribute l st)
    ++ neutral (distribute l st)
  ≡ₚ (stack_a st ++ stack_b st ++ neutral st) ++ map issue_name l.
Proof.
  revert st. induction l as [|a rest IH]; intros st; simpl.
  - by rewrite app_nil_r.
  - rewrite IH. clear IH.
    destruct (Qltb 0 (value_difference a)); [|destruct (Qltb _ 0)]; simpl;
      rewrite <- !app_assoc; simpl; by rewrite <- !Permutation_middle.
Qed.

Lemma distribute_stack_a (l : list IssueAnalysis) (st : NegotiationStacks)
    (n : string) :
  n ∈ stack_a (distribute l st) <->
  n ∈ stack_a st \/
  exists a, a ∈ l /\ issue_name a = n /\ (0 < value_difference a)%Q.
Proof.
  revert st. induction l as [|a rest IH]; intros st; simpl.
  - split; [by left | intros [H|(a & Ha & _)]; [done|]].
    by apply elem_of_nil in Ha.
  - rewrite IH. clear IH.
    destruct (Qltb 0 (value_difference a)) eqn:Hpos; simpl.
    + apply Qltb_lt in Hpos. rewrite elem_of_app, list_elem_of_singleton.
      split.
      * intros [[H| ->]|(b & Hb & Hn & Hd)]; [by left| |].
        -- right. exists a. split; [apply list_elem_of_here | done].
        -- right. exists b. split; [by apply list_elem_of_further | done].
      * intros [H|(b & Hb & Hn & Hd)]; [by left; left|].
        apply elem_of_cons in Hb as [->|Hb]; [by left; right|].
        right. by exists b.
    + assert (Hnot : ~ (0 < value_difference a)%Q).
      { intros H. apply Qltb_lt in H. congruence. }
      assert (stack_a (if Qltb (value_difference a) 0
                       then mkStacks (stack_a st)
                              (stack_b st ++ [issue_name a]) (neutral st)
                              (a_index st) (b_index st)
                       else mkStacks (stack_a st) (stack_b st)
                              (neutral st ++ [issue_name a])
                              (a_index st) (b_index st)) = stack_a st) as ->
        by by destruct (Qltb _ 0).
      split.
      * intros [H|(b & Hb & Hn & Hd)]; [by left|].
        right. exists b. split; [by apply list_elem_of_further | done].
      * intros [H|(b & Hb & Hn & Hd)]; [by left|].
        apply elem_of_cons in Hb as [->|Hb]; [done|].
        right. by exists b.
Qed.

Lemma distribute_stack_b (l : list IssueAnalysis) (st : NegotiationStacks)
    (n : string) :
  n ∈ stack_b (distribute l st) <->
  n ∈ stack_b st \/
  exists a, a ∈ l /\ issue_name a = n /\ (value_difference a < 0)%Q.
Proof.
  revert st. induction l as [|a rest IH]; intros st; simpl.
  - split; [by left | intros [H|(a & Ha & _)]; [done|]].
    by apply elem_of_nil in Ha.
  - rewrite IH. clear IH.
    destruct (Qltb 0 (value_difference a)) eqn:Hpos; simpl.
    + apply Qltb_lt in Hpos.
      split.
      * intros [H|(b & Hb & Hn & Hd)]; [by left|].
        right. exists b. split; [by apply list_elem_of_further | done].
      * intros [H|(b & Hb & Hn & Hd)]; [by left|].
        apply elem_of_cons in Hb as [->|Hb].
        -- exfalso. apply (Qlt_irrefl 0). exact (Qlt_trans _ _ _ Hpos Hd).
        -- right. by exists b.
    + destruct (Qltb (value_difference a) 0) eqn:Hneg; simpl.
      * apply Qltb_lt in Hneg. rewrite elem_of_app, list_elem_of_singleton.
        split.
        -- intros [[H| ->]|(b & Hb & Hn & Hd)]; [by left| |].
           ++ right. exists a. split; [apply list_elem_of_here | done].
           ++ right. exists b. split; [by apply list_elem_of_further | done].
        -- intros [H|(b & Hb & Hn & Hd)]; [by left; left|].
           apply elem_of_cons in Hb as [->|Hb]; [by left; right|].
           right. by exists b.
      * assert (Hnot : ~ (value_difference a < 0)%Q).
        { intros H. apply Qltb_lt in H. congruence. }
        split.
        -- intros [H|(b & Hb & Hn & Hd)]; [by left|].
           right. exists b. split; [by apply list_elem_of_further | done].
        -- intros [H|(b & Hb & Hn & Hd)]; [by left|].
           apply elem_of_cons in Hb as [->|Hb]; [done|].
           right. by exists b.
Qed.

Lemma distribute_neutral (l : list IssueAnalysis) (st : NegotiationStacks)
    (n : string) :
  n ∈ neutral (distribute l st) <->
  n ∈ neutral st \/
  exists a, a ∈ l /\ issue_name a = n /\ (value_difference a == 0)%Q.
Proof.
  revert st. induction l as [|a rest IH]; intros st; simpl.
  - split; [by left | intros [H|(a & Ha & _)]; [done|]].
    by apply elem_of_nil in Ha.
  - rewrite IH. clear IH.
    destruct (Qltb 0 (value_difference a)) eqn:Hpos; simpl.
    + apply Qltb_lt in Hpos.
      split.
      * intros [H|(b & Hb & Hn & Hd)]; [by left|].
        right. exists b. split; [by apply list_elem_of_further | done].
      * intros [H|(b & Hb & Hn & Hd)]; [by left|].
        apply elem_of_cons in Hb as [->|Hb].
        -- exfalso. rewrite Hd in Hpos. by apply (Qlt_irrefl 0).
        -- right. by exists b.
    + destruct (Qltb (value_difference a) 0) eqn:Hneg; simpl.
      * apply Qltb_lt in Hneg.
        split.
        -- intros [H|(b & Hb & Hn & Hd)]; [by left|].
           right. exists b. split; [by apply list_elem_of_further | done].
        -- intros [H|(b & Hb & Hn & Hd)]; [by left|].
           apply elem_of_cons in Hb as [->|Hb].
           ++ exfalso. rewrite Hd in Hneg. by apply (Qlt_irrefl 0).
           ++ right. by exists b.
      * assert (Hzero : (value_difference a == 0)%Q).
        { apply Qle_antisym; apply Qnot_lt_le; intros H;
            apply Qltb_lt in H; congruence. }
        rewrite elem_of_app, list_elem_of_singleton.
        split.
        -- intros [[H| ->]|(b & Hb & Hn & Hd)]; [by left| |].
           ++ right. exists a. split; [apply list_elem_of_here | done].
           ++ right. exists b. split; [by apply list_elem_of_further | done].
        -- intros [H|(b & Hb & Hn & Hd)]; [by left; left|].
           apply elem_of_cons in Hb as [->|Hb]; [by left; right|].
           right. by exists b.
Qed.

Lemma analysis_of_name (au ou : UtilityFunction) (l : list Issue)
    (n : string) (P : Q -> Prop) :
  n ∈ map name l ->
  (exists a, a ∈ list_sort value_difference true (map (analyse au ou) l)
             /\ issue_name a = n /\ P (value_difference a))
  <-> P (difference au ou n).
Proof.
  intros Hn. split.
  - intros (a & Ha & <- & HP).
    rewrite list_sort_perm in Ha.
    apply list_elem_of_In, in_map_iff in Ha as (i & <- & _). exact HP.
  - intros HP. apply list_elem_of_In, in_map_iff in Hn as (i & <- & Hi).
    exists (analyse au ou i). split; [|done].
    rewrite list_sort_perm. apply list_elem_of_In, in_map_iff. by exists i.
Qed.

Lemma build_stacks_stack_a g au ou strat :
  stack_a (_build_stacks g au ou strat) ≡ₚ
  stack_a (distribute (list_sort value_difference true
                         (map (analyse au ou) (issues g)))
             (mkStacks [] [] [] 0 0)).
Proof. destruct strat; simpl; [apply list_sort_perm | done | done]. Qed.

Lemma build_stacks_stack_b g au ou strat :
  stack_b (_build_stacks g au ou strat) ≡ₚ
  stack_b (distribute (list_sort value_difference true
                         (map (analyse au ou) (issues g)))
             (mkStacks [] [] [] 0 0)).
Proof.
  destruct strat; simpl; [apply list_sort_perm | done | apply list_sort_perm].
Qed.

Lemma build_stacks_neutral g au ou strat :
  neutral (_build_stacks g au ou strat) =
  neutral (distribute (list_sort value_difference true
                         (map (analyse au ou) (issues g)))
             (mkStacks [] [] [] 0 0)).
Proof. by destruct strat. Qed.

Lemma issue_names_of_analyses au ou (l : list Issue) :
  map issue_name (map (analyse au ou) l) = map name l.
Proof. induction l as [|i rest IH]; simpl; [done | by rewrite IH]. Qed.

(** C5: after [NegoChatCore] has built its stacks, the three stacks
    together hold the game's issue names, each as often as the game lists
    it; and an issue of the game is in [stack_a] exactly when
    [agent_value - opponent_value] is positive, in [stack_b] exactly when
    it is negative, in [neutral] exactly when it is zero, hence in exactly
    one of the three, for every strategy. *)
Theorem stack_partition_by_sign
    (g : GameSpec) (au ou : UtilityFunction) (strat : StackStrategy)
    (min_acceptable rate : Q) (n : string) :
  let st := stacks (NegoChatCore_new g au ou strat min_acceptable rate) in
  n ∈ map name (issues g) ->
  stack_a st ++ stack_b st ++ neutral st ≡ₚ map name (issues g) /\
  (n ∈ stack_a st <-> (0 < difference au ou n)%Q) /\
  (n ∈ stack_b st <-> (difference au ou n < 0)%Q) /\
  (n ∈ neutral st <-> (difference au ou n == 0)%Q) /\
  (((n ∈ stack_a st) /\ (n ∉ stack_b st) /\ (n ∉ neutral st)) \/
   ((n ∉ stack_a st) /\ (n ∈ stack_b st) /\ (n ∉ neutral st)) \/
   ((n ∉ stack_a st) /\ (n ∉ stack_b st) /\ (n ∈ neutral st))).
Proof.
  simpl. intros Hn.
  assert (Ha : n ∈ stack_a (_build_stacks g au ou strat)
               <-> (0 < difference au ou n)%Q).
  { rewrite build_stacks_stack_a, distribute_stack_a. simpl.
    rewrite <- (analysis_of_name au ou (issues g) n (fun d => (0 < d)%Q) Hn).
    split; [intros [H|H]; [by apply elem_of_nil in H | done] | by right]. }
  assert (Hb : n ∈ stack_b (_build_stacks g au ou strat)
               <-> (difference au ou n < 0)%Q).
  { rewrite build_stacks_stack_b, distribute_stack_b. simpl.
    rewrite <- (analysis_of_name au ou (issues g) n (fun d => (d < 0)%Q) Hn).
    split; [intros [H|H]; [by apply elem_of_nil in H | done] | by right]. }
  assert (Hz : n ∈ neutral (_build_stacks g au ou strat)
               <-> (difference au ou n == 0)%Q).
  { rewrite build_stacks_neutral, distribute_neutral. simpl.
    rewrite <- (analysis_of_name au ou (issues g) n (fun d => (d == 0)%Q) Hn).
    split; [intros [H|H]; [by apply elem_of_nil in H | done] | by right]. }
  split; [|split; [exact Ha | split; [exact Hb | split; [exact Hz|]]]].
  - rewrite build_stacks_stack_a, build_stacks_stack_b, build_stacks_neutral.
    rewrite distribute_perm. simpl.
    rewrite <- (issue_names_of_analyses au ou).
    apply Permutation_map, list_sort_perm.
  - rewrite Ha, Hb, Hz.
    destruct (Q_dec 0 (difference au ou n)) as [[Hlt|Hgt]|Heq].
    + left. split; [done|]. split.
      * intros H. apply (Qlt_irrefl 0). exact (Qlt_trans _ _ _ Hlt H).
      * intros H. rewrite H in Hlt. by apply (Qlt_irrefl 0).
    + right; left. split; [|split; [done|]].
      * intros H. apply (Qlt_irrefl 0). exact (Qlt_trans _ _ _ H Hgt).
      * intros H. rewrite H in Hgt. by apply (Qlt_irrefl 0).
    + right; right. split; [|split; [|by symmetry]].
      * intros H. rewrite <- Heq in H. by apply (Qlt_irrefl 0).
      * intros H. rewrite <- Heq in H. by apply (Qlt_irrefl 0).
Qed.

End StackFacts.

(** ** Opening offer and concessions *)
Section ConcessionFacts.
Import Models NegoChat.

(** C6: for the game apples (4 units, worth 10 to the agent and 2 to the
    human), oranges (3; 6 and 6), bananas (2; 2 and 10), the opening
    offer under the balanced strategy gives apples as (4, 0, 0), oranges
    as (1, 1, 1) and bananas as (1, 0, 1). *)
Theorem opening_offer_classic_balanced :
  exists offer core',
    get_opening_offer
      (NegoChatCore_new
         (mkGameSpec "classic_resource" ""
            [mkIssue "apples" "Apples" 4 false;
             mkIssue "oranges" "Oranges" 3 false;
             mkIssue "bananas" "Bananas" 2 false]
            Games.classic_agent_utility Games.classic_human_utility
            default_rules)
         Games.classic_agent_utility Games.classic_human_utility
         BALANCED (4 # 10) (1 # 10))
      = Ok (offer, core') /\
    values_get Games.classic_agent_utility "apples" = 10%Q /\
    values_get Games.classic_human_utility "apples" = 2%Q /\
    values_get Games.classic_agent_utility "oranges" = 6%Q /\
    values_get Games.classic_human_utility "oranges" = 6%Q /\
    values_get Games.classic_agent_utility "bananas" = 2%Q /\
    values_get Games.classic_human_utility "bananas" = 10%Q /\
    Offer_getitem offer "apples" = Some (mkAllocation 4 0 0) /\
    Offer_getitem offer "oranges" = Some (mkAllocation 1 1 1) /\
    Offer_getitem offer "bananas" = Some (mkAllocation 1 0 1) /\
    _current_proposal core' = Some offer.
Proof.
  eexists Examples.opening_offer, _.
  split; [vm_compute; reflexivity|].
  repeat (split; [vm_compute; reflexivity|]). vm_compute; reflexivity.
Qed.

Lemma offer_nonneg_counts (o : Offer) :
  offer_nonneg o = true -> offer_counts_nonneg o.
Proof.
  unfold offer_nonneg, offer_counts_nonneg, Offer_getitem.
  rewrite forallb_forall. intros H n a Hget.
  destruct (allocations o !! n) as [v|] eqn:Hn; [|done]. subst v.
  apply elem_of_map_to_list, list_elem_of_In in Hn.
  specialize (H _ Hn). simpl in H. unfold nonneg.
  apply andb_prop in H as [H Hh]. apply andb_prop in H as [Ha Hm].
  apply Z.leb_le in Ha, Hm, Hh. done.
Qed.

Lemma Allocation_new_nonneg (a m h : Z) :
  0 <= a -> 0 <= m -> 0 <= h ->
  Allocation_new a m h = Ok (mkAllocation a m h).
Proof.
  intros Ha Hm Hh. unfold Allocation_new. simpl.
  destruct (Z.ltb_spec a 0), (Z.ltb_spec m 0), (Z.ltb_spec h 0);
    simpl; try lia; reflexivity.
Qed.

Lemma copy_items_nonneg (l : list (string * option Allocation)) :
  (forall k a, (k, Some a) ∈ l -> nonneg a) ->
  copy_items l = Ok (list_to_map l).
Proof.
  induction l as [|[k v] rest IH]; intros Hl; simpl; [done|].
  assert (Hv : copy_entry v = Ok v).
  { destruct v as [a|]; simpl; [|done].
    destruct (Hl k a) as (? & ? & ?); [apply list_elem_of_here|].
    rewrite Allocation_new_nonneg by done. by destruct a. }
  rewrite Hv. simpl. rewrite IH; [done|].
  intros k' a Hin. apply (Hl k'). by apply list_elem_of_further.
Qed.

Lemma Offer_copy_nonneg (o : Offer) :
  offer_counts_nonneg o -> Offer_copy o = Ok o.
Proof.
  intros Ho. unfold Offer_copy. rewrite copy_items_nonneg.
  - simpl. rewrite list_to_map_to_list. by destruct o.
  - intros k a Hin. apply elem_of_map_to_list in Hin.
    apply (Ho k). unfold Offer_getitem. by rewrite Hin.
Qed.

Lemma give_from_agent_ok (current : Allocation) :
  nonneg current -> 0 < agent current ->
  give_from_agent current = Ok (one_unit_to_human current).
Proof.
  intros (Ha & Hm & Hh) Hpos. unfold give_from_agent, one_unit_to_human.
  rewrite Allocation_new_nonneg by lia.
  by rewrite (proj2 (Z.ltb_lt 0 (agent current)) Hpos).
Qed.

Lemma give_from_middle_ok (current : Allocation) :
  nonneg current -> ~ 0 < agent current -> 0 < middle current ->
  give_from_middle current = Ok (one_unit_to_human current).
Proof.
  intros (Ha & Hm & Hh) Hzero Hpos. unfold give_from_middle, one_unit_to_human.
  rewrite Allocation_new_nonneg by lia.
  by rewrite (proj2 (Z.ltb_ge 0 (agent current))) by lia.
Qed.

Lemma concede_stack_b_first (g : GameSpec) (names : list string)
    (offer : Offer) :
  offer_counts_nonneg offer ->
  concede_stack_b g names offer =
    Ok (match find (can_give g offer true) names with
        | Some n => concede_at offer n
        | None => None
        end).
Proof.
  intros Hwf. induction names as [|n rest IH]; simpl; [done|].
  unfold can_give at 1, concede_at at 1.
  destruct (get_issue g n); [|exact IH].
  destruct (Offer_getitem offer n) as [current|] eqn:Hget; [|exact IH].
  destruct (Z.ltb_spec 0 (agent current)) as [Hpos|Hzero]; simpl.
  - rewrite Hget. by rewrite give_from_agent_ok by eauto.
  - destruct (Z.ltb_spec 0 (middle current)) as [Hmid|Hnomid]; simpl.
    + rewrite Hget. by rewrite give_from_middle_ok by (eauto; lia).
    + exact IH.
Qed.

Lemma concede_agent_unit_first (g : GameSpec) (names : list string)
    (offer : Offer) :
  offer_counts_nonneg offer ->
  concede_agent_unit g names offer =
    Ok (match find (can_give g offer false) names with
        | Some n => concede_at offer n
        | None => None
        end).
Proof.
  intros Hwf. induction names as [|n rest IH]; simpl; [done|].
  unfold can_give at 1, concede_at at 1.
  destruct (get_issue g n); [|exact IH].
  destruct (Offer_getitem offer n) as [current|] eqn:Hget; [|exact IH].
  destruct (Z.ltb_spec 0 (agent current)) as [Hpos|Hzero]; simpl.
  - rewrite Hget. by rewrite give_from_agent_ok by eauto.
  - exact IH.
Qed.

Lemma find_app_first {A} (f : A -> bool) (l1 l2 : list A) :
  find f (l1 ++ l2) = match find f l1 with
                      | Some x => Some x
                      | None => find f l2
                      end.
Proof.
  induction l1 as [|x rest IH]; simpl; [done|]. by destruct (f x).
Qed.

Lemma find_tagged {A B} (f : B -> bool) (tag : A -> B) (l : list A) :
  find f (map tag l) = option_map tag (find (fun x => f (tag x)) l).
Proof.
  induction l as [|x rest IH]; simpl; [done|]. by destruct (f (tag x)).
Qed.

Lemma find_first_split {A} (f : A -> bool) (l : list A) (x : A) :
  find f l = Some x ->
  exists before after,
    l = before ++ x :: after
    /\ (forall y, y ∈ before -> f y = false)
    /\ f x = true.
Proof.
  induction l as [|y rest IH]; simpl; [done|].
  destruct (f y) eqn:Hy.
  - intros [= ->]. exists [], rest. split; [done|]. split; [|done].
    intros z Hz. by apply elem_of_nil in Hz.
  - intros Hfind. destruct (IH Hfind) as (before & after & -> & Hb & Hx).
    exists (y :: before), after. split; [done|]. split; [|done].
    intros z Hz. apply elem_of_cons in Hz as [->|Hz]; [done | by apply Hb].
Qed.

Lemma find_nothing {A} (f : A -> bool) (l : list A) :
  find f l = None <-> forall y, y ∈ l -> f y = false.
Proof.
  induction l as [|y rest IH]; simpl.
  - split; [intros _ z Hz; by apply elem_of_nil in Hz | done].
  - destruct (f y) eqn:Hy.
    + split; [done|]. intros H. specialize (H y (list_elem_of_here _ _)).
      congruence.
    + rewrite IH. split.
      * intros H z Hz. apply elem_of_cons in Hz as [->|Hz]; [done | by apply H].
      * intros H z Hz. apply H. by apply list_elem_of_further.
Qed.

Lemma can_give_addressed (g : GameSpec) (offer : Offer) (m : bool)
    (n : string) :
  can_give g offer m n = true ->
  exists current,
    Offer_getitem offer n = Some current
    /\ (0 < agent current \/ (m = true /\ 0 < middle current)).
Proof.
  unfold can_give. destruct (get_issue g n); [|done].
  destruct (Offer_getitem offer n) as [current|]; [|done].
  intros H. exists current. split; [done|].
  apply orb_prop in H as [H|H].
  - left. by apply Z.ltb_lt.
  - right. apply andb_prop in H as [-> H]. split; [done | by apply Z.ltb_lt].
Qed.

(** [_make_concession] changes the first issue of the search order that
    can give a unit, and returns none when there is no such issue. *)
Lemma _make_concession_first (c : NegoChatCore) (proposal : Offer) :
  _current_proposal c = Some proposal ->
  offer_counts_nonneg proposal ->
  _make_concession c =
    Ok (match find (gives (game c) proposal) (search_order (stacks c)) with
        | Some x =>
            match concede_at proposal x.1 with
            | Some o => (Some o, set_proposal o 1 1 c)
            | None => (None, c)
            end
        | None => (None, c)
        end).
Proof.
  intros Hcur Hwf. unfold _make_concession. rewrite Hcur.
  rewrite Offer_copy_nonneg by done. simpl rbind.
  rewrite concede_stack_b_first by done. simpl rbind.
  unfold search_order. rewrite !find_app_first, !find_tagged.
  change (fun x : string => gives (game c) proposal (x, true))
    with (can_give (game c) proposal true).
  change (fun x : string => gives (game c) proposal (x, false))
    with (can_give (game c) proposal false).
  destruct (find (can_give (game c) proposal true) (stack_b (stacks c)))
    as [n|] eqn:Hb; simpl.
  - apply find_some in Hb as [_ Hb].
    apply can_give_addressed in Hb as (current & Hget & _).
    unfold concede_at. by rewrite Hget.
  - rewrite concede_agent_unit_first by done. simpl rbind.
    destruct (find (can_give (game c) proposal false) (neutral (stacks c)))
      as [n|] eqn:Hn; simpl.
    + apply find_some in Hn as [_ Hn].
      apply can_give_addressed in Hn as (current & Hget & _).
      unfold concede_at. by rewrite Hget.
    + rewrite concede_agent_unit_first by done. simpl rbind.
      destruct (find (can_give (game c) proposal false)
                  (rev (stack_a (stacks c)))) as [n|] eqn:Ha; simpl; [|done].
      apply find_some in Ha as [_ Ha].
      apply can_give_addressed in Ha as (current & Hget & _).
      unfold concede_at. by rewrite Hget.
Qed.

(** C7, as the code has it: with a current proposal (of non-negative
    counts), [_make_concession] raises nothing. It visits the issues of
    [stack_b], then [neutral], then [stack_a] from its last entry to its
    first, skipping names that are no issue of the game or that the
    proposal does not address. The first issue visited of which the agent
    holds a unit, or, in [stack_b] only, of which a unit is undecided,
    gives one unit to the human (the agent's unit if there is one, else
    the undecided one); every other entry of the proposal is unchanged,
    and the new offer becomes the current proposal. It returns none,
    leaving the core as it was, exactly when no issue visited can give a
    unit in that sense; undecided units of [neutral] and [stack_a] issues
    are never given. *)
Theorem make_concession_gives_first_unit
    (c : NegoChatCore) (proposal : Offer) :
  _current_proposal c = Some proposal ->
  offer_nonneg proposal = true ->
  let order := search_order (stacks c) in
  (exists r, _make_concession c = Ok r) /\
  (forall o' c',
     _make_concession c = Ok (Some o', c') ->
     exists before n from_middle after current new,
       order = before ++ (n, from_middle) :: after
       /\ (forall x, x ∈ before -> gives (game c) proposal x = false)
       /\ is_Some (get_issue (game c) n)
       /\ Offer_getitem proposal n = Some current
       /\ o' = Offer_setitem proposal n (Some new)
       /\ human new = human current + 1
       /\ ((0 < agent current /\ agent new = agent current - 1
            /\ middle new = middle current)
           \/ (from_middle = true /\ agent current = 0 /\ agent new = 0
               /\ 0 < middle current /\ middle new = middle current - 1))
       /\ (forall n', n' <> n ->
             allocations o' !! n' = allocations proposal !! n')
       /\ c' = set_proposal o' 1 1 c) /\
  (forall r, _make_concession c = Ok r ->
     (r.1 = None <->
      forall x, x ∈ order -> gives (game c) proposal x = false)) /\
  (forall r, _make_concession c = Ok r -> r.1 = None -> r.2 = c).
Proof.
  intros Hcur Hwf%offer_nonneg_counts order. subst order.
  rewrite (_make_concession_first c proposal Hcur Hwf).
  destruct (find (gives (game c) proposal) (search_order (stacks c)))
    as [[n m]|] eqn:Hfind.
  - pose proof (find_first_split _ _ _ Hfind) as (before & after & Hsplit & Hb & Hx).
    unfold gives in Hx. simpl in Hx.
    pose proof (can_give_addressed _ _ _ _ Hx) as (current & Hget & Hunit).
    unfold concede_at. simpl. rewrite Hget.
    split; [by eexists|]. split; [|split].
    + intros o' c' [= <- <-].
      exists before, n, m, after, current, (one_unit_to_human current).
      split; [done|]. split; [done|]. split.
      { unfold can_give in Hx. by destruct (get_issue (game c) n). }
      split; [done|]. split; [done|].
      destruct (Hwf n current Hget) as (Ha & Hm & Hh).
      unfold one_unit_to_human.
      destruct (Z.ltb_spec 0 (agent current)) as [Hpos|Hzero]; simpl.
      * split; [done|]. split; [by left|]. split; [|done].
        intros n' Hne. by apply lookup_insert_ne.
      * split; [done|]. split.
        { right. destruct Hunit as [?|[-> ?]]; [lia|].
          repeat split; lia. }
        split; [|done]. intros n' Hne. by apply lookup_insert_ne.
    + intros r [= <-]. simpl. split; [done|].
      intros Hnone. rewrite Hsplit in Hnone.
      specialize (Hnone (n, m)). unfold gives in Hnone. simpl in Hnone.
      rewrite Hx in Hnone. discriminate Hnone.
      apply elem_of_app. right. apply list_elem_of_here.
    + intros r [= <-]. done.
  - split; [by eexists|]. split; [|split].
    + intros o' c' [=].
    + intros r [= <-]. simpl. split; [|done].
      intros _. by apply find_nothing.
    + by intros r [= <-].
Qed.

End ConcessionFacts.

(** ** The sample negotiation as instances *)
Section NegoChatInstances.
Import Models NegoChat Games Examples.

Lemma stack_partition_witness :
  ("oranges" ∈ neutral (stacks classic_core)) /\
  ("oranges" ∉ stack_a (stacks classic_core)) /\
  ("oranges" ∉ stack_b (stacks classic_core)).
Proof.
  destruct (stack_partition_by_sign classic_resource_game
              classic_agent_utility classic_human_utility BALANCED
              (4 # 10) (1 # 10) "oranges"
              ltac:(apply (bool_decide_unpack _); vm_compute; exact I))
    as (_ & Ha & Hb & Hz & _).
  split; [apply Hz; vm_compute; reflexivity|].
  split; [rewrite Ha | rewrite Hb]; vm_compute; discriminate.
Defined.

Lemma make_concession_witness :
  exists o',
    _make_concession opened_core = Ok (Some o', set_proposal o' 1 1 opened_core)
    /\ Offer_getitem o' "bananas" = Some (mkAllocation 0 0 2)
    /\ Offer_getitem o' "apples" = Some (mkAllocation 4 0 0)
    /\ Offer_getitem o' "oranges" = Some (mkAllocation 1 1 1).
Proof.
  destruct (make_concession_gives_first_unit opened_core opening_offer
              eq_refl ltac:(vm_compute; reflexivity))
    as ([[o c'] Hr] & Hsome & Hnone & _).
  destruct o as [o'|].
  - exists o'.
    assert (Hrun : _make_concession opened_core
                   = Ok (Some (mkOffer (list_to_map
                            [("apples", Some (mkAllocation 4 0 0));
                             ("oranges", Some (mkAllocation 1 1 1));
                             ("bananas", Some (mkAllocation 0 0 2))])),
                         c'))
      by (rewrite Hr; vm_compute in Hr; injection Hr as <- <-;
          vm_compute; reflexivity).
    rewrite Hr in Hrun. injection Hrun as ->.
    destruct (Hsome _ _ Hr) as (_ & _ & _ & _ & _ & _ & _ & _ & _ & _ & _ & _
                                & _ & _ & ->).
    split; [exact Hr|]. repeat (split; [vm_compute; reflexivity|]).
    vm_compute; reflexivity.
  - exfalso. vm_compute in Hr. discriminate Hr.
Defined.

(** C7 as stated fails: six concessions after the opening offer of the
    classic game, [_make_concession] returns none although one unit of
    oranges is still undecided, not on the human's side. *)
Lemma concession_none_with_undecided_unit :
  (r <-- get_opening_offer classic_core ;; concede_times 6 r.2)
    = Ok exhausted_core /\
  _current_proposal exhausted_core = Some last_offer /\
  _make_concession exhausted_core = Ok (None, exhausted_core) /\
  Offer_getitem last_offer "oranges" = Some (mkAllocation 0 1 2) /\
  ~ all_with_opponent (game exhausted_core) last_offer.
Proof.
  split; [vm_compute; reflexivity|]. split; [reflexivity|].
  split; [vm_compute; reflexivity|]. split; [vm_compute; reflexivity|].
  intros H.
  destruct (H (mkIssue "oranges" "Oranges" 3 false)) as (a & Hget & _ & Hm).
  - apply list_elem_of_further, list_elem_of_here.
  - vm_compute in Hget. injection Hget as <-. discriminate Hm.
Defined.

End NegoChatInstances.

(** ** The delay queue *)
Section BusFacts.
Import Events Bus Examples.

(** Two different events with the same fire time cannot be compared. *)
Lemma item_lt_tie (x y : item) :
  Qeq_bool x.1 y.1 = true ->
  Event_eqb x.2 y.2 = false ->
  item_lt x y
  = Raise (TypeError
      "'<' not supported between instances of 'Event' and 'Event'").
Proof. intros Ht He. unfold item_lt. by rewrite Ht, He. Qed.

(** Queueing behind a single item of the same fire time raises. *)
Lemma put_tie_raises (old new : item) :
  Qeq_bool new.1 old.1 = true ->
  Event_eqb new.2 old.2 = false ->
  put [old] new
  = Raise (TypeError
      "'<' not supported between instances of 'Event' and 'Event'").
Proof.
  intros Ht He. unfold put, heappush, _siftdown. simpl.
  by rewrite item_lt_tie.
Qed.

(** With fire times that all differ, the queue hands the events out in
    ascending fire-time order, whatever the order of publication. *)
Example distinct_fire_times_in_order :
  exists bus bus',
    publish_all publish_distinct listening_bus = Ok bus
    /\ world bus = []
    /\ process_delayed_events (t0 + 5)%Q bus
       = Ok ([event_a; event_b; event_d], bus')
    /\ world bus' = ["aaaaaaaa"; "bbbbbbbb"; "dddddddd"]
    /\ _delayed_queue bus' = [].
Proof.
  eexists _, _. split; [vm_compute; reflexivity|].
  split; [reflexivity|]. split; [vm_compute; reflexivity|].
  split; reflexivity.
Qed.

(** C9 at a tie: [event_b] and [event_c] are different events with the
    same fire time. Published one after the other into an empty queue,
    the second [publish] raises [TypeError]. Published after [event_a],
    which is due earlier, both are queued, and
    [process_delayed_events] then raises [TypeError] when it takes
    [event_a] off the queue: nothing is dispatched. *)
Theorem equal_fire_times_raise :
  (t0 + inject_Z (delay_ms event_b) / 1000
     == (t0 + (1 # 2)) + inject_Z (delay_ms event_c) / 1000)%Q /\
  Event_eqb event_b event_c = false /\
  (exists bus,
     publish t0 event_b listening_bus = Ok bus
     /\ publish (t0 + (1 # 2))%Q event_c bus
        = Raise (TypeError
            "'<' not supported between instances of 'Event' and 'Event'")) /\
  (exists bus,
     publish_all publish_tied listening_bus = Ok bus
     /\ length (_delayed_queue bus) = 3%nat
     /\ process_delayed_events (t0 + 5)%Q bus
        = Raise (TypeError
            "'<' not supported between instances of 'Event' and 'Event'")).
Proof.
  split; [vm_compute; reflexivity|]. split; [vm_compute; reflexivity|].
  split.
  - eexists. split; vm_compute; reflexivity.
  - eexists. split; [vm_compute; reflexivity|].
    split; vm_compute; reflexivity.
Qed.

End BusFacts.

(** * Further properties *)

(** ** Allocations and offers *)
Section OfferFacts.
Import Models.

(** [split_even] hands both parties the same number of units and leaves the
    odd unit, if any, undecided; nothing is lost. A negative quantity is
    refused by the constructor. *)
Theorem split_even_conserves (q : Z) :
  (0 <= q ->
   exists a, split_even q = Ok a
             /\ agent a + middle a + human a = q
             /\ agent a = human a
             /\ 0 <= agent a
             /\ (middle a = 0 \/ middle a = 1)
             /\ (middle a = 0 <-> Z.even q = true)) /\
  (q < 0 ->
   split_even q = Raise (ValueError "Allocation values cannot be negative")).
Proof.
  split; intros Hq; unfold split_even, Allocation_new; simpl.
  - pose proof (Z.div_mod q 2 ltac:(lia)) as Hdm.
    pose proof (Z.mod_pos_bound q 2 ltac:(lia)) as Hmod.
    assert (Hdiv : 0 <= q / 2) by (apply Z.div_pos; lia).
    destruct (Z.ltb_spec (q / 2) 0); [lia|].
    destruct (Z.ltb_spec (q - q / 2 * 2) 0); [lia|]. simpl.
    eexists. split; [reflexivity|]. simpl.
    repeat split; try lia.
    + intros Hm. rewrite Zeven_mod. apply Z.eqb_eq. lia.
    + intros He. rewrite Zeven_mod in He. apply Z.eqb_eq in He. lia.
  - assert (Hdiv : q / 2 < 0) by (apply Z.div_lt_upper_bound; lia).
    by destruct (Z.ltb_spec (q / 2) 0); [|lia].
Qed.

Lemma split_even_witness :
  exists a, split_even 3 = Ok a /\ agent a = 1 /\ middle a = 1 /\ human a = 1.
Proof.
  destruct (split_even_conserves 3) as [Hpos _].
  destruct (Hpos ltac:(lia)) as (a & Hrun & _).
  exists a. split; [exact Hrun|].
  vm_compute in Hrun. injection Hrun as <-. repeat split.
Defined.

Lemma entry_from_dict_to_tuple (a : Allocation) :
  nonneg a -> entry_from_dict (Allocation_to_tuple a) = Ok (Some a).
Proof.
  intros (Ha & Hm & Hh). destruct a as [x y z]. simpl in *.
  unfold entry_from_dict, Allocation_to_tuple, Allocation_from_tuple,
    check_count. simpl.
  repeat (rewrite (proj2 (Z.ltb_ge _ 0)) by lia; simpl). reflexivity.
Qed.

Lemma foldl_insert_rev {V} (l : list (string * V)) (acc : gmap string V) :
  foldl (fun m kv => <[kv.1 := kv.2]> m) acc l
  = foldr (fun kv m => <[kv.1 := kv.2]> m) acc (rev l).
Proof.
  revert acc. induction l as [|kv rest IH]; intros acc; simpl; [done|].
  by rewrite IH, foldr_app.
Qed.

Lemma from_dict_items_encoded (l : list (string * option Allocation))
    (acc : gmap string (option Allocation)) :
  (forall k a, (k, Some a) ∈ l -> nonneg a) ->
  from_dict_items
    (map (fun kv : string * option Allocation =>
            (kv.1, match kv.2 with
                   | Some alloc => Allocation_to_tuple alloc
                   | None => PNone
                   end)) l) acc
  = Ok (foldl (fun m kv => <[kv.1 := kv.2]> m) acc l).
Proof.
  revert acc. induction l as [|[k v] rest IH]; intros acc Hl; simpl; [done|].
  assert (Hv : entry_from_dict (match v with
                                | Some alloc => Allocation_to_tuple alloc
                                | None => PNone
                                end) = Ok v).
  { destruct v as [a|]; [|done]. apply entry_from_dict_to_tuple.
    apply (Hl k). apply list_elem_of_here. }
  rewrite Hv. simpl. apply IH.
  intros k' a Hin. apply (Hl k'). by apply list_elem_of_further.
Qed.

(** [Offer.from_dict(offer.to_dict())] gives the offer back: entries that
    are [None] stay [None], allocations come back with the same counts. *)
Theorem Offer_from_dict_to_dict (o : Offer) :
  offer_nonneg o = true ->
  Offer_from_dict (Offer_to_dict o) = Ok o.
Proof.
  intros Hwf%offer_nonneg_counts.
  unfold Offer_from_dict, Offer_to_dict.
  rewrite from_dict_items_encoded.
  - simpl. rewrite foldl_insert_rev.
    change (foldr (fun kv m => <[kv.1 := kv.2]> m) ∅
              (rev (map_to_list (allocations o))))
      with (list_to_map (M := gmap string (option Allocation))
              (rev (map_to_list (allocations o)))).
    rewrite (list_to_map_proper _ (map_to_list (allocations o))).
    + rewrite list_to_map_to_list. by destruct o.
    + rewrite <- (Permutation_rev (map_to_list (allocations o))).
      apply NoDup_fst_map_to_list.
    + symmetry. apply Permutation_rev.
  - intros k a Hin. apply elem_of_map_to_list in Hin.
    apply (Hwf k). unfold Offer_getitem. by rewrite Hin.
Qed.

Lemma Offer_from_dict_to_dict_witness :
  Offer_from_dict (Offer_to_dict Examples.opening_offer)
  = Ok Examples.opening_offer.
Proof.
  apply (Offer_from_dict_to_dict Examples.opening_offer).
  vm_compute. reflexivity.
Defined.

End OfferFacts.

(** ** The initial offer of a session *)
Section InitialOfferFacts.
Import Models Events Session.

Lemma all_in_middle_items_fold (l : list Issue)
    (acc : gmap string (option Allocation)) :
  (forall issue, issue ∈ l -> 0 <= quantity issue) ->
  all_in_middle_items l acc
  = Ok (foldl (fun m issue =>
                 <[name issue := Some (mkAllocation 0 (quantity issue) 0)]> m)
              acc l).
Proof.
  revert acc. induction l as [|issue rest IH]; intros acc Hq; simpl; [done|].
  unfold all_in_middle.
  rewrite Allocation_new_nonneg;
    [|lia|apply Hq, list_elem_of_here|lia]. simpl.
  apply IH. intros i Hi. apply Hq. by apply list_elem_of_further.
Qed.

Lemma middle_fold_other (l : list Issue)
    (acc : gmap string (option Allocation)) (k : string) :
  k ∉ map name l ->
  foldl (fun m issue =>
           <[name issue := Some (mkAllocation 0 (quantity issue) 0)]> m)
        acc l !! k = acc !! k.
Proof.
  revert acc. induction l as [|issue rest IH]; intros acc Hk; simpl; [done|].
  simpl in Hk. apply not_elem_of_cons in Hk as [Hne Hk].
  rewrite IH by done. by rewrite lookup_insert_ne.
Qed.

Lemma middle_fold_issue (l : list Issue)
    (acc : gmap string (option Allocation)) (issue : Issue) :
  NoDup (map name l) -> issue ∈ l ->
  foldl (fun m issue =>
           <[name issue := Some (mkAllocation 0 (quantity issue) 0)]> m)
        acc l !! name issue
  = Some (Some (mkAllocation 0 (quantity issue) 0)).
Proof.
  revert acc. induction l as [|i rest IH]; intros acc Hnd Hin; simpl.
  - by apply elem_of_nil in Hin.
  - simpl in Hnd. apply NoDup_cons in Hnd as [Hfresh Hnd].
    apply elem_of_cons in Hin as [->|Hin].
    + rewrite middle_fold_other by done. by rewrite lookup_insert_eq.
    + by apply IH.
Qed.

Lemma middle_fold_entries (l : list Issue)
    (acc : gmap string (option Allocation)) (k : string)
    (v : option Allocation) :
  foldl (fun m issue =>
           <[name issue := Some (mkAllocation 0 (quantity issue) 0)]> m)
        acc l !! k = Some v ->
  acc !! k = Some v \/
  exists issue, issue ∈ l /\ v = Some (mkAllocation 0 (quantity issue) 0).
Proof.
  revert acc. induction l as [|i rest IH]; intros acc Hk; simpl in *;
    [by left|].
  apply IH in Hk as [Hk|(issue & Hin & ->)].
  - destruct (decide (name i = k)) as [<-|Hne].
    + rewrite lookup_insert_eq in Hk. injection Hk as <-.
      right. exists i. split; [apply list_elem_of_here | done].
    + rewrite lookup_insert_ne in Hk by done. by left.
  - right. exists issue. split; [by apply list_elem_of_further | done].
Qed.

(** A session over a game whose issues have distinct names and at least
    one unit each starts with every unit undecided: the initial offer
    passes [validate_offer] and is not complete, so no formal acceptance
    is possible before an offer has been made. *)
Theorem new_session_offer_undecided
    (g : GameSpec) (sid : option string) (now : Q) :
  NoDup (map name (issues g)) ->
  (forall issue, issue ∈ issues g -> 1 <= quantity issue) ->
  exists s0,
    NegotiationSession_new g sid now = Ok s0
    /\ _state s0 = NOT_STARTED
    /\ validate_offer g (_current_offer s0) = (true, "")
    /\ (forall issue, issue ∈ issues g ->
          Offer_getitem (_current_offer s0) (name issue)
          = Some (mkAllocation 0 (quantity issue) 0))
    /\ Offer_is_complete (_current_offer s0) = false
    /\ can_formally_accept s0 = false.
Proof.
  intros Hnd Hq. unfold NegotiationSession_new, create_initial_offer,
    Offer_all_in_middle.
  rewrite all_in_middle_items_fold
    by (intros i Hi; specialize (Hq i Hi); lia).
  simpl. eexists. split; [reflexivity|]. simpl.
  assert (Hget : forall issue, issue ∈ issues g ->
            Offer_getitem
              (mkOffer (foldl (fun m issue =>
                 <[name issue := Some (mkAllocation 0 (quantity issue) 0)]> m)
                 ∅ (issues g))) (name issue)
            = Some (mkAllocation 0 (quantity issue) 0)).
  { intros issue Hin. unfold Offer_getitem. simpl.
    by rewrite middle_fold_issue. }
  split; [done|]. split; [|split; [exact Hget|]].
  - assert (Hok : (validate_offer g
               (mkOffer (foldl (fun m issue =>
                 <[name issue := Some (mkAllocation 0 (quantity issue) 0)]> m)
                 ∅ (issues g)))).1 = true).
    { apply validate_issues_ok. intros issue alloc Hin Ha.
      rewrite Hget in Ha by done. injection Ha as <-. simpl. lia. }
    pose proof (validate_issues_message _ _ Hok) as Hmsg.
    unfold validate_offer in *.
    destruct (validate_issues _ _) as [b m]. simpl in *. by subst.
  - split; [|done]. unfold Offer_is_complete. simpl.
    case_bool_decide as Hempty; [done|].
    destruct (map_to_list _) as [|[k v] rest] eqn:Hlist.
    + by apply map_to_list_empty_iff in Hlist.
    + simpl.
      assert (Hin : (k, v) ∈ map_to_list
                (foldl (fun m issue =>
                   <[name issue := Some (mkAllocation 0 (quantity issue) 0)]> m)
                   (∅ : gmap string (option Allocation)) (issues g))).
      { rewrite Hlist. apply list_elem_of_here. }
      apply elem_of_map_to_list, middle_fold_entries in Hin
        as [Hin|(issue & Hi & ->)]; [by rewrite lookup_empty in Hin|].
      unfold Allocation_is_complete. simpl.
      specialize (Hq issue Hi).
      by destruct (Z.eqb_spec (quantity issue) 0); [lia|].
Qed.

Lemma new_session_offer_undecided_witness :
  exists s0,
    NegotiationSession_new Games.classic_resource_game None Examples.t0 = Ok s0
    /\ Offer_getitem (_current_offer s0) "apples" = Some (mkAllocation 0 4 0)
    /\ can_formally_accept s0 = false.
Proof.
  destruct (new_session_offer_undecided Games.classic_resource_game None
              Examples.t0) as (s0 & Hnew & _ & _ & Hget & _ & Hcan).
  - apply (bool_decide_unpack _). vm_compute. exact I.
  - intros issue Hin. apply list_elem_of_In in Hin. simpl in Hin.
    destruct Hin as [<-|[<-|[<-|[]]]]; simpl; lia.
  - exists s0. split; [exact Hnew|]. split; [|exact Hcan].
    apply (Hget (mkIssue "apples" "Apples" 4 false)), list_elem_of_here.
Defined.

End InitialOfferFacts.

(** ** More on the session *)
Section SessionRunFacts.
Import Models Events Session.

Lemma _handle_offer_shape (e : Event) (s s' : NegotiationSession)
    (out : list string) :
  _handle_offer e s = Ok (s', out) ->
  s' = s \/
  exists offer lh la,
    (validate_offer (game s) offer).1 = true
    /\ s' = mkSession (game s) (session_id s) (_state s) offer
              (mkFormalAcceptance false false None None) (_history s)
              (_start_time s) (_end_time s) lh la.
Proof.
  unfold _handle_offer. destruct (truthy (get_offer e)); [|by intros [= <- _]; left].
  destruct (get_offer e) as [| | | | | | |d]; try discriminate. simpl.
  destruct (Offer_from_dict d) as [offer|]; [|discriminate]. simpl.
  destruct (validate_offer (game s) offer) as [valid msg] eqn:Hv.
  destruct valid; simpl.
  - intros [= <- _]. right. exists offer.
    destruct (String.eqb _ _); simpl; do 2 eexists; by rewrite Hv.
  - intros [= <- _]. by left.
Qed.

Lemma apply_event_history (now : Q) (e : Event) (s : NegotiationSession) :
  game (session (apply_event now e s)) = game s /\
  session_id (session (apply_event now e s)) = session_id s /\
  _start_time (session (apply_event now e s)) = _start_time s /\
  (_history (session (apply_event now e s)) = _history s \/
   _history (session (apply_event now e s)) = _history s ++ [e]).
Proof.
  destruct (is_active s) eqn:Hact.
  - rewrite apply_event_active by done. cbv zeta.
    destruct (event_type e); simpl; try (repeat split; by right).
    + destruct (_handle_offer e (history_add e s)) as [[s2 out]|x] eqn:Hoff;
        simpl; [|repeat split; by right].
      apply _handle_offer_shape in Hoff as [->|(offer & lh & la & _ & ->)];
        simpl; repeat split; by right.
    + unfold _handle_formal_accept.
      destruct (Offer_is_complete _); simpl; [|repeat split; by right].
      match goal with |- context [if both_accepted ?a then _ else _] =>
        destruct (both_accepted a) end; simpl; repeat split; by right.
  - rewrite apply_event_inactive by done.
    destruct (event_type e); simpl; repeat split; (by left) || (by right).
Qed.

(** The history is append-only: a run of [apply_event] calls leaves the
    earlier history in place and adds, in order, some of the events it was
    given; the game, the session id and the start time never change. *)
Theorem history_append_only (evs : list (Q * Event)) (s : NegotiationSession) :
  exists added,
    _history (apply_events evs s) = _history s ++ added
    /\ sublist added (map snd evs)
    /\ game (apply_events evs s) = game s
    /\ session_id (apply_events evs s) = session_id s
    /\ _start_time (apply_events evs s) = _start_time s.
Proof.
  revert s. induction evs as [|[now e] rest IH]; intros s; simpl.
  - exists []. rewrite app_nil_r. repeat split. constructor.
  - destruct (IH (session (apply_event now e s)))
      as (added & Hh & Hsub & Hg & Hid & Hst).
    destruct (apply_event_history now e s) as (Hg1 & Hid1 & Hst1 & [Hh1|Hh1]).
    + exists added. rewrite Hh, Hh1, Hg, Hid, Hst. repeat split; try done.
      by apply sublist_cons.
    + exists (e :: added). rewrite Hh, Hh1, Hg, Hid, Hst, <- app_assoc.
      repeat split; try done. by apply sublist_skip.
Qed.

(** Whether an event is still recorded by a session that is not in
    progress. *)
Lemma apply_event_frozen (now : Q) (e : Event) (s : NegotiationSession) :
  is_active s = false ->
  session (apply_event now e s)
  = if recorded_when_inactive e then history_add e s else s.
Proof.
  intros Hact. rewrite apply_event_inactive by done.
  unfold recorded_when_inactive. by destruct (event_type e).
Qed.

(** A session that is not in progress (not started, or finished) is
    frozen: whatever events arrive, its state, offer, acceptance record,
    times and last offers stay as they are, and only [GAME_START] and
    [TIME] events are added to the history. In particular [apply_event]
    neither starts a session nor revives a finished one. *)
Theorem inactive_session_frozen
    (evs : list (Q * Event)) (s : NegotiationSession) :
  is_active s = false ->
  apply_events evs s
  = mkSession (game s) (session_id s) (_state s) (_current_offer s)
      (_acceptance s)
      (_history s ++ List.filter recorded_when_inactive (map snd evs))
      (_start_time s) (_end_time s)
      (_last_human_offer s) (_last_agent_offer s).
Proof.
  revert s. induction evs as [|[now e] rest IH]; intros s Hact; simpl.
  - rewrite app_nil_r. by destruct s.
  - rewrite apply_event_frozen by done.
    destruct (recorded_when_inactive e); simpl.
    + rewrite IH by done. simpl. by rewrite <- app_assoc.
    + by apply IH.
Qed.

Lemma inactive_session_frozen_witness :
  _state (apply_events
            [((Examples.t0 + 8)%Q, Examples.agent_offers);
             ((Examples.t0 + 9)%Q, Examples.start_event)]
            (apply_events Examples.agreement_run Examples.started_session))
  = COMPLETED.
Proof.
  rewrite (inactive_session_frozen
             [((Examples.t0 + 8)%Q, Examples.agent_offers);
              ((Examples.t0 + 9)%Q, Examples.start_event)]
             (apply_events Examples.agreement_run Examples.started_session)
             ltac:(vm_compute; reflexivity)).
  vm_compute. reflexivity.
Defined.

(** A [GAME_END] event built by [Event.game_end] ends a session in
    progress: the state becomes [TIMED_OUT] for the reason ["timeout"],
    [CANCELLED] for ["cancelled"] and [COMPLETED] for every other reason;
    the end time is recorded, and the offer and the acceptance record are
    left as they are. *)
Theorem game_end_event_ends_session
    (now : Q) (eid : string) (t : Q) (reason : string) (final_offer : pyval)
    (s : NegotiationSession) :
  is_active s = true ->
  let s' := session (apply_event now (game_end eid t reason final_offer) s) in
  _state s' = (if String.eqb reason "timeout" then TIMED_OUT
               else if String.eqb reason "cancelled" then CANCELLED
               else COMPLETED)
  /\ is_active s' = false
  /\ _end_time s' = Some now
  /\ _current_offer s' = _current_offer s
  /\ _acceptance s' = _acceptance s
  /\ _history s' = _history s ++ [game_end eid t reason final_offer].
Proof.
  intros Hact s'. subst s'. rewrite apply_event_active by done.
  cbv zeta. simpl event_type. cbv iota.
  unfold _handle_game_end, _complete_negotiation.
  assert (Hreason : dict_get_default
            (payload (game_end eid t reason final_offer)) "reason"
            (PStr "unknown") = PStr reason).
  { unfold game_end. simpl. by destruct (truthy final_offer). }
  rewrite Hreason. unfold is_str. simpl.
  repeat split; unfold is_active; simpl;
    by destruct (String.eqb reason "timeout"), (String.eqb reason "cancelled").
Qed.

Lemma game_end_event_witness :
  _state (session (apply_event (Examples.t0 + 300)%Q
                     (game_end "e0000009" (Examples.t0 + 300)%Q "timeout" PNone)
                     Examples.started_session)) = TIMED_OUT.
Proof.
  destruct (game_end_event_ends_session (Examples.t0 + 300)%Q "e0000009"
              (Examples.t0 + 300)%Q "timeout" PNone Examples.started_session
              eq_refl) as [Hst _].
  exact Hst.
Defined.

Lemma apply_event_keeps_valid (now : Q) (e : Event) (s : NegotiationSession) :
  (validate_offer (game s) (_current_offer s)).1 = true ->
  (validate_offer (game (session (apply_event now e s)))
     (_current_offer (session (apply_event now e s)))).1 = true.
Proof.
  intros Hval.
  destruct (is_active s) eqn:Hact.
  - rewrite apply_event_active by done. cbv zeta.
    destruct (event_type e); simpl; try done.
    + destruct (_handle_offer e (history_add e s)) as [[s2 out]|x] eqn:Hoff;
        simpl; [|done].
      by apply _handle_offer_shape in Hoff as [->|(offer & lh & la & Hv & ->)].
    + unfold _handle_formal_accept.
      destruct (Offer_is_complete _); simpl; [|done].
      match goal with |- context [if both_accepted ?a then _ else _] =>
        destruct (both_accepted a) end; simpl; done.
  - rewrite apply_event_frozen by done.
    by destruct (recorded_when_inactive e).
Qed.

(** The current offer of a session always passes [validate_offer]: if it
    does before a run of events, it does after it. *)
Theorem current_offer_stays_valid
    (evs : list (Q * Event)) (s : NegotiationSession) :
  (validate_offer (game s) (_current_offer s)).1 = true ->
  (validate_offer (game (apply_events evs s))
     (_current_offer (apply_events evs s))).1 = true.
Proof.
  revert s. induction evs as [|[now e] rest IH]; intros s Hval; simpl; [done|].
  by apply IH, apply_event_keeps_valid.
Qed.

Lemma current_offer_stays_valid_witness :
  (validate_offer Games.classic_resource_game
     (_current_offer (apply_events
        [((Examples.t0 + 9)%Q, Examples.human_offers_short);
         ((Examples.t0 + 5)%Q, Examples.human_offers)]
        Examples.started_session))).1 = true.
Proof.
  apply (current_offer_stays_valid
           [((Examples.t0 + 9)%Q, Examples.human_offers_short);
            ((Examples.t0 + 5)%Q, Examples.human_offers)]
           Examples.started_session).
  vm_compute. reflexivity.
Defined.

End SessionRunFacts.

(** ** Starting, accepting, counting and timing *)
Section SessionStepFacts.
Import Models Events Session.

(** [start] works once: on a session that was not started it records the
    start time, moves to [IN_PROGRESS] and appends the [GAME_START] event
    it returns, which names the game; on any other session, in particular
    the one it has just started, it raises [RuntimeError]. *)
Theorem start_works_once
    (eid : string) (now now' : Q) (s : NegotiationSession) :
  (_state s = NOT_STARTED ->
   exists ev s1,
     start eid now now' s = Ok (ev, s1)
     /\ event_type ev = GAME_START
     /\ dict_lookup (payload ev) "game_name" = Some (PStr (game_name (game s)))
     /\ _state s1 = IN_PROGRESS
     /\ _start_time s1 = Some now
     /\ _history s1 = _history s ++ [ev]
     /\ _current_offer s1 = _current_offer s
     /\ forall eid2 t t',
          start eid2 t t' s1 = Raise (RuntimeError "Cannot start session")) /\
  (_state s <> NOT_STARTED ->
   start eid now now' s = Raise (RuntimeError "Cannot start session")).
Proof.
  split; intros Hs; unfold start.
  - rewrite Hs. do 2 eexists. split; [reflexivity|]. by repeat split.
  - by destruct (_state s).
Qed.

Lemma start_works_once_witness :
  start "e0000000" Examples.t0 Examples.t0 Examples.fresh_session
  = Ok (Examples.start_event, Examples.started_session) /\
  start "e0000010" Examples.t0 Examples.t0 Examples.started_session
  = Raise (RuntimeError "Cannot start session").
Proof.
  destruct (start_works_once "e0000000" Examples.t0 Examples.t0
              Examples.fresh_session) as [Hfresh _].
  destruct (Hfresh eq_refl) as (ev & s1 & Hrun & _).
  destruct (start_works_once "e0000010" Examples.t0 Examples.t0
              Examples.started_session) as [_ Hagain].
  split; [reflexivity | apply Hagain; discriminate].
Defined.

Lemma get_by_type_app (t : EventType) (l1 l2 : list Event) :
  get_by_type t (l1 ++ l2) = get_by_type t l1 ++ get_by_type t l2.
Proof. unfold get_by_type. apply List.filter_app. Qed.

(** Every [SEND_OFFER] event that reaches a session in progress is entered
    in the history and counted by [get_offer_count], also when the offer is
    rejected as invalid or its payload makes the handler raise; it is then
    the event that [get_last_offer] returns, whether or not it became the
    current offer. *)
Theorem offer_count_includes_rejected
    (now : Q) (e : Event) (s : NegotiationSession) :
  is_active s = true ->
  event_type e = SEND_OFFER ->
  let s' := session (apply_event now e s) in
  _history s' = _history s ++ [e]
  /\ get_offer_count (_history s') = S (get_offer_count (_history s))
  /\ get_last_offer (_history s') = Some e.
Proof.
  intros Hact He s'. subst s'.
  assert (Hh : _history (session (apply_event now e s)) = _history s ++ [e]).
  { rewrite apply_event_active by done. cbv zeta. rewrite He.
    destruct (_handle_offer e (history_add e s)) as [[s2 out]|x] eqn:Hoff;
      simpl; [|done].
    by apply _handle_offer_shape in Hoff as [->|(offer & lh & la & _ & ->)]. }
  rewrite Hh. split; [done|].
  unfold get_offer_count, get_last_offer. rewrite get_by_type_app.
  assert (Hone : get_by_type SEND_OFFER [e] = [e]).
  { unfold get_by_type, EventType_is. simpl. by rewrite He. }
  rewrite Hone. split.
  - rewrite length_app. simpl. lia.
  - apply last_snoc.
Qed.

Lemma offer_count_includes_rejected_witness :
  get_offer_count
    (_history (session (apply_event (Examples.t0 + 9)%Q
                          Examples.human_offers_short
                          Examples.started_session))) = 1%nat
  /\ _current_offer (session (apply_event (Examples.t0 + 9)%Q
                                Examples.human_offers_short
                                Examples.started_session))
     = _current_offer Examples.started_session.
Proof.
  destruct (offer_count_includes_rejected (Examples.t0 + 9)%Q
              Examples.human_offers_short Examples.started_session
              eq_refl eq_refl) as (_ & Hcount & _).
  split; [exact Hcount | vm_compute; reflexivity].
Defined.



(** A [FORMAL_ACCEPT] on a complete offer in progress marks the human's
    flag and time when the sender is ["human"], and the agent's for every
    other sender (also ["system"]); the other party's flag and time, and
    the offer, are unchanged. The session is [COMPLETED] afterwards exactly
    when the other party had accepted before, and stays [IN_PROGRESS]
    otherwise. *)
Theorem formal_accept_marks_sender
    (now : Q) (e : Event) (s : NegotiationSession) :
  is_active s = true ->
  event_type e = FORMAL_ACCEPT ->
  Offer_is_complete (_current_offer s) = true ->
  let a := _acceptance s in
  let s' := session (apply_event now e s) in
  _current_offer s' = _current_offer s /\
  (sender_id e = HUMAN_ID ->
   _acceptance s' = mkFormalAcceptance true (agent_accepted a)
                      (Some (timestamp e)) (agent_accepted_at a)
   /\ _state s' = (if agent_accepted a then COMPLETED else IN_PROGRESS)) /\
  (sender_id e <> HUMAN_ID ->
   _acceptance s' = mkFormalAcceptance (human_accepted a) true
                      (human_accepted_at a) (Some (timestamp e))
   /\ _state s' = (if human_accepted a then COMPLETED else IN_PROGRESS)).
Proof.
  intros Hact He Hcomplete a s'. subst a s'.
  rewrite apply_event_active by done. cbv zeta. rewrite He.
  unfold _handle_formal_accept. simpl _current_offer. rewrite Hcomplete.
  simpl negb. cbv iota. apply is_active_state in Hact.
  split; [|split].
  - destruct (String.eqb _ _); simpl;
      match goal with |- context [if ?b then _ else _] => destruct b end; done.
  - intros Hs. rewrite Hs. simpl. unfold both_accepted. simpl.
    destruct (agent_accepted (_acceptance s)); simpl; by rewrite ?Hact.
  - intros Hs. apply String.eqb_neq in Hs. rewrite Hs. simpl.
    unfold both_accepted. simpl.
    destruct (human_accepted (_acceptance s)); simpl; by rewrite ?Hact.
Qed.

Lemma formal_accept_marks_sender_witness :
  _state (session (apply_event (Examples.t0 + 7)%Q
                     (formal_accept "e0000012" (Examples.t0 + 7)%Q SYSTEM_ID 0)
                     Examples.half_accepted_session)) = COMPLETED.
Proof.
  destruct (formal_accept_marks_sender (Examples.t0 + 7)%Q
              (formal_accept "e0000012" (Examples.t0 + 7)%Q SYSTEM_ID 0)
              Examples.half_accepted_session
              ltac:(vm_compute; reflexivity) eq_refl
              ltac:(vm_compute; reflexivity)) as (_ & _ & Hother).
  destruct (Hother ltac:(discriminate)) as [_ Hst].
  rewrite Hst. vm_compute. reflexivity.
Defined.

(** With a deadline, a started session that has not ended is timed out
    exactly when the time since its start has reached the deadline, and
    the remaining time is never negative; without a deadline there is no
    remaining time and the session is never timed out. *)
Theorem timed_out_iff_deadline_reached
    (now : Q) (s : NegotiationSession) (started : Q) :
  _start_time s = Some started ->
  _end_time s = None ->
  (forall deadline,
     deadline_seconds (rules (game s)) = Some deadline ->
     (is_timed_out now s = true <-> (inject_Z deadline <= now - started)%Q)
     /\ exists remaining,
          get_remaining_time now s = Some remaining
          /\ (0 <= remaining)%Q
          /\ (remaining == 0 \/
              remaining == inject_Z deadline - (now - started))%Q) /\
  (deadline_seconds (rules (game s)) = None ->
   get_remaining_time now s = None /\ is_timed_out now s = false).
Proof.
  intros Hstart Hend. split.
  - intros deadline Hd. unfold is_timed_out, get_remaining_time,
      get_elapsed_time. rewrite Hd, Hstart, Hend.
    destruct (Qltb 0 (inject_Z deadline - (now - started))) eqn:Hleft.
    + apply Qltb_lt in Hleft. split.
      * rewrite Qle_bool_iff. split.
        -- intros H. exfalso. apply (Qlt_irrefl 0).
           exact (Qlt_le_trans _ _ _ Hleft H).
        -- intros H. exfalso. apply (Qlt_irrefl 0).
           apply (Qlt_le_trans _ _ _ Hleft).
           apply (Qplus_le_l _ _ (now - started)). ring_simplify.
           by ring_simplify in H.
      * eexists. split; [reflexivity|]. split; [by apply Qlt_le_weak|].
        by right.
    + assert (Hle : (inject_Z deadline - (now - started) <= 0)%Q).
      { apply Qnot_lt_le. intros H. apply Qltb_lt in H. congruence. }
      split.
      * split; [|done]. intros _.
        apply (Qplus_le_l _ _ (now - started)) in Hle.
        ring_simplify in Hle. by ring_simplify.
      * exists 0%Q. split; [reflexivity|]. split; [apply Qle_refl|].
        by left.
  - intros Hd. unfold is_timed_out, get_remaining_time. by rewrite Hd.
Qed.

Lemma timed_out_witness :
  is_timed_out (Examples.t0 + 299)%Q Examples.started_session = false /\
  is_timed_out (Examples.t0 + 300)%Q Examples.started_session = true.
Proof.
  destruct (timed_out_iff_deadline_reached (Examples.t0 + 300)%Q
              Examples.started_session Examples.t0 eq_refl eq_refl)
    as [Hdeadline _].
  destruct (Hdeadline 300 eq_refl) as [Hiff _].
  split; [vm_compute; reflexivity|].
  apply Hiff. vm_compute. discriminate.
Defined.

End SessionStepFacts.

(** ** Event factories, getters and deserialization *)
Section EventAccessFacts.
Import Events.

(** [Preference.from_dict(p.to_dict())] gives the preference back, with or
    without a second issue. *)
Theorem Preference_from_dict_to_dict (p : Preference) :
  Preference_from_dict (PDict (Preference_to_dict p)) = Ok p.
Proof. destruct p as [i1 [i2|] r q]; reflexivity. Qed.

(** What a factory puts into an event, the getters read back: the offer
    dictionary of [send_offer], the text of [send_message] and its
    preference (through [to_dict] and [from_dict]), the expression's value
    of [send_expression]. On an event of another type a getter returns
    none. *)
Theorem getters_read_factories
    (eid : string) (now : Q) (sender : string) (delay : Z) :
  (forall offer_dict, get_offer (send_offer eid now sender offer_dict delay)
                      = offer_dict) /\
  (forall text st pref,
     get_text (send_message eid now sender text st pref delay) = PStr text
     /\ get_preference (send_message eid now sender text st pref delay)
        = Ok pref
     /\ subtype (send_message eid now sender text st pref delay) = Some st) /\
  (forall x duration,
     get_expression (send_expression eid now sender x duration delay)
     = PStr (Expression_value x)) /\
  (forall e,
     (event_type e <> SEND_OFFER -> get_offer e = PNone) /\
     (event_type e <> SEND_MESSAGE ->
      get_text e = PNone /\ get_preference e = Ok None) /\
     (event_type e <> SEND_EXPRESSION -> get_expression e = PNone)).
Proof.
  split; [done|]. split; [|split; [done|]].
  - intros text st [p|]; [|done]. by destruct p as [i1 [i2|] r q].
  - intros e. unfold get_offer, get_text, get_preference, get_expression.
    by destruct (event_type e).
Qed.



End EventAccessFacts.

(** ** Offers the agent generates *)
Section GeneratedOfferFacts.
Import Models NegoChat.

Lemma offer_counts_nonneg_check (o : Offer) :
  offer_counts_nonneg o -> offer_nonneg o = true.
Proof.
  intros H. unfold offer_nonneg. apply forallb_forall.
  intros [k [a|]] Hin; [|done]. simpl.
  apply list_elem_of_In, elem_of_map_to_list in Hin.
  destruct (H k a) as (Ha & Hm & Hh).
  { unfold Offer_getitem. by rewrite Hin. }
  apply Z.leb_le in Ha, Hm, Hh. by rewrite Ha, Hm, Hh.
Qed.

Lemma opening_allocation_counts (c : NegoChatCore) (issue : Issue) :
  0 <= Models.quantity issue ->
  nonneg (opening_allocation c issue)
  /\ total (opening_allocation c issue) = Models.quantity issue
  /\ (name issue ∈ stack_a (stacks c) ->
      opening_allocation c issue = mkAllocation (Models.quantity issue) 0 0)
  /\ (name issue ∉ stack_a (stacks c) ->
      agent (opening_allocation c issue) <= human (opening_allocation c issue)
      /\ middle (opening_allocation c issue) <= 1).
Proof.
  intros Hq. unfold opening_allocation, nonneg, total.
  pose proof (Z.div_mod (Models.quantity issue) 2 ltac:(lia)) as Hdm.
  pose proof (Z.mod_pos_bound (Models.quantity issue) 2 ltac:(lia)) as Hmod.
  assert (Hdiv : 0 <= Models.quantity issue / 2) by (apply Z.div_pos; lia).
  case_bool_decide as Ha; [|case_bool_decide as Hb; [destruct (strategy c)|]];
    simpl; repeat split; try lia; try done.
Qed.

Lemma opening_allocations_fold (c : NegoChatCore) (l : list Issue)
    (o : Offer) :
  (forall issue, issue ∈ l -> 0 <= Models.quantity issue) ->
  opening_allocations c l o
  = Ok (foldl (fun off issue =>
                 Offer_setitem off (name issue)
                   (Some (opening_allocation c issue))) o l).
Proof.
  revert o. induction l as [|issue rest IH]; intros o Hq; simpl; [done|].
  assert (H0 : 0 <= Models.quantity issue) by apply Hq, list_elem_of_here.
  pose proof (Z.div_mod (Models.quantity issue) 2 ltac:(lia)) as Hdm.
  pose proof (Z.mod_pos_bound (Models.quantity issue) 2 ltac:(lia)) as Hmod.
  assert (Hdiv : 0 <= Models.quantity issue / 2) by (apply Z.div_pos; lia).
  assert (Hrun :
    (if bool_decide (name issue ∈ stack_a (stacks c))
     then all_to_agent (Models.quantity issue)
     else if bool_decide (name issue ∈ stack_b (stacks c))
     then match strategy c with
          | COOPERATIVE => all_to_human (Models.quantity issue)
          | _ => split_even (Models.quantity issue)
          end
     else split_even (Models.quantity issue))
    = Ok (opening_allocation c issue)).
  { unfold opening_allocation, all_to_agent, all_to_human, split_even.
    case_bool_decide; [|case_bool_decide; [destruct (strategy c)|]];
      apply Allocation_new_nonneg; lia. }
  rewrite Hrun. simpl. apply IH.
  intros i Hi. apply Hq. by apply list_elem_of_further.
Qed.

Lemma fold_setitem_other (f : Issue -> Allocation) (l : list Issue)
    (o : Offer) (k : string) :
  k ∉ map name l ->
  allocations (foldl (fun off issue =>
                        Offer_setitem off (name issue) (Some (f issue))) o l)
    !! k = allocations o !! k.
Proof.
  revert o. induction l as [|issue rest IH]; intros o Hk; simpl; [done|].
  simpl in Hk. apply not_elem_of_cons in Hk as [Hne Hk].
  rewrite IH by done. simpl. by rewrite lookup_insert_ne.
Qed.

Lemma fold_setitem_issue (f : Issue -> Allocation) (l : list Issue)
    (o : Offer) (issue : Issue) :
  NoDup (map name l) -> issue ∈ l ->
  allocations (foldl (fun off issue =>
                        Offer_setitem off (name issue) (Some (f issue))) o l)
    !! name issue = Some (Some (f issue)).
Proof.
  revert o. induction l as [|i rest IH]; intros o Hnd Hin; simpl.
  - by apply elem_of_nil in Hin.
  - simpl in Hnd. apply NoDup_cons in Hnd as [Hfresh Hnd].
    apply elem_of_cons in Hin as [->|Hin].
    + rewrite fold_setitem_other by done. simpl. by rewrite lookup_insert_eq.
    + by apply IH.
Qed.

Lemma fold_setitem_entries (f : Issue -> Allocation) (l : list Issue)
    (o : Offer) (k : string) (v : option Allocation) :
  allocations (foldl (fun off issue =>
                        Offer_setitem off (name issue) (Some (f issue))) o l)
    !! k = Some v ->
  allocations o !! k = Some v \/
  exists issue, issue ∈ l /\ v = Some (f issue).
Proof.
  revert o. induction l as [|i rest IH]; intros o Hk; simpl in *; [by left|].
  apply IH in Hk as [Hk|(issue & Hin & ->)].
  - simpl in Hk. destruct (decide (name i = k)) as [<-|Hne].
    + rewrite lookup_insert_eq in Hk. injection Hk as <-.
      right. exists i. split; [apply list_elem_of_here | done].
    + rewrite lookup_insert_ne in Hk by done. by left.
  - right. exists issue. split; [by apply list_elem_of_further | done].
Qed.

(** For a game whose issues have distinct names and non-negative
    quantities, [get_opening_offer] raises nothing and returns an offer
    that addresses every issue with counts that sum to the issue's
    quantity, so that it passes [validate_offer]: all units of a [stack_a]
    issue go to the agent, and of any other issue the human gets at least
    as many units as the agent and at most one unit stays undecided. The
    offer becomes the current proposal and is counted as an offer made. *)
Theorem opening_offer_is_valid (c : NegoChatCore) :
  NoDup (map name (issues (game c))) ->
  (forall issue, issue ∈ issues (game c) -> 0 <= Models.quantity issue) ->
  exists o c',
    get_opening_offer c = Ok (o, c')
    /\ _current_proposal c' = Some o
    /\ _offers_made c' = _offers_made c + 1
    /\ stacks c' = stacks c
    /\ (validate_offer (game c) o).1 = true
    /\ offer_nonneg o = true
    /\ forall issue, issue ∈ issues (game c) ->
         exists a,
           Offer_getitem o (name issue) = Some a
           /\ agent a + middle a + human a = Models.quantity issue
           /\ (name issue ∈ stack_a (stacks c) ->
               a = mkAllocation (Models.quantity issue) 0 0)
           /\ (name issue ∉ stack_a (stacks c) ->
               agent a <= human a /\ middle a <= 1).
Proof.
  intros Hnd Hq. unfold get_opening_offer.
  rewrite opening_allocations_fold by done. simpl.
  do 2 eexists. split; [reflexivity|]. simpl.
  set (o := foldl _ Offer_empty_dict (issues (game c))).
  assert (Hget : forall issue, issue ∈ issues (game c) ->
            Offer_getitem o (name issue) = Some (opening_allocation c issue)).
  { intros issue Hin. unfold Offer_getitem, o.
    by rewrite fold_setitem_issue. }
  split; [done|]. split; [lia|]. split; [done|]. split; [|split].
  - apply validate_issues_ok. intros issue alloc Hin Ha.
    rewrite Hget in Ha by done. injection Ha as <-.
    by destruct (opening_allocation_counts c issue (Hq issue Hin))
      as (_ & Htotal & _).
  - apply offer_counts_nonneg_check. intros k a Hk.
    unfold Offer_getitem in Hk.
    destruct (allocations o !! k) as [v|] eqn:Hv; [|done]. subst v.
    apply fold_setitem_entries in Hv as [Hv|(issue & Hi & [= ->])].
    + unfold Offer_empty_dict in Hv. simpl in Hv.
      by rewrite lookup_empty in Hv.
    + by destruct (opening_allocation_counts c issue (Hq issue Hi)).
  - intros issue Hin. exists (opening_allocation c issue).
    split; [by apply Hget|].
    by destruct (opening_allocation_counts c issue (Hq issue Hin))
      as (_ & Htotal & Ha & Hb).
Qed.

Lemma opening_offer_is_valid_witness :
  exists o c',
    get_opening_offer Examples.classic_core = Ok (o, c')
    /\ (validate_offer Games.classic_resource_game o).1 = true.
Proof.
  destruct (opening_offer_is_valid Examples.classic_core)
    as (o & c' & Hrun & _ & _ & _ & Hvalid & _).
  - apply (bool_decide_unpack _). vm_compute. exact I.
  - intros issue Hin. apply list_elem_of_In in Hin. simpl in Hin.
    destruct Hin as [<-|[<-|[<-|[]]]]; simpl; lia.
  - exists o, c'. split; [exact Hrun | exact Hvalid].
Defined.

End GeneratedOfferFacts.

(** ** Concessions preserve validity and come to an end *)
Section ConcessionRunFacts.
Import Models NegoChat.

Lemma concession_shape (c c' : NegoChatCore) (proposal o' : Offer) :
  _current_proposal c = Some proposal ->
  offer_counts_nonneg proposal ->
  _make_concession c = Ok (Some o', c') ->
  exists n current,
    Offer_getitem proposal n = Some current
    /\ (0 < agent current \/ 0 < middle current)
    /\ o' = Offer_setitem proposal n (Some (one_unit_to_human current))
    /\ c' = set_proposal o' 1 1 c.
Proof.
  intros Hcur Hwf. rewrite (_make_concession_first c proposal Hcur Hwf).
  destruct (find (gives (game c) proposal) (search_order (stacks c)))
    as [[n m]|] eqn:Hfind; [|done].
  apply find_some in Hfind as [_ Hx]. unfold gives in Hx. simpl in Hx.
  apply can_give_addressed in Hx as (current & Hget & Hunit).
  unfold concede_at. simpl. rewrite Hget. intros [= <- <-].
  exists n, current. split; [done|]. split; [|done].
  destruct Hunit as [?|[_ ?]]; [by left | by right].
Qed.

Lemma one_unit_to_human_counts (current : Allocation) :
  nonneg current ->
  0 < agent current \/ 0 < middle current ->
  nonneg (one_unit_to_human current)
  /\ total (one_unit_to_human current) = total current
  /\ agent (one_unit_to_human current) + middle (one_unit_to_human current)
     = agent current + middle current - 1.
Proof.
  intros (Ha & Hm & Hh) Hunit. unfold one_unit_to_human, nonneg, total.
  destruct (Z.ltb_spec 0 (agent current)); simpl; lia.
Qed.

Lemma getitem_setitem (o : Offer) (n k : string) (v : option Allocation) :
  Offer_getitem (Offer_setitem o n v) k
  = if decide (n = k) then v else Offer_getitem o k.
Proof.
  unfold Offer_getitem, Offer_setitem. simpl.
  destruct (decide (n = k)) as [->|Hne].
  - by rewrite lookup_insert_eq.
  - by rewrite lookup_insert_ne.
Qed.

(** A concession keeps an offer legal: if the current proposal passes
    [validate_offer] and has no negative count, so does the offer that
    [_make_concession] returns, which is the new current proposal; the
    stacks are not changed. *)
Theorem concession_keeps_offer_valid
    (c c' : NegoChatCore) (proposal o' : Offer) :
  _current_proposal c = Some proposal ->
  offer_nonneg proposal = true ->
  (validate_offer (game c) proposal).1 = true ->
  _make_concession c = Ok (Some o', c') ->
  (validate_offer (game c') o').1 = true
  /\ offer_nonneg o' = true
  /\ _current_proposal c' = Some o'
  /\ stacks c' = stacks c
  /\ _concession_count c' = _concession_count c + 1.
Proof.
  intros Hcur Hwf%offer_nonneg_counts Hval Hrun.
  destruct (concession_shape c c' proposal o' Hcur Hwf Hrun)
    as (n & current & Hget & Hunit & -> & ->).
  destruct (one_unit_to_human_counts current (Hwf n current Hget) Hunit)
    as (Hnn & Htotal & _).
  simpl. split; [|split; [|done]].
  - apply validate_issues_ok. intros issue alloc Hin Ha.
    rewrite getitem_setitem in Ha.
    apply validate_issues_ok in Hval.
    destruct (decide (n = name issue)) as [->|Hne].
    + injection Ha as <-. unfold total in Htotal. rewrite Htotal.
      by apply (Hval issue current).
    + by apply (Hval issue alloc).
  - apply offer_counts_nonneg_check. intros k a Hk.
    rewrite getitem_setitem in Hk.
    destruct (decide (n = k)) as [->|Hne]; [by injection Hk as <-|].
    by apply (Hwf k).
Qed.

Lemma concession_keeps_offer_valid_witness :
  exists o' c',
    _make_concession Examples.opened_core = Ok (Some o', c')
    /\ (validate_offer Games.classic_resource_game o').1 = true.
Proof.
  destruct (_make_concession Examples.opened_core) as [[[o'|] c']|x] eqn:Hrun;
    [|vm_compute in Hrun; discriminate Hrun
     |vm_compute in Hrun; discriminate Hrun].
  exists o', c'. split; [reflexivity|].
  destruct (concession_keeps_offer_valid Examples.opened_core c'
              Examples.opening_offer o' eq_refl
              ltac:(vm_compute; reflexivity) ltac:(vm_compute; reflexivity)
              Hrun) as [Hvalid _].
  assert (Hgame : game c' = Games.classic_resource_game).
  { vm_compute in Hrun. by injection Hrun as _ <-. }
  by rewrite Hgame in Hvalid.
Defined.

Lemma units_sum_perm (l1 l2 : list (string * option Allocation)) :
  l1 ≡ₚ l2 ->
  foldr (fun kv acc => units_of kv + acc) 0 l1
  = foldr (fun kv acc => units_of kv + acc) 0 l2.
Proof.
  induction 1; simpl;
    [done | by rewrite IHPermutation | apply Z.add_shuffle3 | congruence].
Qed.

Lemma units_outstanding_setitem (o : Offer) (n : string)
    (v v' : option Allocation) :
  allocations o !! n = Some v ->
  units_outstanding (Offer_setitem o n v')
  = units_outstanding o - units_of (n, v) + units_of (n, v').
Proof.
  intros Hn. unfold units_outstanding, Offer_setitem. simpl.
  rewrite <- insert_delete_eq.
  rewrite (units_sum_perm _ _
             (map_to_list_insert (delete n (allocations o)) n v'
                (lookup_delete_eq _ _))).
  rewrite <- (units_sum_perm _ _ (map_to_list_delete _ _ _ Hn)).
  simpl. generalize (foldr (fun kv acc => units_of kv + acc) 0
                       (map_to_list (delete n (allocations o)))).
  intros rest. lia.
Qed.

Lemma units_outstanding_nonneg (o : Offer) :
  offer_counts_nonneg o -> 0 <= units_outstanding o.
Proof.
  intros Hwf. unfold units_outstanding.
  assert (H : forall kv, kv ∈ map_to_list (allocations o) -> 0 <= units_of kv).
  { intros [k [a|]] Hin; unfold units_of; simpl; [|lia].
    apply elem_of_map_to_list in Hin.
    destruct (Hwf k a) as (? & ? & ?); [|lia].
    unfold Offer_getitem. by rewrite Hin. }
  induction (map_to_list (allocations o)) as [|kv rest IH]; simpl; [lia|].
  pose proof (H kv (list_elem_of_here _ _)).
  apply Z.add_nonneg_nonneg; [done|].
  apply IH. intros kv' Hin. apply H. by apply list_elem_of_further.
Qed.

Lemma concede_chain_units (k : nat) (c c' : NegoChatCore) (proposal : Offer) :
  _current_proposal c = Some proposal ->
  offer_counts_nonneg proposal ->
  concede_chain k c = Some c' ->
  exists final,
    _current_proposal c' = Some final
    /\ offer_counts_nonneg final
    /\ units_outstanding final = units_outstanding proposal - Z.of_nat k.
Proof.
  revert c proposal. induction k as [|k IH]; intros c proposal Hcur Hwf.
  - simpl. intros [= <-]. exists proposal. split; [done|]. split; [done|].
    simpl. lia.
  - simpl. destruct (_make_concession c) as [[[o'|] c1]|x] eqn:Hrun;
      try discriminate.
    intros Hchain.
    destruct (concession_shape c c1 proposal o' Hcur Hwf Hrun)
      as (n & current & Hget & Hunit & -> & ->).
    destruct (one_unit_to_human_counts current (Hwf n current Hget) Hunit)
      as (Hnn & _ & Hunits).
    set (o1 := Offer_setitem proposal n (Some (one_unit_to_human current)))
      in *.
    assert (Hwf1 : offer_counts_nonneg o1).
    { intros j a Hj. unfold o1 in Hj. rewrite getitem_setitem in Hj.
      destruct (decide (n = j)) as [->|Hne]; [by injection Hj as <-|].
      by apply (Hwf j). }
    destruct (IH (set_proposal o1 1 1 c) o1 eq_refl Hwf1 Hchain)
      as (final & Hf & Hfw & Hfu).
    exists final. split; [done|]. split; [done|]. rewrite Hfu.
    assert (Hn : allocations proposal !! n = Some (Some current)).
    { unfold Offer_getitem in Hget.
      by destruct (allocations proposal !! n) as [[?|]|]; simplify_eq. }
    unfold o1. rewrite (units_outstanding_setitem _ _ _ _ Hn).
    unfold units_of. simpl. lia.
Qed.

(** Concessions come to an end: every concession moves one of the units
    that are not yet on the human's side, so no more concessions can
    follow one another than the current proposal has such units (agent and
    undecided counts added up); after [k] of them exactly [k] fewer are
    left. *)
Theorem concessions_are_bounded
    (k : nat) (c c' : NegoChatCore) (proposal : Offer) :
  _current_proposal c = Some proposal ->
  offer_nonneg proposal = true ->
  concede_chain k c = Some c' ->
  Z.of_nat k <= units_outstanding proposal
  /\ exists final,
       _current_proposal c' = Some final
       /\ units_outstanding final = units_outstanding proposal - Z.of_nat k.
Proof.
  intros Hcur Hwf%offer_nonneg_counts Hchain.
  destruct (concede_chain_units k c c' proposal Hcur Hwf Hchain)
    as (final & Hf & Hfw & Hfu).
  split; [|by exists final].
  pose proof (units_outstanding_nonneg final Hfw). lia.
Qed.

Lemma concessions_are_bounded_witness :
  units_outstanding Examples.opening_offer = 7 /\
  concede_chain 6 Examples.opened_core = Some Examples.exhausted_core /\
  concede_chain 7 Examples.opened_core = None.
Proof.
  destruct (concessions_are_bounded 6 Examples.opened_core
              Examples.exhausted_core Examples.opening_offer eq_refl
              ltac:(vm_compute; reflexivity) ltac:(vm_compute; reflexivity))
    as [Hbound _].
  split; [vm_compute; reflexivity|]. split; vm_compute; reflexivity.
Defined.

End ConcessionRunFacts.

(** ** Counter-offers *)
Section CounterOfferFacts.
Import Models NegoChat.









End CounterOfferFacts.

(** ** The order within the stacks *)
Section StackOrderFacts.
Import Models NegoChat.

Lemma in_order_trans {A} (key : A -> Q) (reverse : bool) (x y z : A) :
  in_order key reverse x y -> in_order key reverse y z ->
  in_order key reverse x z.
Proof.
  unfold in_order. destruct reverse; intros H1 H2.
  - exact (Qle_trans _ _ _ H2 H1).
  - exact (Qle_trans _ _ _ H1 H2).
Qed.

Lemma sort_insert_sorted {A} (key : A -> Q) (reverse : bool) (x : A)
    (l : list A) :
  StronglySorted (in_order key reverse) l ->
  StronglySorted (in_order key reverse) (sort_insert key reverse x l).
Proof.
  induction 1 as [|y rest Hs IH Hy]; simpl; [by repeat constructor|].
  destruct (if reverse then Qltb (key x) (key y) else Qltb (key y) (key x))
    eqn:Hcmp.
  - constructor; [done|]. rewrite sort_insert_perm. constructor; [|done].
    unfold in_order. destruct reverse; apply Qltb_lt in Hcmp;
      by apply Qlt_le_weak.
  - assert (Hxy : in_order key reverse x y).
    { unfold in_order. destruct reverse; apply Qnot_lt_le; intros Hlt;
        apply Qltb_lt in Hlt; congruence. }
    constructor; [by constructor|]. constructor; [done|].
    eapply Forall_impl; [exact Hy|]. intros z Hz.
    by apply (in_order_trans key reverse x y z).
Qed.

Lemma list_sort_sorted {A} (key : A -> Q) (reverse : bool) (l : list A) :
  StronglySorted (in_order key reverse) (list_sort key reverse l).
Proof.
  induction l as [|x rest IH]; simpl; [constructor|].
  by apply sort_insert_sorted.
Qed.


Lemma filter_sorted {A} (R : relation A) (P : A -> bool) (l : list A) :
  StronglySorted R l -> StronglySorted R (List.filter P l).
Proof.
  induction 1 as [|x rest Hs IH Hx]; simpl; [constructor|].
  destruct (P x); [|done]. constructor; [done|].
  apply Forall_forall. intros y Hy.
  apply list_elem_of_In, filter_In in Hy as [Hy _].
  rewrite Forall_forall in Hx. by apply Hx, list_elem_of_In.
Qed.





End StackOrderFacts.

(** ** Subscriptions and dispatch *)
Section BusDispatchFacts.
Import Events Bus.
Context {World : Type}.

Lemma without_without (id id' : string) (subs : list (Subscription World)) :
  without id (without id' subs) = without id' (without id subs).
Proof.
  unfold without. induction subs as [|sub rest IH]; simpl; [done|].
  destruct (String.eqb (subscriber_id sub) id') eqn:H1,
           (String.eqb (subscriber_id sub) id) eqn:H2; simpl;
    rewrite ?H1, ?H2; simpl; by rewrite IH.
Qed.

Lemma without_idem (id : string) (subs : list (Subscription World)) :
  without id (without id subs) = without id subs.
Proof.
  unfold without. induction subs as [|sub rest IH]; simpl; [done|].
  destruct (String.eqb (subscriber_id sub) id) eqn:H1; simpl;
    rewrite ?H1; simpl; by rewrite IH.
Qed.

Lemma without_absent (id : string) (subs : list (Subscription World)) :
  id ∉ map subscriber_id subs -> without id subs = subs.
Proof.
  unfold without. induction subs as [|sub rest IH]; simpl; [done|].
  intros Hid. apply not_elem_of_cons in Hid as [Hne Hid].
  assert (String.eqb (subscriber_id sub) id = false) as ->
    by by apply String.eqb_neq.
  simpl. by rewrite IH.
Qed.

Lemma without_ids (id : string) (subs : list (Subscription World)) :
  (id ∉ map subscriber_id (without id subs))
  /\ (NoDup (map subscriber_id subs) ->
      NoDup (map subscriber_id (without id subs)))
  /\ forall other, other ∈ map subscriber_id (without id subs) ->
       other ∈ map subscriber_id subs.
Proof.
  unfold without. induction subs as [|sub rest (IH1 & IH2 & IH3)]; simpl.
  - split; [apply not_elem_of_nil|]. split; [done|]. done.
  - destruct (String.eqb (subscriber_id sub) id) eqn:Hid; simpl.
    + split; [done|]. split.
      * intros Hnd. apply NoDup_cons in Hnd as [_ Hnd]. by apply IH2.
      * intros other Ho. apply list_elem_of_further. by apply IH3.
    + apply String.eqb_neq in Hid. split; [|split].
      * by apply not_elem_of_cons.
      * intros Hnd. apply NoDup_cons in Hnd as [Hfresh Hnd].
        apply NoDup_cons. split; [|by apply IH2].
        intros Hin. by apply Hfresh, IH3.
      * intros other Ho. apply elem_of_cons in Ho as [->|Ho].
        -- apply list_elem_of_here.
        -- apply list_elem_of_further. by apply IH3.
Qed.

(** Subscribing under an id replaces what was subscribed under it before:
    the new subscription is the only one with that id and comes last, ids
    stay unique, subscribing twice under one id is the same as the second
    subscription alone, and unsubscribing afterwards is the same as never
    having subscribed. The delay queue is not touched. *)
Theorem subscribe_replaces
    (h h' : EventHandler World) (id : string)
    (types types' : option (list EventType)) (bus : EventBus World) :
  last (_subscriptions (subscribe h id types bus))
    = Some (mkSubscription h types id)
  /\ List.filter (fun s => String.eqb (subscriber_id s) id)
       (_subscriptions (subscribe h id types bus))
     = [mkSubscription h types id]
  /\ (NoDup (map subscriber_id (_subscriptions bus)) ->
      NoDup (map subscriber_id (_subscriptions (subscribe h id types bus))))
  /\ subscribe h id types (subscribe h' id types' bus)
     = subscribe h id types bus
  /\ unsubscribe id (subscribe h id types bus) = unsubscribe id bus
  /\ _delayed_queue (subscribe h id types bus) = _delayed_queue bus.
Proof.
  destruct (without_ids id (_subscriptions bus)) as (Hgone & Hnd & Hsub).
  assert (Hfilter : forall subs : list (Subscription World),
            List.filter (fun s => String.eqb (subscriber_id s) id)
              (without id subs) = []).
  { intros subs. unfold without.
    induction subs as [|sub rest IH]; simpl; [done|].
    destruct (String.eqb (subscriber_id sub) id) eqn:H1; simpl; [done|].
    by rewrite H1. }
  assert (Hdrop : forall (subs : list (Subscription World)) s,
            subscriber_id s = id -> without id (subs ++ [s]) = without id subs).
  { intros subs s Hs. unfold without. rewrite List.filter_app. simpl.
    rewrite Hs, String.eqb_refl. simpl. by rewrite app_nil_r. }
  unfold subscribe, unsubscribe. simpl.
  split; [apply last_snoc|]. split.
  { rewrite List.filter_app, Hfilter. simpl. by rewrite String.eqb_refl. }
  split.
  { intros Hnodup. rewrite map_app. simpl.
    apply NoDup_app. split; [by apply Hnd|]. split; [|apply NoDup_singleton].
    intros x Hx Hx'. apply list_elem_of_singleton in Hx'. by subst. }
  split; [|split; [|done]].
  - by rewrite Hdrop, without_idem.
  - by rewrite Hdrop, without_idem.
Qed.

Lemma dispatch_to_world (subs : list (Subscription World)) (event : Event)
    (w : World) (out : list string) :
  (dispatch_to subs event w out).1
  = foldl (fun w sub => (handler sub event w).1) w
      (List.filter (fun sub => wants sub event) subs)
  /\ exists errors, (dispatch_to subs event w out).2 = out ++ errors.
Proof.
  revert w out. induction subs as [|sub rest IH]; intros w out; simpl.
  - split; [done|]. exists []. by rewrite app_nil_r.
  - destruct (wants sub event); simpl; [|apply IH].
    destruct (handler sub event w) as [w' [x|]]; simpl.
    + destruct (IH w' (out ++ ["Error in event handler " +:+ subscriber_id sub
                               +:+ ": " +:+ exn_str x])) as [-> [errs ->]].
      split; [done|]. eexists. by rewrite <- app_assoc.
    + apply IH.
Qed.

(** A handler that raises does not stop delivery: publishing an event
    without delay calls the handler of every subscriber that asked for the
    event's type (or for all types) exactly once, in the order of
    subscription, each on the world the previous one left, whether or not
    an earlier handler raised. Errors are only printed; the subscriptions
    and the delay queue are unchanged and [publish] itself raises
    nothing. *)
Theorem publish_reaches_every_subscriber
    (now : Q) (event : Event) (bus : EventBus World) :
  delay_ms event <= 0 ->
  exists bus',
    publish now event bus = Ok bus'
    /\ world bus'
       = foldl (fun w sub => (handler sub event w).1) (world bus)
           (List.filter (fun sub => wants sub event) (_subscriptions bus))
    /\ _subscriptions bus' = _subscriptions bus
    /\ _delayed_queue bus' = _delayed_queue bus
    /\ exists errors, stdout bus' = stdout bus ++ errors.
Proof.
  intros Hdelay. unfold publish.
  rewrite (proj2 (Z.ltb_ge 0 (delay_ms event)) Hdelay).
  eexists. split; [reflexivity|]. unfold _dispatch. simpl.
  destruct (dispatch_to_world (_subscriptions bus) event (world bus)
              (stdout bus)) as [Hw Hout].
  by repeat split.
Qed.

End BusDispatchFacts.

Section BusDispatchInstances.
Import Events Bus Examples.

Lemma publish_reaches_every_subscriber_witness :
  exists bus',
    publish t0 human_accepts bus_with_failing_handler = Ok bus'
    /\ world bus' = ["e0000002"]
    /\ stdout bus' = ["Error in event handler bad: boom"].
Proof.
  destruct (publish_reaches_every_subscriber t0 human_accepts
              bus_with_failing_handler ltac:(simpl; lia))
    as (bus' & Hrun & _).
  exists bus'. split; [exact Hrun|].
  vm_compute in Hrun. injection Hrun as <-. split; reflexivity.
Defined.

End BusDispatchInstances.

(** ** The delay queue keeps its events *)
Section QueueFacts.
Import Events Bus.

Lemma delete_insert_same (l : list item) (i : nat) (x : item) :
  delete i (<[i := x]> l) = delete i l.
Proof.
  revert i. induction l as [|y rest IH]; intros [|i]; simpl; try done.
  f_equal. apply IH.
Qed.

Lemma insert_perm_delete (l : list item) (i : nat) (x : item) :
  (i < length l)%nat -> <[i := x]> l ≡ₚ x :: delete i l.
Proof.
  intros Hi.
  rewrite (delete_Permutation (<[i := x]> l) i x)
    by by apply list_lookup_insert_eq.
  by rewrite delete_insert_same.
Qed.

(** Moving the item at [j] to [i] and putting [x] at [j] is the same
    collection as putting [x] at [i]. *)
Lemma move_perm (l : list item) (i j : nat) (x y : item) :
  i <> j -> (i < length l)%nat -> l !! j = Some y ->
  <[j := x]> (<[i := y]> l) ≡ₚ <[i := x]> l.
Proof.
  intros Hne Hi Hj.
  assert (Hjlen : (j < length l)%nat) by by eapply lookup_lt_Some.
  rewrite insert_perm_delete by by rewrite length_insert.
  rewrite (insert_perm_delete l i x) by done.
  apply Permutation_cons; [done|].
  apply (Permutation_cons_inv (a := y)).
  rewrite <- (delete_Permutation (<[i := y]> l) j y)
    by by rewrite list_lookup_insert_ne.
  by apply insert_perm_delete.
Qed.

Lemma heap_index_Some (heap : list item) (i : nat) (x : item) :
  heap_index heap i = Ok x -> heap !! i = Some x.
Proof. unfold heap_index. by destruct (heap !! i); intros [= ->]. Qed.

Lemma _siftdown_loop_S (fuel : nat) (heap : list item)
    (startpos pos : nat) (newitem : item) :
  _siftdown_loop (S fuel) heap startpos pos newitem
  = if (startpos <? pos)%nat then
      parent <-- heap_index heap ((pos - 1) / 2)%nat ;;
      lt <-- item_lt newitem parent ;;
      if lt
      then _siftdown_loop fuel (<[pos := parent]> heap) startpos
             ((pos - 1) / 2)%nat newitem
      else Ok (<[pos := newitem]> heap)
    else Ok (<[pos := newitem]> heap).
Proof. reflexivity. Qed.

Lemma _siftup_loop_S (fuel : nat) (heap : list item) (endpos pos : nat) :
  _siftup_loop (S fuel) heap endpos pos
  = if (2 * pos + 1 <? endpos)%nat then
      childpos <-- (if (2 * pos + 1 + 1 <? endpos)%nat
                    then l <-- heap_index heap (2 * pos + 1)%nat ;;
                         r <-- heap_index heap (2 * pos + 1 + 1)%nat ;;
                         lt <-- item_lt l r ;;
                         Ok (if negb lt then (2 * pos + 1 + 1)%nat
                             else (2 * pos + 1)%nat)
                    else Ok (2 * pos + 1)%nat) ;;
      child <-- heap_index heap childpos ;;
      _siftup_loop fuel (<[pos := child]> heap) endpos childpos
    else Ok (heap, pos).
Proof. reflexivity. Qed.

Lemma _siftdown_loop_perm (fuel : nat) (heap : list item)
    (startpos pos : nat) (newitem : item) (r : list item) :
  (pos < length heap)%nat ->
  _siftdown_loop fuel heap startpos pos newitem = Ok r ->
  r ≡ₚ <[pos := newitem]> heap.
Proof.
  revert heap pos. induction fuel as [|fuel IH]; intros heap pos Hpos.
  - simpl. by intros [= <-].
  - rewrite _siftdown_loop_S.
    destruct (Nat.ltb_spec startpos pos) as [Hlt|Hge]; [|by intros [= <-]].
    destruct (heap_index heap ((pos - 1) / 2)) as [parent|] eqn:Hparent;
      cbn [rbind]; [|done].
    destruct (item_lt newitem parent) as [[|]|]; cbn [rbind];
      [|by intros [= <-]|done].
    intros Hrun. apply heap_index_Some in Hparent.
    assert (Hpp : ((pos - 1) / 2 < pos)%nat).
    { apply (Nat.le_lt_trans _ (pos - 1)); [|lia].
      apply Nat.Div0.div_le_upper_bound. lia. }
    apply IH in Hrun; [|rewrite length_insert; lia].
    rewrite Hrun. apply move_perm; [lia|done|done].
Qed.

Lemma _siftdown_perm (heap : list item) (startpos pos : nat)
    (r : list item) :
  _siftdown heap startpos pos = Ok r -> r ≡ₚ heap.
Proof.
  unfold _siftdown. destruct (heap_index heap pos) as [x|] eqn:Hx;
    simpl; [|done].
  apply heap_index_Some in Hx. intros Hrun.
  apply _siftdown_loop_perm in Hrun; [|by eapply lookup_lt_Some].
  by rewrite Hrun, list_insert_id.
Qed.

Lemma put_perm (queue : list item) (x : item) (r : list item) :
  put queue x = Ok r -> r ≡ₚ x :: queue.
Proof.
  unfold put, heappush. intros Hrun. apply _siftdown_perm in Hrun.
  rewrite Hrun. by rewrite Permutation_app_comm.
Qed.

Lemma _siftup_loop_perm (fuel : nat) (heap : list item) (endpos pos : nat)
    (r : list item * nat) (x : item) :
  (pos < length heap)%nat -> (endpos <= length heap)%nat ->
  _siftup_loop fuel heap endpos pos = Ok r ->
  (r.2 < length r.1)%nat /\ <[r.2 := x]> r.1 ≡ₚ <[pos := x]> heap.
Proof.
  revert heap pos. induction fuel as [|fuel IH]; intros heap pos Hpos Hend.
  - simpl. by intros [= <-].
  - rewrite _siftup_loop_S.
    destruct (Nat.ltb_spec (2 * pos + 1) endpos) as [Hlt|Hge];
      [|by intros [= <-]].
    destruct (if (2 * pos + 1 + 1 <? endpos)%nat
              then l <-- heap_index heap (2 * pos + 1)%nat ;;
                   r <-- heap_index heap (2 * pos + 1 + 1)%nat ;;
                   lt <-- item_lt l r ;;
                   Ok (if negb lt then (2 * pos + 1 + 1)%nat
                       else (2 * pos + 1)%nat)
              else Ok (2 * pos + 1)%nat) as [childpos|] eqn:Hchild;
      cbn [rbind]; [|done].
    assert (Hcp : (pos < childpos < endpos)%nat).
    { destruct (Nat.ltb_spec (2 * pos + 1 + 1) endpos);
        [|injection Hchild as <-; lia].
      destruct (heap_index heap (2 * pos + 1)); [|done].
      destruct (heap_index heap (2 * pos + 1 + 1)); [|done].
      cbn [rbind] in Hchild. destruct (item_lt _ _) as [[|]|]; [| |done];
        cbn [rbind negb] in Hchild; injection Hchild as <-; lia. }
    destruct (heap_index heap childpos) as [child|] eqn:Hc; cbn [rbind];
      [|done].
    apply heap_index_Some in Hc. intros Hrun.
    apply IH in Hrun as [Hlen Hperm]; [|rewrite length_insert; lia..].
    split; [done|]. rewrite Hperm. apply move_perm; [lia|done|done].
Qed.

Lemma _siftup_perm (heap : list item) (pos : nat) (r : list item) :
  _siftup heap pos = Ok r -> r ≡ₚ heap.
Proof.
  unfold _siftup. destruct (heap_index heap pos) as [x|] eqn:Hx;
    simpl; [|done].
  apply heap_index_Some in Hx.
  destruct (_siftup_loop (length heap) heap (length heap) pos)
    as [[h p]|] eqn:Hloop; simpl; [|done].
  apply (_siftup_loop_perm _ _ _ _ _ x) in Hloop as [Hlen Hperm];
    [|by eapply lookup_lt_Some|done]. simpl in *.
  intros Hrun. apply _siftdown_perm in Hrun. rewrite Hrun, Hperm.
  by rewrite list_insert_id.
Qed.

Lemma heappop_perm (heap : list item) (x : item) (r : list item) :
  heappop heap = Ok (x, r) -> x :: r ≡ₚ heap.
Proof.
  unfold heappop. destruct (last heap) as [lastelt|] eqn:Hlast; [|done].
  assert (Hheap : heap = removelast heap ++ [lastelt]).
  { destruct (decide (heap = [])) as [->|Hne]; [done|].
    rewrite (app_removelast_last lastelt Hne) at 1. f_equal. f_equal.
    apply last_Some in Hlast as [l' ->]. by rewrite List.last_last. }
  destruct (removelast heap) as [|returnitem tl] eqn:Hinit.
  - intros [= <- <-]. by rewrite Hheap.
  - simpl. destruct (_siftup (lastelt :: tl) 0) as [h|] eqn:Hup;
      simpl; [|done].
    intros [= <- <-]. apply _siftup_perm in Hup.
    rewrite Hheap, Hup. simpl.
    apply Permutation_cons; [done|]. apply Permutation_cons_append.
Qed.

Lemma process_loop_conserves {World} (fuel : nat) (now : Q)
    (bus bus' : EventBus World) (dispatched dispatched' : list Event) :
  process_loop fuel now bus dispatched = Ok (dispatched', bus') ->
  exists fired,
    dispatched' = dispatched ++ map snd fired
    /\ fired ++ _delayed_queue bus' ≡ₚ _delayed_queue bus
    /\ Forall (fun x : item => (x.1 <= now)%Q) fired
    /\ _subscriptions bus' = _subscriptions bus.
Proof.
  revert bus dispatched. induction fuel as [|fuel IH]; intros bus dispatched;
    simpl.
  - intros [= <- <-]. exists []. by rewrite app_nil_r.
  - assert (Hstop : exists fired : list item,
              dispatched = dispatched ++ map snd fired
              /\ fired ++ _delayed_queue bus ≡ₚ _delayed_queue bus
              /\ Forall (fun x : item => (x.1 <= now)%Q) fired
              /\ _subscriptions bus = _subscriptions bus).
    { exists []. by rewrite app_nil_r. }
    destruct (empty (_delayed_queue bus)); [by intros [= <- <-]|].
    destruct (get_nowait (_delayed_queue bus)) as [[[t e] q]|x] eqn:Hget.
    + assert (Hpop : (t, e) :: q ≡ₚ _delayed_queue bus).
      { unfold get_nowait in Hget.
        destruct (_delayed_queue bus); [done|]. by apply heappop_perm. }
      destruct (Qle_bool t now) eqn:Hdue.
      * intros Hrun. apply IH in Hrun as (fired & -> & Hperm & Hall & Hsubs).
        exists ((t, e) :: fired). simpl in *.
        split; [by rewrite <- app_assoc|]. split; [by rewrite Hperm|].
        split; [|done]. constructor; [|done]. by apply Qle_bool_iff.
      * destruct (put q (t, e)) as [q'|] eqn:Hput; simpl; [|done].
        intros [= <- <-]. exists []. simpl. rewrite app_nil_r.
        apply put_perm in Hput. by rewrite Hput.
    + destruct x; try done. by intros [= <- <-].
Qed.

(** [process_delayed_events] neither loses nor invents events: when it
    returns, the events it dispatched and the events still queued are
    together the events that were queued, each with its fire time. Every
    event dispatched had a fire time that is not later than the clock
    reading, so no event is dispatched early. *)
Theorem delayed_events_conserved {World}
    (now : Q) (bus bus' : EventBus World) (dispatched : list Event) :
  process_delayed_events now bus = Ok (dispatched, bus') ->
  exists fired : list item,
    dispatched = map snd fired
    /\ fired ++ _delayed_queue bus' ≡ₚ _delayed_queue bus
    /\ Forall (fun x : item => (x.1 <= now)%Q) fired
    /\ _subscriptions bus' = _subscriptions bus.
Proof.
  unfold process_delayed_events. intros Hrun.
  by apply process_loop_conserves in Hrun.
Qed.

(** Publishing with a delay calls no handler and prints nothing; if it
    succeeds, the queue holds one more item: the event with the fire time
    [now + delay_ms / 1000]. *)
Theorem delayed_publish_only_queues {World}
    (now : Q) (event : Event) (bus bus' : EventBus World) :
  0 < delay_ms event ->
  publish now event bus = Ok bus' ->
  _delayed_queue bus'
    ≡ₚ ((now + inject_Z (delay_ms event) / 1000)%Q, event) :: _delayed_queue bus
  /\ world bus' = world bus
  /\ stdout bus' = stdout bus
  /\ _subscriptions bus' = _subscriptions bus.
Proof.
  intros Hdelay. unfold publish, _queue_delayed.
  rewrite (proj2 (Z.ltb_lt 0 (delay_ms event)) Hdelay).
  destruct (put _ _) as [q|] eqn:Hput; simpl; [|done].
  intros [= <-]. simpl. split; [by apply put_perm|done].
Qed.

End QueueFacts.

(** ** The scheduler's action list *)
Section SchedulerFacts.
Import NegoChat Scheduler.


Lemma Qle_bool_false (x y : Q) : Qle_bool x y = false -> (y < x)%Q.
Proof.
  intros H. apply Qnot_le_lt. intros Hle. apply Qle_bool_iff in Hle.
  congruence.
Qed.


Lemma filter_all {A} (P : A -> bool) (l : list A) :
  (forall x, x ∈ l -> P x = true) -> List.filter P l = l.
Proof.
  induction l as [|y l IH]; [done|]. intros H. simpl.
  rewrite (H y) by apply list_elem_of_here.
  f_equal. apply IH. intros x Hx. by apply H, list_elem_of_further.
Qed.

Lemma filter_none {A} (P : A -> bool) (l : list A) :
  (forall x, x ∈ l -> P x = false) -> List.filter P l = [].
Proof.
  induction l as [|y l IH]; [done|]. intros H. simpl.
  rewrite (H y) by apply list_elem_of_here.
  apply IH. intros x Hx. by apply H, list_elem_of_further.
Qed.




Lemma filter_length_lt {A} (P : A -> bool) (l : list A) :
  (length (List.filter P l) <? length l)%nat = true
  <-> exists x, x ∈ l /\ P x = false.
Proof.
  rewrite Nat.ltb_lt. induction l as [|y l IH]; simpl.
  - split; [lia|]. intros (x & Hx & _). by apply elem_of_nil in Hx.
  - pose proof (filter_length_le P l) as Hle. destruct (P y) eqn:Hy; simpl.
    + rewrite <- Nat.succ_lt_mono, IH. split.
      * intros (x & Hx & HP). exists x. split; [|done].
        by apply list_elem_of_further.
      * intros (x & Hx & HP). exists x. split; [|done].
        apply elem_of_cons in Hx as [->|Hx]; [congruence|done].
    + split; [|lia]. intros _. exists y. split; [|done].
      apply list_elem_of_here.
Qed.

(** [cancel_action] returns [True] exactly when some scheduled action has
    the identifier; afterwards no action has it, every other action is
    still scheduled, and cancelling the identifier again returns [False]
    and changes nothing. *)
Theorem cancel_action_reports_removal {World} (id : string)
    (s : Scheduler World) :
  ((cancel_action id s).1 = true
   <-> exists a, a ∈ _actions s /\ action_id a = id)
  /\ (forall a, a ∈ _actions (cancel_action id s).2
                <-> a ∈ _actions s /\ action_id a <> id)
  /\ cancel_action id (cancel_action id s).2
     = (false, (cancel_action id s).2).
Proof.
  unfold cancel_action. simpl. split; [|split].
  - rewrite filter_length_lt. split.
    + intros (a & Ha & Hid). exists a. split; [done|].
      apply negb_false_iff in Hid. by apply String.eqb_eq.
    + intros (a & Ha & Hid). exists a. split; [done|].
      apply negb_false_iff. by apply String.eqb_eq.
  - intros a. rewrite !list_elem_of_In, filter_In, negb_true_iff.
    by rewrite String.eqb_neq.
  - assert (Hagain : forall l : list (ScheduledAction World),
              List.filter (fun a => negb (String.eqb (action_id a) id))
                (List.filter (fun a => negb (String.eqb (action_id a) id)) l)
              = List.filter (fun a => negb (String.eqb (action_id a) id)) l).
    { intros l. apply filter_all. intros a Ha.
      apply list_elem_of_In in Ha. by apply filter_In in Ha as [_ Ha]. }
    rewrite Hagain. f_equal. apply Nat.ltb_irrefl.
Qed.

Lemma pop_due_sorted {World} (now : Q) (l : list (ScheduledAction World)) :
  StronglySorted (in_order execute_at false) l ->
  pop_due now l
  = (List.filter (fun a => Qle_bool (execute_at a) now) l,
     List.filter (fun a => negb (Qle_bool (execute_at a) now)) l).
Proof.
  induction 1 as [|y l Hs IH Hall]; [done|]. simpl.
  destruct (Qle_bool (execute_at y) now) eqn:Hy; simpl.
  - by rewrite IH.
  - rewrite Forall_forall in Hall. unfold in_order in Hall.
    apply Qle_bool_false in Hy.
    assert (Hlate : forall z, z ∈ l -> Qle_bool (execute_at z) now = false).
    { intros z Hz. destruct (Qle_bool (execute_at z) now) eqn:Hzn; [|done].
      apply Qle_bool_iff in Hzn. apply Qle_not_lt in Hzn. destruct Hzn.
      eapply Qlt_le_trans; [exact Hy|by apply Hall]. }
    rewrite filter_none by done. rewrite filter_all; [done|].
    intros z Hz. by rewrite Hlate.
Qed.

Lemma run_actions_world {World} (l : list (ScheduledAction World))
    (w : World) (out : list string) :
  (run_actions l w out).1 = foldl (fun w a => (action a w).1) w l
  /\ exists lines,
       (run_actions l w out).2 = out ++ lines
       /\ (length lines <= length l)%nat.
Proof.
  revert w out. induction l as [|a l IH]; intros w out; simpl.
  - split; [done|]. exists []. by rewrite app_nil_r.
  - destruct (action a w) as [w' [e|]]; simpl.
    + destruct (IH w' (out ++ ["Error executing scheduled action "
                                 +:+ action_id a +:+ ": " +:+ exn_str e]))
        as (Hw & lines & Hout & Hlen).
      split; [done|]. eexists (_ :: lines). rewrite Hout, <- app_assoc.
      split; [reflexivity|]. simpl. lia.
    + destruct (IH w' out) as (Hw & lines & Hout & Hlen).
      split; [done|]. exists lines. split; [done|]. lia.
Qed.

(** [_process_actions] on a list in fire-time order runs every action
    that is due, each once and in list order, whether or not an earlier
    one raised; what it prints is at most one line per action run; the
    actions left are exactly those not yet due. *)
Theorem process_actions_runs_what_is_due {World} (now : Q)
    (s : Scheduler World) :
  StronglySorted (in_order execute_at false) (_actions s) ->
  _actions (_process_actions now s)
  = List.filter (fun a => negb (Qle_bool (execute_at a) now)) (_actions s)
  /\ world (_process_actions now s)
     = foldl (fun w a => (action a w).1) (world s)
         (List.filter (fun a => Qle_bool (execute_at a) now) (_actions s))
  /\ (exists lines,
        stdout (_process_actions now s) = stdout s ++ lines
        /\ (length lines
            <= length (List.filter (fun a => Qle_bool (execute_at a) now)
                         (_actions s)))%nat)
  /\ StronglySorted (in_order execute_at false)
       (_actions (_process_actions now s)).
Proof.
  intros Hsorted. unfold _process_actions. simpl.
  rewrite (pop_due_sorted now _ Hsorted). simpl.
  split; [done|].
  destruct (run_actions_world
              (List.filter (fun a => Qle_bool (execute_at a) now) (_actions s))
              (world s) (stdout s)) as (Hw & Hout).
  split; [done|]. split; [done|]. by apply filter_sorted.
Qed.

End SchedulerFacts.

Section ActionFacts.
Import Actions.

Lemma chain_loop_lookup (actions : list Action) (current gap : Z)
    (result : list Action) (i : nat) :
  chain_loop actions current gap result !! i
  = if (i <? length result)%nat then result !! i
    else (fun a =>
            let d := current + Z.of_nat (i - length result) * gap in
            if 0 <? d then Schedule d a else a)
         <$> actions !! (i - length result)%nat.
Proof.
  revert current result. induction actions as [|a actions IH];
    intros current result; simpl.
  - destruct (Nat.ltb_spec i (length result)); [done|].
    rewrite lookup_ge_None_2 by done. by destruct (i - length result)%nat.
  - rewrite IH. clear IH.
    assert (Hlen : length (if 0 <? current
                           then result ++ [Schedule current a]
                           else result ++ [a]) = S (length result)).
    { destruct (0 <? current); rewrite length_app; simpl; lia. }
    rewrite Hlen.
    destruct (Nat.ltb_spec i (S (length result))) as [Hlt|Hge].
    + destruct (Nat.ltb_spec i (length result)) as [Hlt'|Hge'].
      * destruct (0 <? current); by rewrite lookup_app_l.
      * assert (i = length result) as -> by lia.
        rewrite Nat.sub_diag. simpl. rewrite Z.add_0_r.
        destruct (0 <? current); by rewrite list_lookup_middle.
    + destruct (Nat.ltb_spec i (length result)) as [Hlt'|Hge']; [lia|].
      replace (i - length result)%nat with (S (i - S (length result)))
        by lia. simpl.
      destruct (actions !! (i - S (length result))%nat); simpl; [|done].
      replace (current + gap + Z.of_nat (i - S (length result)) * gap)
        with (current + Z.pos (Pos.of_succ_nat (i - S (length result))) * gap)
        by lia.
      done.
Qed.

(** [chain_actions] returns one entry per action, in order: entry [i] is
    action [i] itself when [base_delay_ms + i * gap_ms] is not positive,
    and otherwise a [Schedule] of action [i] with that delay. *)
Theorem chain_actions_delays (actions : list Action)
    (base_delay_ms gap_ms : Z) (i : nat) :
  length (chain_actions actions base_delay_ms gap_ms) = length actions
  /\ chain_actions actions base_delay_ms gap_ms !! i
     = (fun a =>
          let d := base_delay_ms + Z.of_nat i * gap_ms in
          if 0 <? d then Schedule d a else a)
       <$> actions !! i.
Proof.
  split.
  - unfold chain_actions.
    assert (Hlen : forall l current result,
              length (chain_loop l current gap_ms result)
              = (length result + length l)%nat).
    { induction l as [|a l IH]; intros current result; simpl; [lia|].
      rewrite IH. destruct (0 <? current); rewrite length_app; simpl; lia. }
    by rewrite Hlen.
  - unfold chain_actions. rewrite chain_loop_lookup. simpl.
    by rewrite Nat.sub_0_r.
Qed.

End ActionFacts.

(** ** Utilities and the agent's context *)
Section UtilityFacts.
Import Models Context.



Lemma get_max_possible_cons (u : UtilityFunction) (i : Issue)
    (l : list Issue) :
  (get_max_possible u (i :: l)
   == inject_Z (Models.quantity i) * values_get u (name i)
      + get_max_possible u l)%Q.
Proof.
  unfold get_max_possible. simpl.
  assert (Hacc : forall l acc,
    (foldl (fun acc issue =>
              acc + inject_Z (Models.quantity issue)
                    * values_get u (name issue)) acc l
     == acc + foldl (fun acc issue =>
                acc + inject_Z (Models.quantity issue)
                      * values_get u (name issue)) 0 l)%Q).
  { clear. induction l as [|j l IH]; intros acc; simpl.
    - by rewrite Qplus_0_r.
    - rewrite IH, (IH (0 + _)%Q). rewrite Qplus_0_l. by rewrite Qplus_assoc. }
  rewrite Hacc. by rewrite Qplus_0_l.
Qed.

Lemma values_get_nonneg (u : UtilityFunction) (k : string) :
  values_nonneg u = true -> (0 <= values_get u k)%Q.
Proof.
  unfold values_nonneg, values_get. rewrite forallb_forall. intros H.
  destruct (values u !! k) as [v|] eqn:Hk; simpl; [|apply Qle_refl].
  apply Qle_bool_iff. apply (H (k, v)).
  by apply list_elem_of_In, elem_of_map_to_list.
Qed.

Lemma get_max_possible_nonneg (u : UtilityFunction) (l : list Issue) :
  values_nonneg u = true -> quantities_positive l = true ->
  (0 <= get_max_possible u l)%Q.
Proof.
  intros Hv. induction l as [|i l IH]; simpl; [by intros _|].
  intros [Hi Hl]%andb_prop. rewrite get_max_possible_cons.
  apply Z.leb_le in Hi.
  rewrite <- (Qplus_0_r 0). apply Qplus_le_compat; [|by apply IH].
  apply Qmult_le_0_compat; [|by apply values_get_nonneg].
  change 0%Q with (inject_Z 0). rewrite <- Zle_Qle. lia.
Qed.







Lemma issues_complete_spec (l : list Issue) (o : Offer) :
  issues_complete l o = true
  <-> forall i, i ∈ l ->
        exists a, Offer_getitem o (name i) = Some a /\ middle a = 0.
Proof.
  induction l as [|i l IH]; simpl.
  - split; [|done]. intros _ i Hi. by apply elem_of_nil in Hi.
  - destruct (Offer_getitem o (name i)) as [a|] eqn:Hget.
    + unfold Allocation_is_complete.
      destruct (Z.eqb_spec (middle a) 0) as [Hm|Hm]; simpl.
      * rewrite IH. split.
        -- intros H j [->|Hj]%elem_of_cons; [by exists a|by apply H].
        -- intros H j Hj. by apply H, list_elem_of_further.
      * split; [done|]. intros H.
        destruct (H i) as (a' & Ha' & Hm'); [apply list_elem_of_here|].
        congruence.
    + split; [done|]. intros H.
      destruct (H i) as (a' & Ha' & Hm'); [apply list_elem_of_here|].
      congruence.
Qed.

Lemma Offer_is_complete_spec (o : Offer) :
  Offer_is_complete o = true
  <-> allocations o <> ∅
      /\ forall k v, allocations o !! k = Some v ->
           exists a, v = Some a /\ middle a = 0.
Proof.
  unfold Offer_is_complete. case_bool_decide as Hempty.
  - split; [done|]. by intros [? _].
  - rewrite forallb_forall. split.
    + intros H. split; [done|]. intros k v Hk.
      apply elem_of_map_to_list, list_elem_of_In in Hk.
      specialize (H _ Hk). simpl in H. destruct v as [a|]; [|done].
      exists a. split; [done|]. by apply Z.eqb_eq.
    + intros [_ H] [k v] Hin. apply list_elem_of_In, elem_of_map_to_list in Hin.
      destruct (H k v Hin) as (a & -> & Hm). simpl. by apply Z.eqb_eq.
Qed.

(** On an offer that addresses exactly the issues of a game with at least
    one issue, the context's [is_offer_complete] and the offer's own
    [is_complete] agree; a complete offer passes the context's
    [can_formally_accept]. *)
Theorem context_complete_agrees (ctx : AgentContext) (o : Offer) :
  issues (game ctx) <> [] ->
  dom (allocations o) = issue_name_set (issues (game ctx)) ->
  is_offer_complete ctx (Some o) = Offer_is_complete o
  /\ (is_offer_complete ctx None = true -> can_formally_accept ctx = true).
Proof.
  intros Hne Hdom.
  assert (Hkeys : forall k, is_Some (allocations o !! k)
                    <-> exists i, i ∈ issues (game ctx) /\ name i = k).
  { intros k. rewrite <- elem_of_dom, Hdom. unfold issue_name_set.
    rewrite elem_of_list_to_set, list_elem_of_In, in_map_iff.
    split; intros (i & Hi & Hin); exists i; split; try done;
      by apply list_elem_of_In. }
  assert (Hiff : issues_complete (issues (game ctx)) o = true
                 <-> Offer_is_complete o = true).
  { rewrite issues_complete_spec, Offer_is_complete_spec. split.
    - intros H. split.
      + destruct (issues (game ctx)) as [|i l] eqn:Hl; [done|].
        destruct (H i) as (a & Ha & _); [apply list_elem_of_here|].
        intros Hempty. unfold Offer_getitem in Ha.
        by rewrite Hempty, lookup_empty in Ha.
      + intros k v Hk. destruct (proj1 (Hkeys k)) as (i & Hi & <-);
          [by exists v|].
        destruct (H i Hi) as (a & Ha & Hm). unfold Offer_getitem in Ha.
        rewrite Hk in Ha. subst v. by exists a.
    - intros [_ H] i Hi.
      destruct (proj2 (Hkeys (name i))) as [v Hv]; [by exists i|].
      destruct (H _ _ Hv) as (a & -> & Hm). exists a. split; [|done].
      unfold Offer_getitem. by rewrite Hv. }
  split.
  - unfold is_offer_complete. simpl. by apply eq_true_iff_eq.
  - unfold is_offer_complete, can_formally_accept. simpl.
    clear. rewrite issues_complete_spec.
    induction (issues (game ctx)) as [|i l IH]; simpl; [done|]. intros Hc.
    destruct (Hc i) as (a & -> & _); [apply list_elem_of_here|].
    apply IH. intros j Hj. by apply Hc, list_elem_of_further.
Qed.

End UtilityFacts.

(** ** The delay queue as a priority queue *)
Section HeapFacts.
Import Events Bus.

Ltac parent_facts i :=
  pose proof (Nat.div_mod_eq (i - 1) 2);
  pose proof (Nat.mod_upper_bound (i - 1) 2 ltac:(lia)).

Ltac idx := unfold item in *; lia.






Lemma heap_ok_edges_off (h : list item) (pos : nat) :
  heap_ok h -> edges_off h pos.
Proof.
  intros Hh. split.
  - intros i x y Hi _ _. by apply Hh.
  - intros c x y Hpos Hc Hpar Hx Hy.
    destruct (lookup_lt_is_Some_2 h pos) as [z Hz].
    { parent_facts c. apply lookup_lt_Some in Hx. idx. }
    apply (Qle_trans _ z.1).
    + by apply (Hh pos).
    + apply (Hh c); [done|done|]. by rewrite Hpar.
Qed.



















End HeapFacts.

(** ** The properties at sample inputs *)
Section QueueInstances.
Import Events Bus Examples.

Lemma delayed_events_conserved_witness :
  process_delayed_events (t0 + (3 # 2))%Q queued_bus
  = Ok ((processed_at (t0 + (3 # 2))%Q).1, (processed_at (t0 + (3 # 2))%Q).2)
  /\ exists fired : list item,
       (processed_at (t0 + (3 # 2))%Q).1 = map snd fired
       /\ fired ++ _delayed_queue (processed_at (t0 + (3 # 2))%Q).2
          ≡ₚ _delayed_queue queued_bus
       /\ Forall (fun x : item => (x.1 <= t0 + (3 # 2))%Q) fired
       /\ _subscriptions (processed_at (t0 + (3 # 2))%Q).2
          = _subscriptions queued_bus.
Proof.
  split; [vm_compute; reflexivity|].
  apply (delayed_events_conserved (t0 + (3 # 2))%Q queued_bus).
  vm_compute. reflexivity.
Defined.

Lemma delayed_publish_only_queues_witness :
  0 < delay_ms event_a
  /\ publish t0 event_a listening_bus = Ok one_queued
  /\ _delayed_queue one_queued
     ≡ₚ ((t0 + inject_Z (delay_ms event_a) / 1000)%Q, event_a)
        :: _delayed_queue listening_bus
  /\ world one_queued = world listening_bus.
Proof.
  assert (Hdelay : 0 < delay_ms event_a) by (vm_compute; reflexivity).
  assert (Hrun : publish t0 event_a listening_bus = Ok one_queued)
    by (vm_compute; reflexivity).
  split; [exact Hdelay|]. split; [exact Hrun|].
  destruct (delayed_publish_only_queues t0 event_a listening_bus one_queued
              Hdelay Hrun) as (Hq & Hw & _).
  split; [exact Hq|exact Hw].
Defined.


End QueueInstances.

Section SchedulerInstances.
Import NegoChat Scheduler Examples.

Lemma busy_scheduler_sorted :
  StronglySorted (in_order execute_at false) (_actions busy_scheduler).
Proof. apply list_sort_sorted. Qed.


Lemma process_actions_witness :
  StronglySorted (in_order execute_at false) (_actions busy_scheduler)
  /\ map action_id (_actions (_process_actions (t0 + 2)%Q busy_scheduler))
     = ["last"]
  /\ world (_process_actions (t0 + 2)%Q busy_scheduler) = ["second"].
Proof.
  split; [exact busy_scheduler_sorted|].
  destruct (process_actions_runs_what_is_due (t0 + 2)%Q busy_scheduler
              busy_scheduler_sorted) as (Hleft & Hworld & _ & _).
  rewrite Hleft, Hworld. split; vm_compute; reflexivity.
Defined.

End SchedulerInstances.

Section ContextInstances.
Import Models Context Examples.


Lemma context_complete_agrees_witness :
  is_offer_complete sample_context (Some opening_offer)
  = Offer_is_complete opening_offer.
Proof.
  assert (Hdom : dom (allocations opening_offer)
                 = issue_name_set (issues (game sample_context))).
  { apply (bool_decide_unpack _). vm_compute. exact I. }
  assert (Hne : issues (game sample_context) <> []) by discriminate.
  apply (context_complete_agrees sample_context opening_offer Hne Hdom).
Defined.

End ContextInstances.
